(** * Telemetry service: metric registry, log normaliser and HTTP handlers

    A shallow embedding of the Go packages [logger], [metrics] and [handler]
    of the telemetry service, and the properties of its specification that
    can be settled on it.

    Conventions.
    - A Go [map[string]T] is a [gmap string T].  Go leaves the iteration
      order of a map unspecified, and two [range] loops over the same map
      may visit it in different orders; every [range] takes an [order]
      oracle and the theorems quantify over all of them.
    - A [float64] sample is a rational number ([Q]): the properties below
      concern signs and sums, not rounding, NaN or infinities.
    - A Go function that can panic or end the process is a computation in
      the monad [M]: it returns an [outcome] together with the state it
      leaves behind (mutations made before a panic persist).
    - Calls into third-party packages (Prometheus client, zap,
      encoding/json) are modelled by what the caller observes of them; the
      JSON decoders are parameters of the development.  Strings stand for
      valid UTF-8 text, and metric and label names for names the
      Prometheus client accepts: its checks of characters are not
      modelled. *)

From Stdlib Require Import QArith.
From stdpp Require Import base option list gmap sets strings pretty sorting.

Local Open Scope string_scope.
Local Open Scope list_scope.
#[local] Set Warnings "-register-all".

(** ** Map iteration *)

Module GoMap.

(** An iteration order: the position at which each successive entry is
    placed among the entries already visited. *)
Definition order := list nat.

Fixpoint insert_at {A} (n : nat) (x : A) (l : list A) : list A :=
  match n, l with
  | S n', y :: l' => y :: insert_at n' x l'
  | _, _ => x :: l
  end.

Fixpoint arrange {A} (o : order) (l : list A) : list A :=
  match l with
  | [] => []
  | x :: l' => insert_at (hd 0%nat o) x (arrange (tl o) l')
  end.

(** [for k, v := range m]: the entries of [m] in the order chosen by [o]. *)
Definition range {V} (o : order) (m : gmap string V) : list (string * V) :=
  arrange o (map_to_list m).

End GoMap.

(** ** Outcomes and the state monad *)

(** How a Go call ends. *)
Inductive outcome (A : Type) : Type :=
  | Ret (a : A)            (* returned normally *)
  | Panic (msg : string)   (* panicked: the goroutine unwinds, deferred calls run *)
  | Exit (code : Z).       (* os.Exit: the process ends, deferred calls do not run *)
Arguments Ret {A} a.
Arguments Panic {A} msg.
Arguments Exit {A} code.

Section Monad.
Context {S : Type}.

Definition M (A : Type) : Type := S -> outcome A * S.

Definition ret {A} (a : A) : M A := fun s => (Ret a, s).

Definition bind {A B} (m : M A) (k : A -> M B) : M B :=
  fun s =>
    match m s with
    | (Ret a, s') => k a s'
    | (Panic msg, s') => (Panic msg, s')
    | (Exit c, s') => (Exit c, s')
    end.

Definition panic {A} (msg : string) : M A := fun s => (Panic msg, s).
Definition os_Exit {A} (code : Z) : M A := fun s => (Exit code, s).
Definition gets {A} (f : S -> A) : M A := fun s => (Ret (f s), s).
Definition modify (f : S -> S) : M unit := fun s => (Ret tt, f s).

(** [defer d; body]: [d] runs when [body] returns or panics, not when the
    process exits. *)
Definition defer {A} (d : S -> S) (body : M A) : M A :=
  fun s =>
    match body s with
    | (Exit c, s') => (Exit c, s')
    | (r, s') => (r, d s')
    end.

(** A library call that either panics with a message or yields a value. *)
Definition must {A} (r : string + A) : M A :=
  match r with
  | inl msg => panic msg
  | inr a => ret a
  end.
End Monad.
Arguments M : clear implicits.

Declare Scope go_scope.
Delimit Scope go_scope with go.
Notation "x <- m ;; k" := (bind m (fun x => k))
  (at level 100, m at next level, right associativity) : go_scope.
Notation "m ;; k" := (bind m (fun _ => k))
  (at level 100, right associativity) : go_scope.
Local Open Scope go_scope.

(** ** The Prometheus client, as the service uses it *)

Module prometheus.

(** A metric vector: the label names fixed when it is created and one
    child per tuple of label values. *)
Record Vec (V : Type) : Type := mkVec {
  label_names : list string;
  children : gmap (list string) V
}.
Arguments mkVec {V} _ _.
Arguments label_names {V} _.
Arguments children {V} _.

Abbreviation CounterVec := (Vec Q).
Abbreviation GaugeVec := (Vec Q).
(** A histogram child is kept as the observations made so far, latest
    first; its buckets are a function of them. *)
Abbreviation HistogramVec := (Vec (list Q)).

(** The registry remembers the fully-qualified names it has registered. *)
Abbreviation Registry := (gset string).

(** [promauto.With(reg).New*Vec(opts, labelNames)]: builds the vector and
    registers it with [MustRegister], which panics when the descriptor is
    invalid (a label name occurs twice) or when a collector of that name
    is registered already. *)
Definition NewVec {V} (reg : Registry) (fqName : string)
    (labelNames : list string) : string + (Vec V * Registry) :=
  if decide (NoDup labelNames) then
    if decide (fqName ∈ reg) then
      inl "duplicate metrics collector registration attempted"
    else inr (mkVec labelNames ∅, {[fqName]} ∪ reg)
  else inl "duplicate label names".

(** The child for [lvs], created with value [zero] if it does not exist. *)
Definition ensure_child {V} (zero : V) (lvs : list string) (v : Vec V) : Vec V :=
  match children v !! lvs with
  | Some _ => v
  | None => mkVec (label_names v) (<[lvs := zero]> (children v))
  end.

(** [v.WithLabelValues(lvs...)]: panics when the number of values is not
    the number of label names; otherwise the child for [lvs] is looked up
    or created. *)
Definition WithLabelValues {V} (zero : V) (lvs : list string)
    (v : Vec V) : string + Vec V :=
  if decide (length lvs = length (label_names v)) then inr (ensure_child zero lvs v)
  else inl "inconsistent label cardinality".

Definition update {V} (f : V -> V) (lvs : list string) (v : Vec V) : Vec V :=
  mkVec (label_names v) (alter f lvs (children v)).

(** [Counter.Add(x)] on the child [lvs]: panics when [x < 0]. *)
Definition Add (x : Q) (lvs : list string) (v : CounterVec) : string + CounterVec :=
  if Qle_bool 0 x then inr (update (fun y => y + x)%Q lvs v)
  else inl "counter cannot decrease in value".

(** [Counter.Inc()] *)
Definition Inc (lvs : list string) (v : CounterVec) : CounterVec :=
  update (fun y => y + 1)%Q lvs v.

(** [Gauge.Set(x)] *)
Definition Set_ (x : Q) (lvs : list string) (v : GaugeVec) : GaugeVec :=
  update (fun _ => x) lvs v.

(** [Histogram.Observe(x)] *)
Definition Observe (x : Q) (lvs : list string) (v : HistogramVec) : HistogramVec :=
  update (fun obs => x :: obs) lvs v.

(** The sample a scrape reports for the tuple [lvs] of [v]. *)
Definition sample {V} (v : Vec V) (lvs : list string) : option V :=
  children v !! lvs.

(** The sum of the samples of a counter vector. *)
Definition total (v : CounterVec) : Q :=
  map_fold (fun _ x acc => x + acc)%Q 0%Q (children v).

End prometheus.
Import prometheus.

(** A JSON value: the payload of [interface{}] fields and response bodies. *)
Inductive json : Type :=
  | JNull
  | JBool (b : bool)
  | JNum (x : Q)
  | JStr (s : string)
  | JArr (l : list json)
  | JObj (l : list (string * json)).

(** ** The zap logger, as the service uses it *)

Module zapcore.

Inductive Level : Type :=
  DebugLevel | InfoLevel | WarnLevel | ErrorLevel | PanicLevel | FatalLevel.

Definition rank (l : Level) : nat :=
  match l with
  | DebugLevel => 0 | InfoLevel => 1 | WarnLevel => 2
  | ErrorLevel => 3 | PanicLevel => 4 | FatalLevel => 5
  end.

(** [lvl.Enabled(l)]: the core writes entries at or above its level. *)
Definition Enabled (core l : Level) : bool := (rank core <=? rank l)%nat.

(** A written entry: level, message, structured fields. *)
Record Line : Type := mkLine {
  line_level : Level;
  line_message : string;
  line_fields : list (string * json)
}.

End zapcore.
Import zapcore.

(** ** Package [metrics] *)

(** [Metrics] holds all Prometheus metrics. *)
Record Metrics : Type := mkMetrics {
  HTTPRequestsTotal : CounterVec;
  HTTPRequestDuration : HistogramVec;
  HTTPRequestsInFlight : Q;
  LogsReceived : CounterVec;
  LogsProcessed : CounterVec;
  LogsErrors : CounterVec;
  LogBatchSize : list Q;
  CustomCounters : gmap string CounterVec;
  CustomGauges : gmap string GaugeVec;
  CustomHistograms : gmap string HistogramVec
}.

(** What a handler wrote to its [http.ResponseWriter]. *)
Record Response : Type := mkResponse {
  statusCode : Z;
  body : list (string * json)
}.

(** The process state: the package variables [metrics] and [reg] of package
    [metrics], the output of the zap logger of package [logger] (configured
    at [InfoLevel] by [main]) and the responses written so far, latest
    first. *)
Record World : Type := mkWorld {
  metrics : Metrics;
  reg : Registry;
  sink : list Line;
  written : list Response
}.

Definition set_metrics (f : Metrics -> Metrics) (w : World) : World :=
  mkWorld (f (metrics w)) (reg w) (sink w) (written w).
Definition set_reg (r : Registry) (w : World) : World :=
  mkWorld (metrics w) r (sink w) (written w).
Definition add_line (l : Line) (w : World) : World :=
  mkWorld (metrics w) (reg w) (l :: sink w) (written w).
Definition add_response (r : Response) (w : World) : World :=
  mkWorld (metrics w) (reg w) (sink w) (r :: written w).

Definition set_HTTPRequestsTotal (v : CounterVec) (m : Metrics) : Metrics :=
  mkMetrics v (HTTPRequestDuration m) (HTTPRequestsInFlight m) (LogsReceived m)
    (LogsProcessed m) (LogsErrors m) (LogBatchSize m) (CustomCounters m)
    (CustomGauges m) (CustomHistograms m).
Definition set_HTTPRequestDuration (v : HistogramVec) (m : Metrics) : Metrics :=
  mkMetrics (HTTPRequestsTotal m) v (HTTPRequestsInFlight m) (LogsReceived m)
    (LogsProcessed m) (LogsErrors m) (LogBatchSize m) (CustomCounters m)
    (CustomGauges m) (CustomHistograms m).
Definition set_HTTPRequestsInFlight (x : Q) (m : Metrics) : Metrics :=
  mkMetrics (HTTPRequestsTotal m) (HTTPRequestDuration m) x (LogsReceived m)
    (LogsProcessed m) (LogsErrors m) (LogBatchSize m) (CustomCounters m)
    (CustomGauges m) (CustomHistograms m).
Definition set_LogsReceived (v : CounterVec) (m : Metrics) : Metrics :=
  mkMetrics (HTTPRequestsTotal m) (HTTPRequestDuration m) (HTTPRequestsInFlight m) v
    (LogsProcessed m) (LogsErrors m) (LogBatchSize m) (CustomCounters m)
    (CustomGauges m) (CustomHistograms m).
Definition set_LogsProcessed (v : CounterVec) (m : Metrics) : Metrics :=
  mkMetrics (HTTPRequestsTotal m) (HTTPRequestDuration m) (HTTPRequestsInFlight m)
    (LogsReceived m) v (LogsErrors m) (LogBatchSize m) (CustomCounters m)
    (CustomGauges m) (CustomHistograms m).
Definition set_LogsErrors (v : CounterVec) (m : Metrics) : Metrics :=
  mkMetrics (HTTPRequestsTotal m) (HTTPRequestDuration m) (HTTPRequestsInFlight m)
    (LogsReceived m) (LogsProcessed m) v (LogBatchSize m) (CustomCounters m)
    (CustomGauges m) (CustomHistograms m).
Definition set_LogBatchSize (obs : list Q) (m : Metrics) : Metrics :=
  mkMetrics (HTTPRequestsTotal m) (HTTPRequestDuration m) (HTTPRequestsInFlight m)
    (LogsReceived m) (LogsProcessed m) (LogsErrors m) obs (CustomCounters m)
    (CustomGauges m) (CustomHistograms m).
Definition set_CustomCounters (c : gmap string CounterVec) (m : Metrics) : Metrics :=
  mkMetrics (HTTPRequestsTotal m) (HTTPRequestDuration m) (HTTPRequestsInFlight m)
    (LogsReceived m) (LogsProcessed m) (LogsErrors m) (LogBatchSize m) c
    (CustomGauges m) (CustomHistograms m).
Definition set_CustomGauges (c : gmap string GaugeVec) (m : Metrics) : Metrics :=
  mkMetrics (HTTPRequestsTotal m) (HTTPRequestDuration m) (HTTPRequestsInFlight m)
    (LogsReceived m) (LogsProcessed m) (LogsErrors m) (LogBatchSize m)
    (CustomCounters m) c (CustomHistograms m).
Definition set_CustomHistograms (c : gmap string HistogramVec) (m : Metrics) : Metrics :=
  mkMetrics (HTTPRequestsTotal m) (HTTPRequestDuration m) (HTTPRequestsInFlight m)
    (LogsReceived m) (LogsProcessed m) (LogsErrors m) (LogBatchSize m)
    (CustomCounters m) (CustomGauges m) c.

(** [InitMetrics]: the seven built-in collectors and three empty maps of
    custom families. *)
Definition InitMetrics : Metrics :=
  mkMetrics
    (mkVec ["method"; "endpoint"; "status"] ∅)
    (mkVec ["method"; "endpoint"] ∅)
    0%Q
    (mkVec ["service_name"; "level"] ∅)
    (mkVec ["service_name"; "level"] ∅)
    (mkVec ["service_name"; "error_type"] ∅)
    []
    ∅ ∅ ∅.

Definition init_reg : Registry :=
  list_to_set
    ["telemetry_http_requests_total"; "telemetry_http_request_duration_seconds";
     "telemetry_http_requests_in_flight"; "telemetry_logs_received_total";
     "telemetry_logs_processed_total"; "telemetry_logs_errors_total";
     "telemetry_log_batch_size"].

(** The process after [main] has initialised the logger and the metrics. *)
Definition init_world : World := mkWorld InitMetrics init_reg [] [].

(** [labelNames] as the three recorders build it when the family is
    created: ["service_name"], then every key of [labels] in iteration
    order. *)
Definition labelNames (o : GoMap.order) (labels : gmap string string) : list string :=
  "service_name" :: (GoMap.range o labels).*1.

(** [labelValues] as the three recorders build it on every call:
    [labels["service_name"]] (the empty string when the key is missing),
    then, after [delete(labels, "service_name")], every remaining value in
    iteration order. *)
Definition labelValues (o : GoMap.order) (labels : gmap string string) : list string :=
  default "" (labels !! "service_name")
    :: (GoMap.range o (delete "service_name" labels)).*2.

(** [promauto.With(reg).New*Vec] against the package registry. *)
Definition promauto_NewVec {V} (fqName : string) (names : list string)
    : M World (Vec V) :=
  fun w =>
    match NewVec (reg w) fqName names with
    | inl msg => (Panic msg, w)
    | inr (v, r) => (Ret v, set_reg r w)
    end.

(** [m.CustomCounters[name] = counter], and likewise for the other kinds. *)
Definition with_counter (name : string) (c : CounterVec) (w : World) : World :=
  set_metrics (fun m => set_CustomCounters (<[name := c]> (CustomCounters m)) m) w.
Definition with_gauge (name : string) (c : GaugeVec) (w : World) : World :=
  set_metrics (fun m => set_CustomGauges (<[name := c]> (CustomGauges m)) m) w.
Definition with_histogram (name : string) (c : HistogramVec) (w : World) : World :=
  set_metrics (fun m => set_CustomHistograms (<[name := c]> (CustomHistograms m)) m) w.

Definition store_counter (name : string) (c : CounterVec) : M World unit :=
  modify (with_counter name c).
Definition store_gauge (name : string) (c : GaugeVec) : M World unit :=
  modify (with_gauge name c).
Definition store_histogram (name : string) (c : HistogramVec) : M World unit :=
  modify (with_histogram name c).

(** [RecordCustomCounter] records a custom counter metric from external
    services.  The body runs with [m.mu] held; [o1] and [o2] are the
    iteration orders of its two [range] loops.  A vector is a pointer in
    Go: each change made through [counter] is written back to the map
    entry it is shared with. *)
Definition RecordCustomCounter (o1 o2 : GoMap.order) (name : string)
    (labels : gmap string string) (value : Q) : M World unit :=
  m <- gets metrics ;;
  counter <- match CustomCounters m !! name with
             | Some counter => ret counter
             | None =>
                 counter <- promauto_NewVec ("custom_" +:+ name) (labelNames o1 labels) ;;
                 store_counter name counter ;;
                 ret counter
             end ;;
  let labelValues := labelValues o2 labels in
  counter <- must (WithLabelValues 0%Q labelValues counter) ;;
  store_counter name counter ;;
  counter <- must (Add value labelValues counter) ;;
  store_counter name counter.

(** [RecordCustomGauge] *)
Definition RecordCustomGauge (o1 o2 : GoMap.order) (name : string)
    (labels : gmap string string) (value : Q) : M World unit :=
  m <- gets metrics ;;
  gauge <- match CustomGauges m !! name with
           | Some gauge => ret gauge
           | None =>
               gauge <- promauto_NewVec ("custom_" +:+ name) (labelNames o1 labels) ;;
               store_gauge name gauge ;;
               ret gauge
           end ;;
  let labelValues := labelValues o2 labels in
  gauge <- must (WithLabelValues 0%Q labelValues gauge) ;;
  store_gauge name (Set_ value labelValues gauge).

(** [RecordCustomHistogram] *)
Definition RecordCustomHistogram (o1 o2 : GoMap.order) (name : string)
    (labels : gmap string string) (value : Q) : M World unit :=
  m <- gets metrics ;;
  histogram <- match CustomHistograms m !! name with
               | Some histogram => ret histogram
               | None =>
                   histogram <- promauto_NewVec ("custom_" +:+ name) (labelNames o1 labels) ;;
                   store_histogram name histogram ;;
                   ret histogram
               end ;;
  let labelValues := labelValues o2 labels in
  histogram <- must (WithLabelValues [] labelValues histogram) ;;
  store_histogram name (Observe value labelValues histogram).

(** What the pull endpoint reports for the custom counter [name] at the
    label values [lvs]. *)
Definition snapshot_counter (w : World) (name : string) (lvs : list string) : option Q :=
  match CustomCounters (metrics w) !! name with
  | Some c => sample c lvs
  | None => None
  end.

(** [MetricEntry] represents a metric entry from external services.
    [Labels] is [None] for a nil map; its [ServiceName] is named
    [me_ServiceName] here, apart from that of [LogEntry]. *)
Record MetricEntry : Type := mkMetricEntry {
  me_ServiceName : string;
  MetricName : string;
  MetricType : string;
  Value : Q;
  Labels : option (gmap string string)
}.

(** The labels [RecordMetric] hands to the recorders: a nil map is replaced
    by an empty one, then [entry.Labels["service_name"] = entry.ServiceName]. *)
Definition folded_labels (entry : MetricEntry) : gmap string string :=
  <["service_name" := me_ServiceName entry]> (default ∅ (Labels entry)).

(** [RecordMetric] processes and records metrics from external services. *)
Definition RecordMetric (o1 o2 : GoMap.order) (entry : MetricEntry) : M World unit :=
  let labels := folded_labels entry in
  if String.eqb (MetricType entry) "counter" then
    RecordCustomCounter o1 o2 (MetricName entry) labels (Value entry)
  else if String.eqb (MetricType entry) "gauge" then
    RecordCustomGauge o1 o2 (MetricName entry) labels (Value entry)
  else if String.eqb (MetricType entry) "histogram" then
    RecordCustomHistogram o1 o2 (MetricName entry) labels (Value entry)
  else ret tt.

(** ** Package [logger] *)

(** A [time.Time] as nanoseconds since the zero instant (January 1, year 1,
    00:00:00 UTC), which is what a [Timestamp] holds when the JSON gave
    none. *)
Definition Time := Z.
Definition IsZero (t : Time) : bool := (t =? 0)%Z.

(** [LogEntry] represents a log entry from external services. *)
Record LogEntry : Type := mkLogEntry {
  ServiceName : string;
  Level : string;
  Message : string;
  Timestamp : Time;
  Fields : gmap string json;
  TraceID : string;
  SpanID : string
}.

Definition set_Timestamp (t : Time) (e : LogEntry) : LogEntry :=
  mkLogEntry (ServiceName e) (Level e) (Message e) t (Fields e) (TraceID e) (SpanID e).

(** [getLogLevel] converts string level to [zapcore.Level]. *)
Definition getLogLevel (level : string) : zapcore.Level :=
  if String.eqb level "debug" then DebugLevel
  else if String.eqb level "info" then InfoLevel
  else if String.eqb level "warn" || String.eqb level "warning" then WarnLevel
  else if String.eqb level "error" then ErrorLevel
  else if String.eqb level "fatal" then FatalLevel
  else if String.eqb level "panic" then PanicLevel
  else InfoLevel.

(** The level [main] (and [GetLogger], failing that) initialises the logger
    with. *)
Definition logger_level : zapcore.Level := getLogLevel "info".

(** The logger's core writes an entry when its level is enabled. *)
Definition zap_write (l : zapcore.Level) (msg : string)
    (fields : list (string * json)) : M World unit :=
  modify (fun w => if Enabled logger_level l then add_line (mkLine l msg fields) w else w).

(** [logger.Debug], [Info], [Warn], [Error]: write and return. *)
Definition zap_Log (l : zapcore.Level) (msg : string)
    (fields : list (string * json)) : M World unit :=
  zap_write l msg fields.

(** [logger.Fatal]: writes the entry, then calls [os.Exit(1)]. *)
Definition zap_Fatal (msg : string) (fields : list (string * json)) : M World unit :=
  zap_write FatalLevel msg fields ;; os_Exit 1.

(** [logger.Panic]: writes the entry, then panics with the message. *)
Definition zap_Panic (msg : string) (fields : list (string * json)) : M World unit :=
  zap_write PanicLevel msg fields ;; panic msg.

(** The fields [LogFromService] attaches: the service name, the trace and
    span ids when present, then the custom fields in iteration order [o]. *)
Definition entry_fields (o : GoMap.order) (entry : LogEntry) : list (string * json) :=
  let fields := [("service_name", JStr (ServiceName entry))] in
  let fields :=
    if negb (String.eqb (TraceID entry) "")
    then fields ++ [("trace_id", JStr (TraceID entry))] else fields in
  let fields :=
    if negb (String.eqb (SpanID entry) "")
    then fields ++ [("span_id", JStr (SpanID entry))] else fields in
  fields ++ GoMap.range o (Fields entry).

(** [LogFromService] processes and logs entries from external services.
    It returns a Go [error], [None] for nil; [o] is the order in which
    [entry.Fields] is ranged over. *)
Definition LogFromService (o : GoMap.order) (entry : LogEntry) : M World (option string) :=
  let fields := entry_fields o entry in
  (if String.eqb (Level entry) "debug" then zap_Log DebugLevel (Message entry) fields
   else if String.eqb (Level entry) "info" then zap_Log InfoLevel (Message entry) fields
   else if String.eqb (Level entry) "warn" || String.eqb (Level entry) "warning"
     then zap_Log WarnLevel (Message entry) fields
   else if String.eqb (Level entry) "error" then zap_Log ErrorLevel (Message entry) fields
   else if String.eqb (Level entry) "fatal" then zap_Fatal (Message entry) fields
   else if String.eqb (Level entry) "panic" then zap_Panic (Message entry) fields
   else zap_Log InfoLevel (Message entry) fields) ;;
  ret None.

(** [LogBatch] processes multiple log entries at once; [os] gives the
    iteration order for each entry in turn. *)
Fixpoint LogBatch (os : list GoMap.order) (entries : list LogEntry)
    : M World (option string) :=
  match entries with
  | [] => ret None
  | entry :: rest =>
      err <- LogFromService (hd [] os) entry ;;
      match err with
      | Some err => ret (Some ("failed to log entry: " +:+ err))
      | None => LogBatch (tl os) rest
      end
  end.

(** ** Package [handler] *)

(** The part of an [http.Request] the handlers read.  [Body] is [None] when
    the body cannot be read. *)
Record Request : Type := mkRequest {
  Method : string;
  Body : option string
}.

(** [http.StatusText] *)
Definition StatusText (status : Z) : string :=
  if (status =? 200)%Z then "OK"
  else if (status =? 400)%Z then "Bad Request"
  else if (status =? 405)%Z then "Method Not Allowed"
  else if (status =? 500)%Z then "Internal Server Error"
  else "".

(** [respondError] sends an error response. *)
Definition respondError (message : string) (statusCode : Z) : M World unit :=
  modify (add_response
    (mkResponse statusCode [("status", JStr "error"); ("error", JStr message)])).

(** [respondSuccess] sends a success response. *)
Definition respondSuccess (data : list (string * json)) : M World unit :=
  modify (add_response (mkResponse 200 data)).

(** [vec.WithLabelValues(lvs...).Inc()] on a counter field of [Metrics]. *)
Definition counter_Inc (get : Metrics -> CounterVec)
    (set : CounterVec -> Metrics -> Metrics) (lvs : list string) : M World unit :=
  m <- gets metrics ;;
  c <- must (WithLabelValues 0%Q lvs (get m)) ;;
  modify (set_metrics (set (Inc lvs c))).

(** [recordHTTPMetrics] records HTTP request metrics; [duration] is
    [time.Since(start).Seconds()]. *)
Definition recordHTTPMetrics (method endpoint : string) (status : Z)
    (duration : Q) : M World unit :=
  m <- gets metrics ;;
  h <- must (WithLabelValues [] [method; endpoint] (HTTPRequestDuration m)) ;;
  modify (set_metrics (set_HTTPRequestDuration (Observe duration [method; endpoint] h))) ;;
  counter_Inc HTTPRequestsTotal set_HTTPRequestsTotal [method; endpoint; StatusText status].

(** [h.metrics.HTTPRequestsInFlight.Inc()] and [.Dec()] *)
Definition InFlight_Inc (w : World) : World :=
  set_metrics (fun m => set_HTTPRequestsInFlight (HTTPRequestsInFlight m + 1)%Q m) w.
Definition InFlight_Dec (w : World) : World :=
  set_metrics (fun m => set_HTTPRequestsInFlight (HTTPRequestsInFlight m - 1)%Q m) w.

(** Reading a field through a pointer: a nil pointer panics. *)
Definition deref {A} (p : option A) : M World A :=
  match p with
  | Some a => ret a
  | None => panic "runtime error: invalid memory address or nil pointer dereference"
  end.

Section Gateway.

(** The decoders of encoding/json, as far as the handlers use them:
    [json_LogEntry data] is [json.Unmarshal(data, &entry)] on a zero
    [LogEntry] (a field the JSON does not give keeps its zero value),
    [json_elements] splits a body that is a JSON array into the text of its
    elements, and [json_MetricEntry] decodes a [MetricEntry].  Each returns
    [inl] with the decoder's message when it fails. *)
Variable json_LogEntry : string -> string + LogEntry.
Variable json_elements : string -> string + list string.
Variable json_MetricEntry : string -> string + MetricEntry.

(** [ParseLogEntry] parses raw JSON into [LogEntry]; [now] is what
    [time.Now()] returns.  The result is the pair of a pointer ([None] for
    nil) and an error ([None] for nil). *)
Definition ParseLogEntry (now : Time) (data : string) : option LogEntry * option string :=
  match json_LogEntry data with
  | inl err => (None, Some ("failed to parse log entry: " +:+ err))
  | inr entry =>
      let entry := if IsZero (Timestamp entry) then set_Timestamp now entry else entry in
      (Some entry, None)
  end.

(** Decoding an array element by element: the first failure is the
    decoder's error. *)
Fixpoint decode_elements (elems : list string) : string + list LogEntry :=
  match elems with
  | [] => inr []
  | e :: rest =>
      match json_LogEntry e with
      | inl err => inl err
      | inr entry =>
          match decode_elements rest with
          | inl err => inl err
          | inr entries => inr (entry :: entries)
          end
      end
  end.

(** [json.NewDecoder(r.Body).Decode(&entries)] with [entries []LogEntry]. *)
Definition Decode_LogEntries (r : Request) : string + list LogEntry :=
  match Body r with
  | None => inl "read error"
  | Some body =>
      match json_elements body with
      | inl err => inl err
      | inr elems => decode_elements elems
      end
  end.

(** [json.NewDecoder(r.Body).Decode(&entry)] with [entry MetricEntry]. *)
Definition Decode_MetricEntry (r : Request) : string + MetricEntry :=
  match Body r with
  | None => inl "read error"
  | Some body => json_MetricEntry body
  end.

(** [LogHandler] handles incoming log requests. *)
Definition LogHandler (o : GoMap.order) (now : Time) (elapsed : Q)
    (r : Request) : M World unit :=
  modify InFlight_Inc ;;
  defer InFlight_Dec (
    if negb (String.eqb (Method r) "POST") then
      respondError "Method not allowed" 405 ;;
      recordHTTPMetrics (Method r) "/api/v1/logs" 405 elapsed
    else
      match Body r with
      | None =>
          respondError "Failed to read request body" 400 ;;
          recordHTTPMetrics (Method r) "/api/v1/logs" 400 elapsed
      | Some body =>
          let '(entry, err) := ParseLogEntry now body in
          match err with
          | Some err =>
              respondError ("Failed to parse log entry: " +:+ err) 400 ;;
              recordHTTPMetrics (Method r) "/api/v1/logs" 400 elapsed ;;
              e <- deref entry ;;
              counter_Inc LogsErrors set_LogsErrors [ServiceName e; "parse_error"]
          | None =>
              e <- deref entry ;;
              counter_Inc LogsReceived set_LogsReceived [ServiceName e; Level e] ;;
              err <- LogFromService o e ;;
              match err with
              | Some err =>
                  respondError ("Failed to process log entry: " +:+ err) 500 ;;
                  recordHTTPMetrics (Method r) "/api/v1/logs" 500 elapsed ;;
                  counter_Inc LogsErrors set_LogsErrors [ServiceName e; "processing_error"]
              | None =>
                  counter_Inc LogsProcessed set_LogsProcessed [ServiceName e; Level e] ;;
                  respondSuccess [("status", JStr "success");
                                  ("message", JStr "Log entry processed successfully")] ;;
                  recordHTTPMetrics (Method r) "/api/v1/logs" 200 elapsed
              end
          end
      end).

(** The loop of [LogBatchHandler] over the accepted entries. *)
Fixpoint count_entries (entries : list LogEntry) : M World unit :=
  match entries with
  | [] => ret tt
  | entry :: rest =>
      counter_Inc LogsReceived set_LogsReceived [ServiceName entry; Level entry] ;;
      counter_Inc LogsProcessed set_LogsProcessed [ServiceName entry; Level entry] ;;
      count_entries rest
  end.

(** [LogBatchHandler] handles batch log requests. *)
Definition LogBatchHandler (os : list GoMap.order) (elapsed : Q)
    (r : Request) : M World unit :=
  modify InFlight_Inc ;;
  defer InFlight_Dec (
    if negb (String.eqb (Method r) "POST") then
      respondError "Method not allowed" 405 ;;
      recordHTTPMetrics (Method r) "/api/v1/logs/batch" 405 elapsed
    else
      match Decode_LogEntries r with
      | inl err =>
          respondError ("Failed to parse log entries: " +:+ err) 400 ;;
          recordHTTPMetrics (Method r) "/api/v1/logs/batch" 400 elapsed
      | inr entries =>
          modify (set_metrics (fun m =>
            set_LogBatchSize (inject_Z (Z.of_nat (length entries)) :: LogBatchSize m) m)) ;;
          err <- LogBatch os entries ;;
          match err with
          | Some err =>
              respondError ("Failed to process log batch: " +:+ err) 500 ;;
              recordHTTPMetrics (Method r) "/api/v1/logs/batch" 500 elapsed
          | None =>
              count_entries entries ;;
              respondSuccess [("status", JStr "success");
                              ("message", JStr "Log batch processed successfully");
                              ("count", JNum (inject_Z (Z.of_nat (length entries))))] ;;
              recordHTTPMetrics (Method r) "/api/v1/logs/batch" 200 elapsed
          end
      end).

(** [MetricsHandler] handles incoming metrics from external services. *)
Definition MetricsHandler (o1 o2 : GoMap.order) (elapsed : Q)
    (r : Request) : M World unit :=
  modify InFlight_Inc ;;
  defer InFlight_Dec (
    if negb (String.eqb (Method r) "POST") then
      respondError "Method not allowed" 405 ;;
      recordHTTPMetrics (Method r) "/api/v1/metrics" 405 elapsed
    else
      match Decode_MetricEntry r with
      | inl err =>
          respondError ("Failed to parse metric entry: " +:+ err) 400 ;;
          recordHTTPMetrics (Method r) "/api/v1/metrics" 400 elapsed
      | inr entry =>
          RecordMetric o1 o2 entry ;;
          respondSuccess [("status", JStr "success");
                          ("message", JStr "Metric recorded successfully")] ;;
          recordHTTPMetrics (Method r) "/api/v1/metrics" 200 elapsed
      end).

End Gateway.

(** ** Concurrent callers *)

(** Each request runs in a goroutine of its own, and the recorders
    serialise on [m.mu]: [m.mu.Lock()] first, [defer m.mu.Unlock()].  All
    accesses to the shared maps happen with the mutex held, so the program
    is free of data races and its executions are the interleavings of the
    goroutines' statements. *)

(** The body of a call as the statements it still has to run: a statement
    runs atomically on the process state and gives the rest of the body. *)
Inductive task : Type :=
  | Stop
  | Stmt (step : World -> outcome task * World).

(** An [M] computation as one statement, followed by [k]. *)
Definition stmt {A} (m : M World A) (k : A -> task) : task :=
  Stmt (fun w =>
    match m w with
    | (Ret a, w') => (Ret (k a), w')
    | (Panic msg, w') => (Panic msg, w')
    | (Exit c, w') => (Exit c, w')
    end).

(** Running a body to its end without interruption. *)
Fixpoint run_task (t : task) (w : World) {struct t} : outcome unit * World :=
  match t with
  | Stop => (Ret tt, w)
  | Stmt step =>
      match step w with
      | (Ret t', w') => run_task t' w'
      | (Panic msg, w') => (Panic msg, w')
      | (Exit c, w') => (Exit c, w')
      end
  end.

(** The body of [RecordCustomCounter], statement by statement: the map
    lookup, the creation of the family when it is missing, the building of
    [labelValues], [WithLabelValues] and [Add]. *)
Definition RecordCustomCounter_task (o1 o2 : GoMap.order) (name : string)
    (labels : gmap string string) (value : Q) : task :=
  stmt (gets (fun w => CustomCounters (metrics w) !! name)) (fun found =>
  stmt (match found with
        | Some counter => ret counter
        | None =>
            counter <- promauto_NewVec ("custom_" +:+ name) (labelNames o1 labels) ;;
            store_counter name counter ;;
            ret counter
        end) (fun counter =>
  stmt (ret (labelValues o2 labels)) (fun labelValues =>
  stmt (counter <- must (WithLabelValues 0%Q labelValues counter) ;;
        store_counter name counter ;; ret counter) (fun counter =>
  stmt (counter <- must (Add value labelValues counter) ;;
        store_counter name counter) (fun _ => Stop))))).

(** A goroutine running a recorder. *)
Inductive thread : Type :=
  | Waiting (t : task)             (* about to call [m.mu.Lock()] *)
  | Running (t : task)             (* holds [m.mu], [t] is left to run *)
  | Unwinding (msg : string)       (* panicked; the deferred unlock is next *)
  | Ended (r : outcome unit).

Record system : Type := mkSystem {
  world : World;
  mu : option nat;                 (* the goroutine holding [m.mu] *)
  threads : list thread;
  exited : bool                    (* [os.Exit] was called *)
}.

Definition spawn (tasks : list task) (w : World) : system :=
  mkSystem w None (Waiting <$> tasks) false.

(** One step of goroutine [i].  A goroutine waiting for a held mutex, one
    that has ended, and any goroutine of an exited process, do not move. *)
Definition step (i : nat) (s : system) : system :=
  if exited s then s else
  match threads s !! i with
  | Some (Waiting t) =>
      match mu s with
      | None => mkSystem (world s) (Some i) (<[i := Running t]> (threads s)) false
      | Some _ => s
      end
  | Some (Running Stop) =>
      mkSystem (world s) None (<[i := Ended (Ret tt)]> (threads s)) false
  | Some (Running (Stmt f)) =>
      match f (world s) with
      | (Ret t', w') => mkSystem w' (mu s) (<[i := Running t']> (threads s)) false
      | (Panic msg, w') => mkSystem w' (mu s) (<[i := Unwinding msg]> (threads s)) false
      | (Exit c, w') => mkSystem w' (mu s) (<[i := Ended (Exit c)]> (threads s)) true
      end
  | Some (Unwinding msg) =>
      mkSystem (world s) None (<[i := Ended (Panic msg)]> (threads s)) false
  | Some (Ended _) | None => s
  end.

(** Running a schedule: the goroutine to step next, one after the other. *)
Definition run (schedule : list nat) (s : system) : system :=
  foldl (fun s i => step i s) s schedule.

Definition ended (t : thread) : bool :=
  match t with Ended _ => true | _ => false end.

(** Every goroutine has ended and the process is still alive. *)
Definition all_ended (s : system) : bool :=
  negb (exited s) && forallb ended (threads s).

(** The state after the bodies [order] (indices into [tasks]) have run one
    after the other. *)
Definition serial (tasks : list task) (order : list nat) (w : World) : World :=
  foldl (fun w i => match tasks !! i with
                    | Some t => snd (run_task t w)
                    | None => w
                    end) w order.

(** ** Notions used in the statements *)

(** The label names [InitMetrics] gives the built-in vectors. *)
Definition builtin_wf (m : Metrics) : Prop :=
  label_names (HTTPRequestsTotal m) = ["method"; "endpoint"; "status"] ∧
  label_names (HTTPRequestDuration m) = ["method"; "endpoint"] ∧
  label_names (LogsReceived m) = ["service_name"; "level"] ∧
  label_names (LogsProcessed m) = ["service_name"; "level"] ∧
  label_names (LogsErrors m) = ["service_name"; "error_type"].

(** The state [recordHTTPMetrics] leaves behind when it does not panic. *)
Definition http_recorded (method endpoint : string) (status : Z) (duration : Q)
    (w : World) : World :=
  set_metrics (fun m =>
    set_HTTPRequestsTotal
      (Inc [method; endpoint; StatusText status]
         (ensure_child 0%Q [method; endpoint; StatusText status] (HTTPRequestsTotal m)))
      (set_HTTPRequestDuration
         (Observe duration [method; endpoint]
            (ensure_child [] [method; endpoint] (HTTPRequestDuration m))) m)) w.

(** The family a call works on: the stored one, or the one it creates. *)
Definition base_family (o1 : GoMap.order) (name : string)
    (labels : gmap string string) (w : World) : CounterVec :=
  default (mkVec (labelNames o1 labels) ∅) (CustomCounters (metrics w) !! name).

(** A family [c'] extends [c]: same label names, and every sample of [c]
    other than the one at [lvs] is a sample of [c']; the one at [lvs] too
    when [kept] holds. *)
Definition extends (kept : Prop) (lvs : list string) (c c' : CounterVec) : Prop :=
  label_names c' = label_names c ∧
  ∀ lvs' x, sample c lvs' = Some x → lvs' ≠ lvs ∨ kept → sample c' lvs' = Some x.

(** A submission as the gateway receives it: the entry and the iteration
    orders its two [range] loops happen to take. *)
Record submission : Type := mkSubmission {
  sub_names_order : GoMap.order;
  sub_values_order : GoMap.order;
  sub_entry : MetricEntry
}.

Definition submit (w : World) (s : submission) : World :=
  snd (RecordMetric (sub_names_order s) (sub_values_order s) (sub_entry s) w).

(** The process state after the submissions [subs], oldest first. *)
Definition after_submissions (subs : list submission) : World :=
  foldl submit init_world subs.

(** No custom family of any kind is stored. *)
Definition no_custom_family (w : World) : Prop :=
  CustomCounters (metrics w) = ∅ ∧ CustomGauges (metrics w) = ∅ ∧
  CustomHistograms (metrics w) = ∅.





(** The goroutines of [order] have ended, each with the result its body
    gives when run after the bodies before it in [order]. *)
Definition results_of (tasks : list task) (w0 : World) (order : list nat)
    (ths : list thread) : Prop :=
  ∀ k i, order !! k = Some i →
    ∃ t, tasks !! i = Some t ∧
         ths !! i = Some (Ended (fst (run_task t (serial tasks (take k order) w0)))).

(** What relates a state of the goroutines to the bodies that have run to
    their end, in the order [order] in which they released the mutex: the
    world is the one these bodies leave when run one after the other, but
    for the body of the goroutine holding the mutex, which is under way. *)
Definition serial_inv (tasks : list task) (w0 : World) (s : system) : Prop :=
  exited s = false →
  ∃ order : list nat,
    NoDup order ∧
    length (threads s) = length tasks ∧
    results_of tasks w0 order (threads s) ∧
    (∀ i t, tasks !! i = Some t → i ∉ order → mu s ≠ Some i →
            threads s !! i = Some (Waiting t)) ∧
    match mu s with
    | None => world s = serial tasks order w0
    | Some h =>
        (h ∉ order) ∧
        ∃ th, tasks !! h = Some th ∧
          ((∃ t, threads s !! h = Some (Running t) ∧
                 run_task t (world s) = run_task th (serial tasks order w0)) ∨
           (∃ msg, threads s !! h = Some (Unwinding msg) ∧
                   run_task th (serial tasks order w0) = (Panic msg, world s)))
    end.

(** ** Sample inputs *)

(** A fragment of encoding/json for examples: the body [{}] decodes to the
    zero value of the struct, a number is no [LogEntry], a truncated body
    is a syntax error, and [fatal_body] is an entry of level fatal. *)
Definition zero_LogEntry : LogEntry := mkLogEntry "" "" "" 0%Z ∅ "" "".
Definition zero_MetricEntry : MetricEntry := mkMetricEntry "" "" "" 0%Q None.

(** An instant for examples: 2025-10-30T00:00:00Z. *)
Definition sample_now : Time := 63897379200000000000%Z.

(** The double quote, which a string literal here cannot hold. *)
Definition dquote : string := String (Ascii.ascii_of_nat 34) EmptyString.
Definition quoted (s : string) : string := dquote +:+ s +:+ dquote.

(** The JSON text of an entry with [service_name] svc, [level] fatal and
    [message] boom, and what it decodes to. *)
Definition fatal_body : string :=
  "{" +:+ quoted "service_name" +:+ ":" +:+ quoted "svc" +:+ ","
      +:+ quoted "level" +:+ ":" +:+ quoted "fatal" +:+ ","
      +:+ quoted "message" +:+ ":" +:+ quoted "boom" +:+ "}".
Definition fatal_LogEntry : LogEntry := mkLogEntry "svc" "fatal" "boom" 0%Z ∅ "" "".

Definition sample_json_LogEntry (data : string) : string + LogEntry :=
  if String.eqb data "{}" then inr zero_LogEntry
  else if String.eqb data fatal_body then inr fatal_LogEntry
  else if String.eqb data "1"
    then inl "json: cannot unmarshal number into Go value of type logger.LogEntry"
  else inl "unexpected end of JSON input".

Definition sample_json_elements (data : string) : string + list string :=
  if String.eqb data "[]" then inr []
  else if String.eqb data "[{},{}]" then inr ["{}"; "{}"]
  else if String.eqb data "[{},1]" then inr ["{}"; "1"]
  else inl "unexpected end of JSON input".

Definition sample_json_MetricEntry (data : string) : string + MetricEntry :=
  if String.eqb data "{}" then inr zero_MetricEntry
  else inl "unexpected end of JSON input".

(** ** Observations a computation keeps *)

(** [m] keeps the observation [f] of the state: however [m] ends, [f] reads
    after it what it read before. *)
Definition keeps {S A X : Type} (f : S → X) (m : M S A) : Prop :=
  ∀ s, f (snd (m s)) = f s.

(** [m] maintains the property [P] of the state: when [P] holds before
    [m], it holds after, however [m] ends. *)
Definition maintains {S A : Type} (P : S → Prop) (m : M S A) : Prop :=
  ∀ s, P s → P (snd (m s)).

(** The custom families of the three kinds. *)
Definition custom_families (w : World)
    : gmap string CounterVec * gmap string GaugeVec * gmap string HistogramVec :=
  (CustomCounters (metrics w), CustomGauges (metrics w), CustomHistograms (metrics w)).

(** The label names of the built-in vectors, and the request counter. *)
Definition builtin_names (w : World) : list (list string) :=
  [label_names (HTTPRequestsTotal (metrics w));
   label_names (HTTPRequestDuration (metrics w));
   label_names (LogsReceived (metrics w));
   label_names (LogsProcessed (metrics w));
   label_names (LogsErrors (metrics w))].

Definition requests_counter (w : World) : CounterVec := HTTPRequestsTotal (metrics w).

(** A handler body counts its request: when it returns, the sum of the
    request counter over all its series is one higher. *)
Definition counts_request (m : M World unit) : Prop :=
  ∀ w, builtin_wf (metrics w) → fst (m w) = Ret tt →
       (total (requests_counter (snd (m w))) == total (requests_counter w) + 1)%Q.

(** The value of the in-flight gauge. *)
Definition in_flight (w : World) : Q := HTTPRequestsInFlight (metrics w).

(** The in-flight gauge after a handler that started in [w] has ended with
    [res]: back at its value when the handler returned or panicked (the
    deferred [Dec] ran), one above it when the process exited. *)
Definition in_flight_settled (w : World) (res : outcome unit * World) : Prop :=
  match fst res with
  | Exit _ => (in_flight (snd res) == in_flight w + 1)%Q
  | _ => (in_flight (snd res) == in_flight w)%Q
  end.

(** What a handler that started in [w] and ended with [res] has written to
    its [http.ResponseWriter]: one response, with a status among [codes];
    or nothing, and then it did not return. *)
Definition responded (codes : list Z) (w : World) (res : outcome unit * World) : Prop :=
  (∃ resp, written (snd res) = resp :: written w ∧ statusCode resp ∈ codes) ∨
  (written (snd res) = written w ∧ fst res ≠ Ret tt).

Definition responds (codes : list Z) (m : M World unit) : Prop :=
  ∀ w, responded codes w (m w).

(** ** Package [handler]: the health check *)

(** [HealthCheck] handles health check requests; [now] is what
    [time.Now().UTC()] returns and [format_Time] the text its JSON encoding
    gives a [time.Time].  It reads nothing of the request. *)
Definition HealthCheck (format_Time : Time → string) (now : Time) : M World unit :=
  modify (add_response
    (mkResponse 200 [("status", JStr "healthy");
                     ("timestamp", JStr (format_Time now));
                     ("service", JStr "telemetry-service")])).

(** ** Package [main]: the routes *)

(** The handlers [main] registers with the router. *)
Inductive Handler : Type :=
  | HealthCheck_handler
  | LogHandler_handler
  | LogBatchHandler_handler
  | MetricsHandler_handler
  | PrometheusMetricsHandler_handler.

(** A route: the path it matches, the methods it is restricted to ([None]
    when [Methods] was not called on it) and its handler. *)
Record Route : Type := mkRoute {
  route_path : string;
  route_methods : option (list string);
  route_handler : Handler
}.

(** The routes in the order [main] registers them: those of the
    [/api/v1] subrouter, the Prometheus endpoint, the root health check. *)
Definition routes : list Route :=
  [mkRoute "/api/v1/health" (Some ["GET"]) HealthCheck_handler;
   mkRoute "/api/v1/logs" (Some ["POST"]) LogHandler_handler;
   mkRoute "/api/v1/logs/batch" (Some ["POST"]) LogBatchHandler_handler;
   mkRoute "/api/v1/metrics" (Some ["POST"]) MetricsHandler_handler;
   mkRoute "/metrics" None PrometheusMetricsHandler_handler;
   mkRoute "/" (Some ["GET"]) HealthCheck_handler].

(** What the router decides for a request. *)
Inductive routed : Type :=
  | Matched (h : Handler)
  | MethodNotAllowed        (* a route has the path, none has the method too: 405 *)
  | NotFound.               (* no route has the path: 404 *)

(** The router's [Match]: the routes are tried in order; the first whose
    path and methods both match wins, and a route that fails on its methods
    only is remembered as a method mismatch.  [path] is the request path as
    the router matches it (it redirects a path that is not clean before
    matching). *)
Fixpoint Match (method path : string) (rs : list Route) (mismatch : bool) : routed :=
  match rs with
  | [] => if mismatch then MethodNotAllowed else NotFound
  | rt :: rs' =>
      if String.eqb path (route_path rt) then
        match route_methods rt with
        | None => Matched (route_handler rt)
        | Some methods =>
            if existsb (String.eqb method) methods then Matched (route_handler rt)
            else Match method path rs' true
        end
      else Match method path rs' mismatch
  end.

(** A request as the server receives it. *)
Record Incoming : Type := mkIncoming {
  in_Method : string;
  in_Path : string;
  in_Body : option string
}.

(** Who answered a request. *)
Inductive answer : Type :=
  | ByHandler (h : Handler)
  | ByRouter (status : Z).

Section Server.

Variable json_LogEntry : string → string + LogEntry.
Variable json_elements : string → string + list string.
Variable json_MetricEntry : string → string + MetricEntry.
Variable format_Time : Time → string.

(** What varies from one request to the next besides the request: the
    clock, the time the handler takes and the iteration orders of the maps
    it ranges over. *)
Record Env : Type := mkEnv {
  env_now : Time;
  env_elapsed : Q;
  env_order1 : GoMap.order;
  env_order2 : GoMap.order;
  env_orders : list GoMap.order
}.

(** The router's [ServeHTTP] on the routes of [main].  The Prometheus
    endpoint is served by [promhttp.HandlerFor(reg)], which gathers the
    registry and changes nothing; a request no route matches is answered
    by the router itself. *)
Definition ServeHTTP (env : Env) (req : Incoming) : M World answer :=
  let r := mkRequest (in_Method req) (in_Body req) in
  match Match (in_Method req) (in_Path req) routes false with
  | Matched HealthCheck_handler =>
      HealthCheck format_Time (env_now env) ;; ret (ByHandler HealthCheck_handler)
  | Matched LogHandler_handler =>
      LogHandler json_LogEntry (env_order1 env) (env_now env) (env_elapsed env) r ;;
      ret (ByHandler LogHandler_handler)
  | Matched LogBatchHandler_handler =>
      LogBatchHandler json_LogEntry json_elements (env_orders env) (env_elapsed env) r ;;
      ret (ByHandler LogBatchHandler_handler)
  | Matched MetricsHandler_handler =>
      MetricsHandler json_MetricEntry (env_order1 env) (env_order2 env)
        (env_elapsed env) r ;;
      ret (ByHandler MetricsHandler_handler)
  | Matched PrometheusMetricsHandler_handler =>
      ret (ByHandler PrometheusMetricsHandler_handler)
  | MethodNotAllowed => ret (ByRouter 405)
  | NotFound => ret (ByRouter 404)
  end.

End Server.

(** ** Counting *)

(** The counter vector [v'] is [v] with the series [lvs] one higher (a
    series that did not exist counts from 0) and every other series as it
    was. *)
Definition incremented (lvs : list string) (v v' : CounterVec) : Prop :=
  label_names v' = label_names v ∧
  sample v' lvs = Some (default 0 (sample v lvs) + 1)%Q ∧
  ∀ lvs', lvs' ≠ lvs → sample v' lvs' = sample v lvs'.

(** What [LogFromService] writes for an entry: one line at the level
    [getLogLevel] gives its level, when the logger's level enables it. *)
Definition line_of (o : GoMap.order) (entry : LogEntry) : list Line :=
  if Enabled logger_level (getLogLevel (Level entry))
  then [mkLine (getLogLevel (Level entry)) (Message entry) (entry_fields o entry)]
  else [].

(** ** More sample inputs *)

(** The JSON text of an entry with the given [service_name], [level] and
    [message]. *)
Definition entry_body (service level message : string) : string :=
  "{" +:+ quoted "service_name" +:+ ":" +:+ quoted service +:+ ","
      +:+ quoted "level" +:+ ":" +:+ quoted level +:+ ","
      +:+ quoted "message" +:+ ":" +:+ quoted message +:+ "}".

Definition sample_entries : list LogEntry :=
  [mkLogEntry "svc" "debug" "tick" 0%Z ∅ "" "";
   mkLogEntry "svc" "ERROR" "disk full" 0%Z ∅ "" "";
   mkLogEntry "svc" "info" "started" 0%Z ∅ "" "";
   mkLogEntry "svc" "panic" "boom" 0%Z ∅ "" ""].

(** A decoder for examples that knows the bodies of [sample_entries]
    besides those of [sample_json_LogEntry]. *)
Definition sample_json_LogEntry' (data : string) : string + LogEntry :=
  match find (fun e => String.eqb data
                         (entry_body (ServiceName e) (Level e) (Message e)))
          sample_entries with
  | Some e => inr e
  | None => sample_json_LogEntry data
  end.

(** ** Batches *)

(** The lines [LogBatch] writes for [entries], latest first. *)
Fixpoint batch_lines (os : list GoMap.order) (entries : list LogEntry) : list Line :=
  match entries with
  | [] => []
  | e :: rest => batch_lines (tl os) rest ++ line_of (hd [] os) e
  end.

(** The series of the log counters an entry is counted under. *)
Definition series_of (e : LogEntry) : list string := [ServiceName e; Level e].

(** A log counter after the loop of [LogBatchHandler] has counted [entries]. *)
Definition counted (entries : list LogEntry) (v : CounterVec) : CounterVec :=
  foldl (fun v e => Inc (series_of e) (ensure_child 0%Q (series_of e) v)) v entries.

(** The value a scrape reads for a series; a series that does not exist
    reads as 0 in sums. *)
Definition value_at (v : CounterVec) (lvs : list string) : Q :=
  default 0%Q (sample v lvs).

(** How many of [entries] are counted under the series [lvs]. *)
Definition occurrences (lvs : list string) (entries : list LogEntry) : nat :=
  length (filter (fun e => series_of e = lvs) entries).

(** An entry [LogFromService] returns from. *)
Definition returns (e : LogEntry) : Prop := Level e ≠ "fatal" ∧ Level e ≠ "panic".

(** The text of a batch of three entries, levels info, panic and debug,
    and a splitter of JSON arrays for examples that knows it. *)
Definition sample_batch_body : string :=
  "[" +:+ entry_body "svc" "info" "started" +:+ ","
      +:+ entry_body "svc" "panic" "boom" +:+ ","
      +:+ entry_body "svc" "debug" "tick" +:+ "]".

Definition sample_json_elements' (data : string) : string + list string :=
  if String.eqb data sample_batch_body
  then inr [entry_body "svc" "info" "started"; entry_body "svc" "panic" "boom";
            entry_body "svc" "debug" "tick"]
  else sample_json_elements data.

(** ** Custom families of the three kinds *)

(** What the pull endpoint reports for the custom gauge [name] at the label
    values [lvs], and the observations of the custom histogram [name] there
    (latest first). *)
Definition snapshot_gauge (w : World) (name : string) (lvs : list string) : option Q :=
  match CustomGauges (metrics w) !! name with
  | Some g => sample g lvs
  | None => None
  end.


(** The three recorders by kind. *)
Inductive kind : Type := Counter | Gauge | Histogram.

#[global] Instance kind_eq_dec : EqDecision kind.
Proof. solve_decision. Defined.

Definition record (k : kind) (o1 o2 : GoMap.order) (name : string)
    (labels : gmap string string) (value : Q) : M World unit :=
  match k with
  | Counter => RecordCustomCounter o1 o2 name labels value
  | Gauge => RecordCustomGauge o1 o2 name labels value
  | Histogram => RecordCustomHistogram o1 o2 name labels value
  end.

(** The names under which families of kind [k] are stored, and whether
    [name] is one of them. *)
Definition family_names (k : kind) (w : World) : gset string :=
  match k with
  | Counter => dom (CustomCounters (metrics w))
  | Gauge => dom (CustomGauges (metrics w))
  | Histogram => dom (CustomHistograms (metrics w))
  end.

Definition has_family (k : kind) (w : World) (name : string) : Prop :=
  name ∈ family_names k w.

(** One direct call of a recorder: its kind, the iteration orders of its
    two loops and its arguments. *)
Record recorder_call : Type := mkRecorderCall {
  rc_kind : kind;
  rc_names_order : GoMap.order;
  rc_values_order : GoMap.order;
  rc_name : string;
  rc_labels : gmap string string;
  rc_value : Q
}.

Definition run_call (c : recorder_call) : M World unit :=
  record (rc_kind c) (rc_names_order c) (rc_values_order c) (rc_name c)
    (rc_labels c) (rc_value c).

(** The state after the recorder calls [cs], oldest first; a call that
    panics leaves its changes and the process goes on. *)
Definition after_recorder_calls (w : World) (cs : list recorder_call) : World :=
  foldl (fun w c => snd (run_call c w)) w cs.

(** Every stored family is registered under its name with the prefix
    [custom_]. *)
Definition families_registered (w : World) : Prop :=
  ∀ k name, has_family k w name → "custom_" +:+ name ∈ reg w.

(** No name has families of two kinds. *)
Definition one_kind_per_name (w : World) : Prop :=
  ∀ k k' name, has_family k w name → has_family k' w name → k = k'.

(** The JSON text of a counter submission [hits] of the service [svc] with
    value 1, and a decoder for examples that knows it. *)
Definition sample_metric_body : string :=
  "{" +:+ quoted "service_name" +:+ ":" +:+ quoted "svc" +:+ ","
      +:+ quoted "metric_name" +:+ ":" +:+ quoted "hits" +:+ ","
      +:+ quoted "metric_type" +:+ ":" +:+ quoted "counter" +:+ ","
      +:+ quoted "value" +:+ ":1}".

Definition sample_json_MetricEntry' (data : string) : string + MetricEntry :=
  if String.eqb data sample_metric_body
  then inr (mkMetricEntry "svc" "hits" "counter" 1 None)
  else sample_json_MetricEntry data.

(** ** Concurrent callers of the other recorders *)


Definition RecordCustomHistogram_task (o1 o2 : GoMap.order) (name : string)
    (labels : gmap string string) (value : Q) : task :=
  stmt (gets (fun w => CustomHistograms (metrics w) !! name)) (fun found =>
  stmt (match found with
        | Some histogram => ret histogram
        | None =>
            histogram <- promauto_NewVec ("custom_" +:+ name) (labelNames o1 labels) ;;
            store_histogram name histogram ;;
            ret histogram
        end) (fun histogram =>
  stmt (ret (labelValues o2 labels)) (fun labelValues =>
  stmt (histogram <- must (WithLabelValues [] labelValues histogram) ;;
        store_histogram name (Observe value labelValues histogram)) (fun _ => Stop)))).


(** ** Sums of submissions *)



(** ** Package [logger]: initialisation *)

(** A built [*zap.Logger], as far as the package configures it. *)
Record ZapLogger : Type := mkZapLogger {
  zl_level : zapcore.Level;
  zl_encoding : string
}.

(** The package variables [zapLogger] ([None] for nil) and [once]. *)
Record LoggerPkg : Type := mkLoggerPkg {
  zapLogger : option ZapLogger;
  logger_once : bool
}.

(** The package before any call. *)
Definition logger_start : LoggerPkg := mkLoggerPkg None false.

(** What [InitLogger] meets outside the program: the error of
    [os.MkdirAll("logs", 0755)] and the error of opening the output paths,
    [None] when there is none. *)
Record LoggerEnv : Type := mkLoggerEnv {
  MkdirAll_error : option string;
  open_error : option string
}.

(** [config.Build()]: fails when no encoder is registered under the name
    of the encoding (zap registers [json] and [console]), then when an
    output path cannot be opened. *)
Definition zap_Build (env : LoggerEnv) (level : zapcore.Level) (encoding : string)
    : string + ZapLogger :=
  if bool_decide (encoding ∈ ["json"; "console"]) then
    match open_error env with
    | Some err => inl err
    | None => inr (mkZapLogger level encoding)
    end
  else inl ("no encoder registered for name " +:+ quoted encoding).

(** [InitLogger] initializes the Zap logger: the body runs under
    [once.Do], and [err] is a variable of the call.  The result is the
    error returned ([None] for nil) and the package variables. *)
Definition InitLogger (env : LoggerEnv) (level encoding : string) (pkg : LoggerPkg)
    : option string * LoggerPkg :=
  if logger_once pkg then (None, pkg)
  else
    match MkdirAll_error env with
    | Some err => (Some err, mkLoggerPkg (zapLogger pkg) true)
    | None =>
        match zap_Build env (getLogLevel level) encoding with
        | inl err => (Some err, mkLoggerPkg None true)
        | inr l => (None, mkLoggerPkg (Some l) true)
        end
    end.

(** [GetLogger] returns the initialized Zap logger. *)
Definition GetLogger (env : LoggerEnv) (pkg : LoggerPkg) : option ZapLogger * LoggerPkg :=
  match zapLogger pkg with
  | None =>
      let pkg' := snd (InitLogger env "info" "json" pkg) in
      (zapLogger pkg', pkg')
  | Some l => (Some l, pkg)
  end.

(** [Sync] flushes any buffered log entries; [sync_error] is what
    [zapLogger.Sync()] returns. *)
Definition Sync (sync_error : option string) (pkg : LoggerPkg) : option string :=
  match zapLogger pkg with
  | Some _ => sync_error
  | None => None
  end.

(** A call on package [logger] from outside, and the package after a
    sequence of them. *)
Inductive logger_call : Type :=
  | Call_InitLogger (env : LoggerEnv) (level encoding : string)
  | Call_GetLogger (env : LoggerEnv)
  | Call_Sync (sync_error : option string).

Definition logger_step (pkg : LoggerPkg) (c : logger_call) : LoggerPkg :=
  match c with
  | Call_InitLogger env level encoding => snd (InitLogger env level encoding pkg)
  | Call_GetLogger env => snd (GetLogger env pkg)
  | Call_Sync _ => pkg
  end.

Definition logger_after (pkg : LoggerPkg) (cs : list logger_call) : LoggerPkg :=
  foldl logger_step pkg cs.

(** ** Package [metrics]: initialisation *)

(** [factory.New*Vec] against the registry being filled: the vector is
    registered, and a registration that fails panics. *)
Definition factory_NewVec {V} (fqName : string) (names : list string)
    : M Registry (Vec V) :=
  fun reg =>
    match NewVec reg fqName names with
    | inl msg => (Panic msg, reg)
    | inr (v, r) => (Ret v, r)
    end.

(** [factory.NewGauge] and [factory.NewHistogram]: a collector without
    labels, registered under its name. *)
Definition factory_New (fqName : string) : M Registry unit :=
  factory_NewVec (V:=unit) fqName [] ;; ret tt.

(** The body of [InitMetrics] under [once.Do], from the new registry on:
    the seven collectors in the order of the struct literal, and the three
    empty maps. *)
Definition register_builtin : M Registry Metrics :=
  requests <- factory_NewVec "telemetry_http_requests_total"
                ["method"; "endpoint"; "status"] ;;
  duration <- factory_NewVec "telemetry_http_request_duration_seconds"
                ["method"; "endpoint"] ;;
  factory_New "telemetry_http_requests_in_flight" ;;
  received <- factory_NewVec "telemetry_logs_received_total" ["service_name"; "level"] ;;
  processed <- factory_NewVec "telemetry_logs_processed_total" ["service_name"; "level"] ;;
  errors <- factory_NewVec "telemetry_logs_errors_total" ["service_name"; "error_type"] ;;
  factory_New "telemetry_log_batch_size" ;;
  ret (mkMetrics requests duration 0%Q received processed errors [] ∅ ∅ ∅).

(** The package variables [metrics] and [reg] ([None] for nil) and [once]. *)
Record MetricsPkg : Type := mkMetricsPkg {
  metrics_var : option Metrics;
  reg_var : option Registry;
  metrics_once : bool
}.

(** The package before any call. *)
Definition metrics_start : MetricsPkg := mkMetricsPkg None None false.

(** [InitMetrics] initializes Prometheus metrics, under [once.Do], and
    returns [metrics]. *)
Definition InitMetrics_once : M MetricsPkg (option Metrics) :=
  fun pkg =>
    if metrics_once pkg then (Ret (metrics_var pkg), pkg)
    else
      match register_builtin ∅ with
      | (Ret m, r) => (Ret (Some m), mkMetricsPkg (Some m) (Some r) true)
      | (Panic msg, r) => (Panic msg, mkMetricsPkg (metrics_var pkg) (Some r) true)
      | (Exit c, r) => (Exit c, mkMetricsPkg (metrics_var pkg) (Some r) true)
      end.

(** [GetMetrics] returns the initialized metrics instance. *)
Definition GetMetrics : M MetricsPkg (option Metrics) :=
  fun pkg =>
    match metrics_var pkg with
    | None => InitMetrics_once pkg
    | Some m => (Ret (Some m), pkg)
    end.

(** [GetRegistry] returns the Prometheus registry. *)
Definition GetRegistry : M MetricsPkg (option Registry) :=
  fun pkg =>
    match reg_var pkg with
    | None => (InitMetrics_once ;; gets reg_var) pkg
    | Some r => (Ret (Some r), pkg)
    end.

(** A call on the initialisation of package [metrics], and the package
    after a sequence of them. *)
Inductive metrics_call : Type := Call_InitMetrics | Call_GetMetrics | Call_GetRegistry.

Definition metrics_step (pkg : MetricsPkg) (c : metrics_call) : MetricsPkg :=
  match c with
  | Call_InitMetrics => snd (InitMetrics_once pkg)
  | Call_GetMetrics => snd (GetMetrics pkg)
  | Call_GetRegistry => snd (GetRegistry pkg)
  end.

Definition metrics_after (pkg : MetricsPkg) (cs : list metrics_call) : MetricsPkg :=
  foldl metrics_step pkg cs.

(** ** encoding/json on the two entry types *)

(** The decoders the handlers call were parameters so far.  This is what
    [json.Unmarshal] and [Decoder.Decode] do with a JSON value for the
    structs [LogEntry] and [MetricEntry], as their field types and tags
    determine it; the reading of the text into a JSON value stays a
    parameter. *)

(** The name of a JSON value's kind in the decoder's errors. *)
Definition json_kind (j : json) : string :=
  match j with
  | JNull => "null"
  | JBool _ => "bool"
  | JNum _ => "number"
  | JStr _ => "string"
  | JArr _ => "array"
  | JObj _ => "object"
  end.

(** [foldName]: the key with its ASCII letters in upper case and the two
    letters outside ASCII that fold to an ASCII letter, U+017F (long s)
    and U+212A (Kelvin sign), replaced by S and K. *)
Definition upper (c : Ascii.ascii) : Ascii.ascii :=
  let n := Ascii.nat_of_ascii c in
  if (97 <=? n)%nat && (n <=? 122)%nat then Ascii.ascii_of_nat (n - 32) else c.

Fixpoint foldName (s : string) : string :=
  match s with
  | EmptyString => EmptyString
  | String c rest =>
      match Ascii.nat_of_ascii c, rest with
      | 197%nat, String c1 rest1 =>
          if (Ascii.nat_of_ascii c1 =? 191)%nat then String (Ascii.ascii_of_nat 83) (foldName rest1)
          else String c (foldName rest)
      | 226%nat, String c1 (String c2 rest2) =>
          if (Ascii.nat_of_ascii c1 =? 132)%nat && (Ascii.nat_of_ascii c2 =? 170)%nat
          then String (Ascii.ascii_of_nat 75) (foldName rest2)
          else String c (foldName rest)
      | _, _ => String (upper c) (foldName rest)
      end
  end.

(** The struct field a key of the JSON object goes to: the field whose
    name is the key, or else the first whose folded name is the folded
    key; a key that matches none is skipped. *)
Definition find_field {F : Type} (tags : list (string * F)) (key : string) : option F :=
  match find (fun t => String.eqb (fst t) key) tags with
  | Some t => Some (snd t)
  | None => snd <$> find (fun t => String.eqb (foldName (fst t)) (foldName key)) tags
  end.

(** The first type error is saved and decoding goes on. *)
Definition saveError (saved : option string) (err : string) : option string :=
  match saved with
  | Some e => Some e
  | None => Some err
  end.

Definition UnmarshalTypeError (j : json) (field type : string) : string :=
  "json: cannot unmarshal " +:+ json_kind j +:+ " into Go struct field " +:+ field
    +:+ " of type " +:+ type.

(** A JSON value for a field of type [string]: a string is stored, null
    changes nothing, anything else is a type error. *)
Definition into_string (field : string) (j : json) (old : string)
    (saved : option string) : string * option string :=
  match j with
  | JStr s => (s, saved)
  | JNull => (old, saved)
  | _ => (old, saveError saved (UnmarshalTypeError j field "string"))
  end.

Inductive LogEntry_field : Type :=
  F_service_name | F_level | F_message | F_timestamp | F_fields | F_trace_id | F_span_id.

(** The JSON names of the fields of [LogEntry], from its tags. *)
Definition LogEntry_tags : list (string * LogEntry_field) :=
  [("service_name", F_service_name); ("level", F_level); ("message", F_message);
   ("timestamp", F_timestamp); ("fields", F_fields); ("trace_id", F_trace_id);
   ("span_id", F_span_id)].

Inductive MetricEntry_field : Type :=
  G_service_name | G_metric_name | G_metric_type | G_value | G_labels.

Definition MetricEntry_tags : list (string * MetricEntry_field) :=
  [("service_name", G_service_name); ("metric_name", G_metric_name);
   ("metric_type", G_metric_type); ("value", G_value); ("labels", G_labels)].

Section Unmarshal.

(** [time.Parse(time.RFC3339, s)], which [Time.UnmarshalJSON] applies to a
    JSON string; [None] when [s] is not such a time. *)
Variable parse_RFC3339 : string → option Time.

(** One member of the JSON object into a [LogEntry].  The result is the
    entry and the saved error, or the error that ends the decoding: an
    [UnmarshalJSON] method that fails does. *)
Definition LogEntry_member (st : LogEntry * option string) (key : string) (j : json)
    : string + LogEntry * option string :=
  let '(e, saved) := st in
  match find_field LogEntry_tags key with
  | None => inr (e, saved)
  | Some F_service_name =>
      let '(s, saved) := into_string "LogEntry.service_name" j (ServiceName e) saved in
      inr (mkLogEntry s (Level e) (Message e) (Timestamp e) (Fields e) (TraceID e)
             (SpanID e), saved)
  | Some F_level =>
      let '(s, saved) := into_string "LogEntry.level" j (Level e) saved in
      inr (mkLogEntry (ServiceName e) s (Message e) (Timestamp e) (Fields e) (TraceID e)
             (SpanID e), saved)
  | Some F_message =>
      let '(s, saved) := into_string "LogEntry.message" j (Message e) saved in
      inr (mkLogEntry (ServiceName e) (Level e) s (Timestamp e) (Fields e) (TraceID e)
             (SpanID e), saved)
  | Some F_timestamp =>
      match j with
      | JNull => inr (e, saved)
      | JStr s =>
          match parse_RFC3339 s with
          | Some t => inr (set_Timestamp t e, saved)
          | None => inl ("parsing time " +:+ quoted s +:+ " as RFC 3339")
          end
      | _ => inl "Time.UnmarshalJSON: input is not a JSON string"
      end
  | Some F_fields =>
      match j with
      | JObj members =>
          inr (mkLogEntry (ServiceName e) (Level e) (Message e) (Timestamp e)
                 (foldl (fun m kv => <[fst kv := snd kv]> m) (Fields e) members)
                 (TraceID e) (SpanID e), saved)
      | JNull =>
          inr (mkLogEntry (ServiceName e) (Level e) (Message e) (Timestamp e) ∅
                 (TraceID e) (SpanID e), saved)
      | _ =>
          inr (e, saveError saved
                    (UnmarshalTypeError j "LogEntry.fields" "map[string]interface {}"))
      end
  | Some F_trace_id =>
      let '(s, saved) := into_string "LogEntry.trace_id" j (TraceID e) saved in
      inr (mkLogEntry (ServiceName e) (Level e) (Message e) (Timestamp e) (Fields e) s
             (SpanID e), saved)
  | Some F_span_id =>
      let '(s, saved) := into_string "LogEntry.span_id" j (SpanID e) saved in
      inr (mkLogEntry (ServiceName e) (Level e) (Message e) (Timestamp e) (Fields e)
             (TraceID e) s, saved)
  end.

(** The members of an object in the order of the text. *)
Fixpoint LogEntry_members (st : LogEntry * option string) (members : list (string * json))
    : string + LogEntry * option string :=
  match members with
  | [] => inr st
  | (key, j) :: rest =>
      match LogEntry_member st key j with
      | inl err => inl err
      | inr st' => LogEntry_members st' rest
      end
  end.

(** [json.Unmarshal(data, &entry)] on a zero [LogEntry], for the JSON value
    [j] of [data]: an error when the decoding ended early or saved a type
    error. *)
Definition Unmarshal_LogEntry (j : json) : string + LogEntry :=
  match j with
  | JObj members =>
      match LogEntry_members (zero_LogEntry, None) members with
      | inl err => inl err
      | inr (_, Some err) => inl err
      | inr (e, None) => inr e
      end
  | JNull => inr zero_LogEntry
  | _ => inl ("json: cannot unmarshal " +:+ json_kind j
              +:+ " into Go value of type logger.LogEntry")
  end.

End Unmarshal.

(** One member of the object of labels into a [map[string]string]: the
    key is set to the string, or to the empty string when the value is
    null or of another kind, which is a type error. *)
Definition label_member (st : gmap string string * option string)
    (kv : string * json) : gmap string string * option string :=
  let '(m, saved) := st in
  let '(s, saved) := into_string "MetricEntry.labels" (snd kv) "" saved in
  (<[fst kv := s]> m, saved).

(** One member of the JSON object into a [MetricEntry]. *)
Definition MetricEntry_member (st : MetricEntry * option string) (key : string) (j : json)
    : MetricEntry * option string :=
  let '(e, saved) := st in
  match find_field MetricEntry_tags key with
  | None => (e, saved)
  | Some G_service_name =>
      let '(s, saved) := into_string "MetricEntry.service_name" j (me_ServiceName e) saved in
      (mkMetricEntry s (MetricName e) (MetricType e) (Value e) (Labels e), saved)
  | Some G_metric_name =>
      let '(s, saved) := into_string "MetricEntry.metric_name" j (MetricName e) saved in
      (mkMetricEntry (me_ServiceName e) s (MetricType e) (Value e) (Labels e), saved)
  | Some G_metric_type =>
      let '(s, saved) := into_string "MetricEntry.metric_type" j (MetricType e) saved in
      (mkMetricEntry (me_ServiceName e) (MetricName e) s (Value e) (Labels e), saved)
  | Some G_value =>
      match j with
      | JNum x =>
          (mkMetricEntry (me_ServiceName e) (MetricName e) (MetricType e) x (Labels e),
           saved)
      | JNull => (e, saved)
      | _ => (e, saveError saved (UnmarshalTypeError j "MetricEntry.value" "float64"))
      end
  | Some G_labels =>
      match j with
      | JObj members =>
          let '(m, saved) := foldl label_member (default ∅ (Labels e), saved) members in
          (mkMetricEntry (me_ServiceName e) (MetricName e) (MetricType e) (Value e)
             (Some m), saved)
      | JNull =>
          (mkMetricEntry (me_ServiceName e) (MetricName e) (MetricType e) (Value e) None,
           saved)
      | _ =>
          (e, saveError saved
                (UnmarshalTypeError j "MetricEntry.labels" "map[string]string"))
      end
  end.

(** [Decode(&entry)] on a zero [MetricEntry], for the JSON value [j] read
    from the body. *)
Definition Unmarshal_MetricEntry (j : json) : string + MetricEntry :=
  match j with
  | JObj members =>
      match foldl (fun st kv => MetricEntry_member st (fst kv) (snd kv))
              (zero_MetricEntry, None) members with
      | (_, Some err) => inl err
      | (e, None) => inr e
      end
  | JNull => inr zero_MetricEntry
  | _ => inl ("json: cannot unmarshal " +:+ json_kind j
              +:+ " into Go value of type metrics.MetricEntry")
  end.

(** The decoders of the handlers, given the reading of a text into the JSON
    value it denotes ([None] for a text that is not JSON). *)
Definition Go_json_LogEntry (parse_RFC3339 : string → option Time)
    (parse : string → option json) (data : string) : string + LogEntry :=
  match parse data with
  | None => inl "invalid character looking for beginning of value"
  | Some j => Unmarshal_LogEntry parse_RFC3339 j
  end.

Definition Go_json_MetricEntry (parse : string → option json) (data : string)
    : string + MetricEntry :=
  match parse data with
  | None => inl "invalid character looking for beginning of value"
  | Some j => Unmarshal_MetricEntry j
  end.

(** ** The PHP client [TelemetryClient] *)

Module php.

(** A PHP array key and a PHP value ([zval]), as far as the client handles
    them.
    An array is an ordered map: its keys are distinct, and a string key is
    not the decimal text of an integer (PHP stores such a key as the
    integer). *)
Inductive key : Type :=
  | KInt (n : Z)
  | KStr (s : string).

Inductive zval : Type :=
  | Null
  | Bool (b : bool)
  | Int (n : Z)
  | Float (x : Q)
  | Str (s : string)
  | Arr (items : list (key * zval)).

(** The truth value PHP gives a string: [if ($error)], [$baseUrl ?: ...]. *)
Definition truthy (s : string) : bool :=
  negb (String.eqb s "" || String.eqb s "0").

(** [array_is_list]: the keys are 0, 1, 2, ... in this order. *)
Fixpoint is_list_from (n : Z) (items : list (key * zval)) : bool :=
  match items with
  | [] => true
  | (KInt m, _) :: rest => (m =? n)%Z && is_list_from (n + 1) rest
  | (KStr _, _) :: _ => false
  end.

Definition key_text (k : key) : string :=
  match k with
  | KInt n => pretty n
  | KStr s => s
  end.

(** [json_encode], as the JSON value its text denotes: an array that is a
    list, the empty array among them, becomes a JSON array, and any other
    array a JSON object. *)
Fixpoint json_encode (v : zval) : json :=
  match v with
  | Null => JNull
  | Bool b => JBool b
  | Int n => JNum (inject_Z n)
  | Float x => JNum x
  | Str s => JStr s
  | Arr items =>
      if is_list_from 0 items
      then JArr (map (fun kv => let '(_, x) := kv in json_encode x) items)
      else JObj (map (fun kv => let '(k, x) := kv in (key_text k, json_encode x)) items)
  end.

(** [$array[$k] ?? $default]: the value under the key when it is set and
    not null. *)
Definition lookup_key (k : string) (items : list (key * zval)) : option zval :=
  snd <$> find (fun kv => match fst kv with
                          | KStr s => String.eqb s k
                          | KInt _ => false
                          end) items.

Definition coalesce (v : option zval) (d : zval) : zval :=
  match v with
  | Some Null | None => d
  | Some x => x
  end.

(** [rtrim($s, '/')]: [s] without the slashes at its end. *)
Fixpoint rtrim_slash (s : string) : string :=
  match s with
  | EmptyString => EmptyString
  | String c rest =>
      match rtrim_slash rest with
      | EmptyString =>
          if Ascii.eqb c (Ascii.ascii_of_nat 47) then EmptyString
          else String c EmptyString
      | r => String c r
      end
  end.

(** The object: its three private fields. *)
Record TelemetryClient : Type := mkClient {
  serviceName : string;
  baseUrl : string;
  timeout : Z
}.

(** [__construct($serviceName, $baseUrl = null, $timeout = 5)]; [env] is
    [$_ENV['telemetry-service_URL']] when it is set. *)
Definition construct (serviceName : string) (baseUrl : option string)
    (env : option string) (timeout : Z) : TelemetryClient :=
  mkClient serviceName
    (match baseUrl with
     | Some url => if truthy url then url else default "http://localhost:8080" env
     | None => default "http://localhost:8080" env
     end)
    timeout.

(** What the client hands to curl, and what curl reports: the body
    ([None] when [curl_exec] returns false), the status code and the error
    text, empty when there was none. *)
Record CurlRequest : Type := mkCurlRequest {
  curl_url : string;
  curl_postfields : json;
  curl_timeout : Z
}.

Record CurlResult : Type := mkCurlResult {
  curl_response : option string;
  curl_httpCode : Z;
  curl_error : string
}.

Section Client.

(** The network. *)
Variable curl_exec : CurlRequest → CurlResult.

(** [date('c')] at the time of the call. *)
Variable date_c : string.

(** [sendRequest]: the exception's message, or true. *)
Definition sendRequest (this : TelemetryClient) (endpoint : string) (data : zval)
    : string + bool :=
  let url := rtrim_slash (baseUrl this) +:+ endpoint in
  let payload := json_encode data in
  let result := curl_exec (mkCurlRequest url payload (timeout this)) in
  if truthy (curl_error result) then inl ("cURL error: " +:+ curl_error result)
  else if (curl_httpCode result <? 200)%Z || (300 <=? curl_httpCode result)%Z then
    inl ("HTTP error: " +:+ pretty (curl_httpCode result) +:+ " - "
         +:+ default "" (curl_response result))
  else inr true.

(** The array [log] builds. *)
Definition log_entry (this : TelemetryClient) (level message : string) (fields : zval)
    (traceId spanId : option string) : zval :=
  Arr ([(KStr "service_name", Str (serviceName this));
        (KStr "level", Str level);
        (KStr "message", Str message);
        (KStr "timestamp", Str date_c);
        (KStr "fields", fields)]
       ++ match traceId with Some t => [(KStr "trace_id", Str t)] | None => [] end
       ++ match spanId with Some s => [(KStr "span_id", Str s)] | None => [] end).

(** A method that catches the exception: the result and the lines it
    passes to [error_log]. *)
Definition caught (what : string) (r : string + bool) : bool * list string :=
  match r with
  | inr b => (b, [])
  | inl msg => (false, [what +:+ msg])
  end.

(** [log($level, $message, $fields = [], $traceId = null, $spanId = null)] *)
Definition log (this : TelemetryClient) (level message : string) (fields : zval)
    (traceId spanId : option string) : bool * list string :=
  caught "Failed to send log to telemetry service: "
    (sendRequest this "/api/v1/logs" (log_entry this level message fields traceId spanId)).

(** The entry [logBatch] makes of one element of [$logs]. *)
Definition batch_entry (this : TelemetryClient) (log : list (key * zval)) : zval :=
  Arr [(KStr "service_name", Str (serviceName this));
       (KStr "level", coalesce (lookup_key "level" log) (Str "info"));
       (KStr "message", default Null (lookup_key "message" log));
       (KStr "timestamp", coalesce (lookup_key "timestamp" log) (Str date_c));
       (KStr "fields", coalesce (lookup_key "fields" log) (Arr []));
       (KStr "trace_id", coalesce (lookup_key "trace_id" log) Null);
       (KStr "span_id", coalesce (lookup_key "span_id" log) Null)].

(** [logBatch($logs)]; [array_map] keeps the keys of [$logs]. *)
Definition logBatch (this : TelemetryClient) (logs : list (key * list (key * zval)))
    : bool * list string :=
  caught "Failed to send log batch to telemetry service: "
    (sendRequest this "/api/v1/logs/batch"
       (Arr (map (fun kl => (fst kl, batch_entry this (snd kl))) logs))).

(** The array [recordMetric] builds; the value is a number, and
    [(float) $value] is it as a float. *)
Definition metric_entry (this : TelemetryClient) (metricName metricType : string)
    (value : Q) (labels : zval) : zval :=
  Arr [(KStr "service_name", Str (serviceName this));
       (KStr "metric_name", Str metricName);
       (KStr "metric_type", Str metricType);
       (KStr "value", Float value);
       (KStr "labels", labels)].

(** [recordMetric($metricName, $metricType, $value, $labels = [])] *)
Definition recordMetric (this : TelemetryClient) (metricName metricType : string)
    (value : Q) (labels : zval) : bool * list string :=
  caught "Failed to send metric to telemetry service: "
    (sendRequest this "/api/v1/metrics"
       (metric_entry this metricName metricType value labels)).

(** The convenience methods. *)
Definition debug this message fields := log this "debug" message fields None None.
Definition info this message fields := log this "info" message fields None None.
Definition warn this message fields := log this "warn" message fields None None.
Definition error this message fields := log this "error" message fields None None.
Definition fatal this message fields := log this "fatal" message fields None None.

Definition incrementCounter this metricName value labels :=
  recordMetric this metricName "counter" value labels.
Definition setGauge this metricName value labels :=
  recordMetric this metricName "gauge" value labels.
Definition recordHistogram this metricName value labels :=
  recordMetric this metricName "histogram" value labels.

End Client.

(** The default of the parameters [$fields] and [$labels]: the empty
    array. *)
Definition no_fields : zval := Arr [].

(** An array of labels: string keys and string values. *)
Definition labels_array (labels : list (string * string)) : zval :=
  Arr (map (fun kv => (KStr (fst kv), Str (snd kv))) labels).

End php.

(** ** Iteration orders are exactly the permutations *)

Module GoMapFacts.
Import GoMap.

Lemma insert_at_perm {A} (n : nat) (x : A) (l : list A) :
  insert_at n x l ≡ₚ x :: l.
Proof.
  revert n; induction l as [|y l IH]; intros [|n]; simpl; try done.
  rewrite IH. apply Permutation_swap.
Qed.

Lemma arrange_perm {A} (o : order) (l : list A) : arrange o l ≡ₚ l.
Proof.
  revert o; induction l as [|x l IH]; intros o; simpl; [done|].
  by rewrite insert_at_perm, IH.
Qed.

Lemma insert_at_app {A} (x : A) (l1 l2 : list A) :
  insert_at (length l1) x (l1 ++ l2) = l1 ++ x :: l2.
Proof. induction l1 as [|y l1 IH]; simpl; [by destruct l2|by rewrite IH]. Qed.

(** Every permutation of the entries is the result of some order. *)
Lemma arrange_complete {A} (l l' : list A) :
  l ≡ₚ l' → ∃ o, arrange o l = l'.
Proof.
  revert l'; induction l as [|x l IH]; intros l' Hp.
  - apply Permutation_nil_l in Hp as <-. by exists [].
  - assert (x ∈ l') as Hx by (rewrite <- Hp; apply list_elem_of_here).
    apply list_elem_of_split in Hx as (l1 & l2 & ->).
    apply Permutation_cons_app_inv in Hp.
    destruct (IH _ Hp) as [o Ho].
    exists (length l1 :: o). simpl. rewrite Ho. apply insert_at_app.
Qed.

Lemma arrange_length {A} (o : order) (l : list A) : length (arrange o l) = length l.
Proof. by rewrite arrange_perm. Qed.

Lemma arrange_short {A} (o : order) (l : list A) :
  (length l ≤ 1)%nat → arrange o l = l.
Proof.
  destruct l as [|x [|y l]]; simpl; intros Hl; try done; [|lia].
  by destruct (hd 0%nat o).
Qed.

Lemma range_perm {V} (o : order) (m : gmap string V) :
  range o m ≡ₚ map_to_list m.
Proof. apply arrange_perm. Qed.

Lemma range_length {V} (o : order) (m : gmap string V) :
  length (range o m) = size m.
Proof. unfold range. by rewrite arrange_length, length_map_to_list. Qed.

Lemma range_keys_NoDup {V} (o : order) (m : gmap string V) :
  NoDup (range o m).*1.
Proof. rewrite range_perm. apply NoDup_fst_map_to_list. Qed.

Lemma elem_of_range_keys {V} (o : order) (m : gmap string V) (k : string) :
  k ∈ (range o m).*1 ↔ is_Some (m !! k).
Proof.
  rewrite range_perm, list_elem_of_fmap. split.
  - intros ([k' v] & -> & Hin). apply elem_of_map_to_list in Hin. by exists v.
  - intros [v Hv]. exists (k, v). split; [done|]. by apply elem_of_map_to_list.
Qed.

Lemma range_small {V} (o : order) (m : gmap string V) :
  (size m ≤ 1)%nat → range o m = map_to_list m.
Proof. intros Hm. apply arrange_short. by rewrite length_map_to_list. Qed.

End GoMapFacts.
Import GoMapFacts.

(** ** Facts about the label lists *)

Lemma labelNames_length o labels :
  length (labelNames o labels) = S (size labels).
Proof. unfold labelNames. simpl. by rewrite length_fmap, range_length. Qed.

Lemma labelValues_length o labels :
  length (labelValues o labels) = S (size (delete "service_name" labels)).
Proof. unfold labelValues. simpl. by rewrite length_fmap, range_length. Qed.

Lemma labelNames_NoDup o labels :
  NoDup (labelNames o labels) ↔ labels !! "service_name" = None.
Proof.
  unfold labelNames. rewrite NoDup_cons, elem_of_range_keys.
  rewrite <- eq_None_not_Some. split; [tauto|].
  intros H; split; [done|apply range_keys_NoDup].
Qed.

Lemma folded_labels_service_name entry :
  folded_labels entry !! "service_name" = Some (me_ServiceName entry).
Proof. apply lookup_insert_eq. Qed.

(** ** Submissions routed through [RecordMetric] *)

Lemma labelNames_count_service_name o labels :
  is_Some (labels !! "service_name") →
  count_occ String.string_dec (labelNames o labels) "service_name" = 2%nat.
Proof.
  intros Hs. unfold labelNames. rewrite count_occ_cons_eq by done. f_equal.
  apply NoDup_count_occ'; [apply NoDup_ListNoDup, range_keys_NoDup|].
  apply list_elem_of_In, elem_of_range_keys, Hs.
Qed.

Lemma labelValues_length_folded o labels :
  is_Some (labels !! "service_name") →
  length (labelValues o labels) = size labels.
Proof.
  intros [v Hv]. rewrite labelValues_length.
  rewrite <- (insert_delete_id labels "service_name" v) at 2 by done.
  rewrite map_size_insert_None; [done|apply lookup_delete_eq].
Qed.

Lemma WithLabelValues_cardinality {V} (zero : V) lvs (v : Vec V) :
  length lvs ≠ length (label_names v) →
  WithLabelValues zero lvs v = inl "inconsistent label cardinality".
Proof. intros H. unfold WithLabelValues. by rewrite decide_False. Qed.

(** With [service_name] folded in, registration of the family panics before
    anything is stored. *)
Lemma RecordMetric_no_family o1 o2 entry w :
  no_custom_family w →
  snd (RecordMetric o1 o2 entry w) = w ∧
  (MetricType entry ∈ ["counter"; "gauge"; "histogram"] →
   fst (RecordMetric o1 o2 entry w) = Panic "duplicate label names").
Proof.
  intros (Hc & Hg & Hh).
  assert (¬ NoDup (labelNames o1 (folded_labels entry))) as Hdup.
  { rewrite labelNames_NoDup, folded_labels_service_name. done. }
  unfold RecordMetric.
  destruct (String.eqb_spec (MetricType entry) "counter") as [Ht|Ht1].
  { unfold RecordCustomCounter, bind, gets, promauto_NewVec, NewVec. simpl.
    rewrite Hc, lookup_empty, decide_False by done. done. }
  destruct (String.eqb_spec (MetricType entry) "gauge") as [Ht|Ht2].
  { unfold RecordCustomGauge, bind, gets, promauto_NewVec, NewVec. simpl.
    rewrite Hg, lookup_empty, decide_False by done. done. }
  destruct (String.eqb_spec (MetricType entry) "histogram") as [Ht|Ht3].
  { unfold RecordCustomHistogram, bind, gets, promauto_NewVec, NewVec. simpl.
    rewrite Hh, lookup_empty, decide_False by done. done. }
  split; [done|]. intros Hin.
  repeat (apply elem_of_cons in Hin as [?|Hin]; [congruence|]).
  by apply elem_of_nil in Hin.
Qed.

Lemma after_submissions_no_family subs : no_custom_family (after_submissions subs).
Proof.
  unfold after_submissions. induction subs as [|s subs IH] using rev_ind.
  - done.
  - rewrite foldl_snoc. unfold submit at 1.
    by rewrite (proj1 (RecordMetric_no_family _ _ _ _ IH)).
Qed.

(** C9. Every custom metric submission routed through [RecordMetric] has
    [service_name] inserted into its labels before the recorder of its kind
    runs.  The label names built for the family then contain
    ["service_name"] twice, and the label values built on the call are
    exactly one fewer than those label names, so their number never
    matches: [WithLabelValues] on a family with these names rejects them.
    After any history of submissions no custom family is stored, so every
    recording call builds the family's label names afresh. *)
Theorem RecordMetric_label_lists_never_match
    (subs : list submission) (entry : MetricEntry) (o1 o2 : GoMap.order) :
  let labels := folded_labels entry in
  let w := after_submissions subs in
  (* service_name is folded in before dispatch *)
  labels !! "service_name" = Some (me_ServiceName entry) ∧
  (MetricType entry = "counter" →
   RecordMetric o1 o2 entry
   = RecordCustomCounter o1 o2 (MetricName entry) labels (Value entry)) ∧
  (MetricType entry = "gauge" →
   RecordMetric o1 o2 entry
   = RecordCustomGauge o1 o2 (MetricName entry) labels (Value entry)) ∧
  (MetricType entry = "histogram" →
   RecordMetric o1 o2 entry
   = RecordCustomHistogram o1 o2 (MetricName entry) labels (Value entry)) ∧
  (* every recording call is a family creation *)
  CustomCounters (metrics w) !! MetricName entry = None ∧
  CustomGauges (metrics w) !! MetricName entry = None ∧
  CustomHistograms (metrics w) !! MetricName entry = None ∧
  (* the two lists *)
  count_occ String.string_dec (labelNames o1 labels) "service_name" = 2%nat ∧
  S (length (labelValues o2 labels)) = length (labelNames o1 labels) ∧
  length (labelValues o2 labels) ≠ length (labelNames o1 labels) ∧
  (∀ V (zero : V) (family : Vec V),
     label_names family = labelNames o1 labels →
     WithLabelValues zero (labelValues o2 labels) family
     = inl "inconsistent label cardinality").
Proof.
  intros labels w.
  assert (is_Some (labels !! "service_name")) as Hs.
  { eexists. apply folded_labels_service_name. }
  assert (S (length (labelValues o2 labels)) = length (labelNames o1 labels)) as Hlen.
  { by rewrite labelNames_length, labelValues_length_folded. }
  destruct (after_submissions_no_family subs) as (Hc & Hg & Hh). fold w in Hc, Hg, Hh.
  split; [apply folded_labels_service_name|].
  split; [intros Ht; unfold RecordMetric; by rewrite Ht|].
  split; [intros Ht; unfold RecordMetric; by rewrite Ht|].
  split; [intros Ht; unfold RecordMetric; by rewrite Ht|].
  split; [by rewrite Hc|]. split; [by rewrite Hg|]. split; [by rewrite Hh|].
  split; [by apply labelNames_count_service_name|].
  split; [done|]. split; [lia|].
  intros V zero family Hn. apply WithLabelValues_cardinality. rewrite Hn. lia.
Qed.

(** ** Running the monad *)

Lemma bind_Ret {S A B} (m : M S A) (k : A → M S B) s a s' :
  m s = (Ret a, s') → bind m k s = k a s'.
Proof. intros H. unfold bind. by rewrite H. Qed.

Lemma bind_Panic {S A B} (m : M S A) (k : A → M S B) s msg s' :
  m s = (Panic msg, s') → bind m k s = (Panic msg, s').
Proof. intros H. unfold bind. by rewrite H. Qed.

Lemma bind_Exit {S A B} (m : M S A) (k : A → M S B) s c s' :
  m s = (Exit c, s') → bind m k s = (Exit c, s').
Proof. intros H. unfold bind. by rewrite H. Qed.

(** One statement that returns, whatever the state. *)
Ltac step_ret := erewrite bind_Ret by reflexivity; cbv beta iota.

Lemma WithLabelValues_ok {V} (zero : V) lvs (v : Vec V) :
  length lvs = length (label_names v) →
  WithLabelValues zero lvs v = inr (ensure_child zero lvs v).
Proof. intros H. unfold WithLabelValues. by rewrite decide_True. Qed.

Lemma ensure_child_names {V} (zero : V) lvs (v : Vec V) :
  label_names (ensure_child zero lvs v) = label_names v.
Proof. unfold ensure_child. by destruct (children v !! lvs). Qed.

Lemma counter_Inc_ok get set lvs w :
  length lvs = length (label_names (get (metrics w))) →
  counter_Inc get set lvs w
  = (Ret tt, set_metrics (set (Inc lvs (ensure_child 0%Q lvs (get (metrics w))))) w).
Proof.
  intros H. unfold counter_Inc.
  step_ret.
  erewrite bind_Ret by (rewrite WithLabelValues_ok by done; reflexivity).
  reflexivity.
Qed.

Lemma recordHTTPMetrics_ok method endpoint status duration w :
  builtin_wf (metrics w) →
  recordHTTPMetrics method endpoint status duration w
  = (Ret tt, http_recorded method endpoint status duration w).
Proof.
  intros (Ht & Hd & _). unfold recordHTTPMetrics.
  step_ret.
  erewrite bind_Ret by (rewrite WithLabelValues_ok by (by rewrite Hd); reflexivity).
  step_ret.
  rewrite counter_Inc_ok by (simpl; by rewrite Ht).
  reflexivity.
Qed.

Lemma builtin_wf_InitMetrics : builtin_wf InitMetrics.
Proof. by repeat split. Qed.

(** ** Samples of a vector *)

Lemma Add_ok value lvs (c : CounterVec) :
  (0 <= value)%Q → Add value lvs c = inr (update (fun y => y + value)%Q lvs c).
Proof. intros Hv. unfold Add. apply Qle_bool_iff in Hv. by rewrite Hv. Qed.

Lemma Add_negative value lvs (c : CounterVec) :
  (value < 0)%Q → Add value lvs c = inl "counter cannot decrease in value".
Proof.
  intros Hv. unfold Add. destruct (Qle_bool 0 value) eqn:Hb; [|done].
  apply Qle_bool_iff in Hb. by apply Qlt_not_le in Hv.
Qed.

Lemma sample_ensure_child {V} (zero : V) lvs lvs' (c : Vec V) x :
  sample c lvs' = Some x → sample (ensure_child zero lvs c) lvs' = Some x.
Proof.
  unfold sample, ensure_child. intros Hx.
  destruct (children c !! lvs) eqn:Hl; [done|]. simpl.
  rewrite lookup_insert_ne; [done|]. intros ->. congruence.
Qed.

Lemma sample_ensure_child_eq {V} (zero : V) lvs (c : Vec V) :
  sample (ensure_child zero lvs c) lvs = Some (default zero (sample c lvs)).
Proof.
  unfold sample, ensure_child.
  destruct (children c !! lvs) eqn:Hl; simpl; [done|]. apply lookup_insert_eq.
Qed.

Lemma snapshot_with_counter name c w n lvs :
  snapshot_counter (with_counter name c w) n lvs
  = if decide (name = n) then sample c lvs else snapshot_counter w n lvs.
Proof.
  unfold snapshot_counter, with_counter. simpl.
  rewrite lookup_insert. by destruct (decide (name = n)).
Qed.

(** ** Sums of counter samples *)

Lemma total_delete (m : gmap (list string) Q) k x :
  m !! k = Some x →
  (map_fold (fun _ x acc => x + acc) 0 m
   == x + map_fold (fun _ x acc => x + acc) 0 (delete k m))%Q.
Proof.
  intros Hk.
  apply (map_fold_delete Qeq (fun _ x acc => x + acc)%Q 0%Q k x m); [| |done].
  - intros _ z a b Hab. by rewrite Hab.
  - intros. ring.
Qed.

Lemma total_update f lvs (v : CounterVec) x :
  sample v lvs = Some x → (total (update f lvs v) == total v + (f x - x))%Q.
Proof.
  intros Hx. unfold total, update, sample in *. simpl.
  rewrite (total_delete (alter f lvs (children v)) lvs (f x))
    by (by rewrite lookup_alter_eq, Hx).
  rewrite (total_delete (children v) lvs x) by done.
  rewrite delete_alter_eq. ring.
Qed.

Lemma total_ensure_child lvs (v : CounterVec) :
  (total (ensure_child 0 lvs v) == total v)%Q.
Proof.
  unfold ensure_child. destruct (children v !! lvs) eqn:Hl; [reflexivity|].
  unfold total. simpl.
  rewrite (total_delete (<[lvs:=0%Q]> (children v)) lvs 0%Q) by apply lookup_insert_eq.
  rewrite delete_insert_id by done. ring.
Qed.

Lemma total_Inc lvs (v : CounterVec) :
  (total (Inc lvs (ensure_child 0 lvs v)) == total v + 1)%Q.
Proof.
  unfold Inc. rewrite (total_update _ _ _ _ (sample_ensure_child_eq 0%Q lvs v)).
  rewrite total_ensure_child. ring.
Qed.

(** ** The log normaliser *)

Lemma ParseLogEntry_decoded
    (json_LogEntry : string → string + LogEntry) now data decoded :
  json_LogEntry data = inr decoded →
  ParseLogEntry json_LogEntry now data
  = (Some (if IsZero (Timestamp decoded) then set_Timestamp now decoded else decoded),
     None).
Proof. intros Hd. unfold ParseLogEntry. by rewrite Hd. Qed.

(** C8. For every raw log submission that parses, the produced entry's
    timestamp is the wall-clock instant [now] of the normaliser when the
    decoded timestamp is absent or zero-valued, and the supplied timestamp
    otherwise; the other fields are the decoded ones. *)
Theorem ParseLogEntry_timestamp_default
    (json_LogEntry : string → string + LogEntry) (now : Time) (data : string)
    (decoded : LogEntry) :
  json_LogEntry data = inr decoded →
  ∃ entry,
    ParseLogEntry json_LogEntry now data = (Some entry, None) ∧
    (IsZero (Timestamp decoded) = true → Timestamp entry = now) ∧
    (IsZero (Timestamp decoded) = false → Timestamp entry = Timestamp decoded) ∧
    ServiceName entry = ServiceName decoded ∧ Level entry = Level decoded ∧
    Message entry = Message decoded ∧ Fields entry = Fields decoded ∧
    TraceID entry = TraceID decoded ∧ SpanID entry = SpanID decoded.
Proof.
  intros Hd. rewrite (ParseLogEntry_decoded _ _ _ _ Hd).
  destruct (IsZero (Timestamp decoded)) eqn:Hz.
  - exists (set_Timestamp now decoded). by repeat split.
  - exists decoded. by repeat split.
Qed.

Lemma ParseLogEntry_timestamp_default_witness :
  ∃ entry,
    ParseLogEntry sample_json_LogEntry sample_now "{}" = (Some entry, None) ∧
    (IsZero (Timestamp zero_LogEntry) = true → Timestamp entry = sample_now) ∧
    (IsZero (Timestamp zero_LogEntry) = false → Timestamp entry = Timestamp zero_LogEntry) ∧
    ServiceName entry = ServiceName zero_LogEntry ∧ Level entry = Level zero_LogEntry ∧
    Message entry = Message zero_LogEntry ∧ Fields entry = Fields zero_LogEntry ∧
    TraceID entry = TraceID zero_LogEntry ∧ SpanID entry = SpanID zero_LogEntry.
Proof.
  apply (ParseLogEntry_timestamp_default sample_json_LogEntry sample_now "{}" zero_LogEntry).
  reflexivity.
Defined.

Lemma ParseLogEntry_error_nil
    (json_LogEntry : string → string + LogEntry) now data entry err :
  ParseLogEntry json_LogEntry now data = (entry, Some err) → entry = None.
Proof.
  unfold ParseLogEntry. destruct (json_LogEntry data); intros H; by simplify_eq.
Qed.

(** ** The single-log handler *)

(** C10. For every single-log submission whose body fails to parse,
    [ParseLogEntry] returns a nil entry with the error, and the error branch
    of [LogHandler] reads [entry.ServiceName] through it: after the 400
    response and the HTTP metrics, the handler panics with a nil pointer
    dereference and the error counter is not incremented. *)
Theorem LogHandler_parse_error_nil_dereference
    (json_LogEntry : string → string + LogEntry) (o : GoMap.order) (now : Time)
    (elapsed : Q) (data err : string) (w : World) :
  builtin_wf (metrics w) →
  json_LogEntry data = inl err →
  ParseLogEntry json_LogEntry now data
  = (None, Some ("failed to parse log entry: " +:+ err)) ∧
  (∀ now' data' entry err',
     ParseLogEntry json_LogEntry now' data' = (entry, Some err') → entry = None) ∧
  let w' :=
    InFlight_Dec
      (http_recorded "POST" "/api/v1/logs" 400 elapsed
         (add_response
            (mkResponse 400
               [("status", JStr "error");
                ("error", JStr ("Failed to parse log entry: "
                                +:+ ("failed to parse log entry: " +:+ err)))])
            (InFlight_Inc w))) in
  LogHandler json_LogEntry o now elapsed (mkRequest "POST" (Some data)) w
  = (Panic "runtime error: invalid memory address or nil pointer dereference", w') ∧
  LogsErrors (metrics w') = LogsErrors (metrics w).
Proof.
  intros Hwf Hd.
  assert (ParseLogEntry json_LogEntry now data
          = (None, Some ("failed to parse log entry: " +:+ err))) as Hp.
  { unfold ParseLogEntry. by rewrite Hd. }
  split; [done|]. split; [intros; by eapply ParseLogEntry_error_nil|].
  split; [|done].
  unfold LogHandler. step_ret.
  unfold defer. simpl. rewrite Hp.
  step_ret.
  erewrite bind_Ret by (by apply recordHTTPMetrics_ok).
  reflexivity.
Qed.

Lemma LogHandler_parse_error_nil_dereference_witness :
  ParseLogEntry sample_json_LogEntry sample_now "{"
  = (None, Some ("failed to parse log entry: " +:+ "unexpected end of JSON input")) ∧
  (∀ now' data' entry err',
     ParseLogEntry sample_json_LogEntry now' data' = (entry, Some err') → entry = None) ∧
  let w' :=
    InFlight_Dec
      (http_recorded "POST" "/api/v1/logs" 400 (1 # 100)
         (add_response
            (mkResponse 400
               [("status", JStr "error");
                ("error", JStr ("Failed to parse log entry: "
                                +:+ ("failed to parse log entry: "
                                     +:+ "unexpected end of JSON input")))])
            (InFlight_Inc init_world))) in
  LogHandler sample_json_LogEntry [] sample_now (1 # 100) (mkRequest "POST" (Some "{"))
    init_world
  = (Panic "runtime error: invalid memory address or nil pointer dereference", w') ∧
  LogsErrors (metrics w') = LogsErrors (metrics init_world).
Proof.
  apply (LogHandler_parse_error_nil_dereference sample_json_LogEntry [] sample_now (1 # 100)
           "{" "unexpected end of JSON input" init_world).
  - apply builtin_wf_InitMetrics.
  - reflexivity.
Defined.

(** ** The log router *)

Lemma zap_write_enabled l msg fields w :
  l ≠ DebugLevel →
  zap_write l msg fields w = (Ret tt, add_line (mkLine l msg fields) w).
Proof. intros Hl. unfold zap_write, modify. by destruct l. Qed.

Lemma LogFromService_fatal o entry w :
  Level entry = "fatal" →
  LogFromService o entry w
  = (Exit 1, add_line (mkLine FatalLevel (Message entry) (entry_fields o entry)) w).
Proof.
  intros Hl. unfold LogFromService. rewrite Hl. simpl.
  unfold zap_Fatal. apply bind_Exit.
  erewrite bind_Ret by (by apply zap_write_enabled). reflexivity.
Qed.

Lemma LogFromService_panic o entry w :
  Level entry = "panic" →
  LogFromService o entry w
  = (Panic (Message entry),
     add_line (mkLine PanicLevel (Message entry) (entry_fields o entry)) w).
Proof.
  intros Hl. unfold LogFromService. rewrite Hl. simpl.
  unfold zap_Panic. apply bind_Panic.
  erewrite bind_Ret by (by apply zap_write_enabled). reflexivity.
Qed.

(** Every other level is written at the level [getLogLevel] resolves it to
    (when the logger's level enables it) and the call returns nil. *)
Lemma LogFromService_returns o entry w :
  Level entry ≠ "fatal" → Level entry ≠ "panic" →
  LogFromService o entry w
  = (Ret None,
     if Enabled logger_level (getLogLevel (Level entry))
     then add_line (mkLine (getLogLevel (Level entry)) (Message entry)
                      (entry_fields o entry)) w
     else w).
Proof.
  intros Hf Hp. unfold LogFromService, getLogLevel.
  apply String.eqb_neq in Hf, Hp. rewrite Hf, Hp.
  destruct (String.eqb (Level entry) "debug"); [done|].
  destruct (String.eqb (Level entry) "info"); [done|].
  destruct (String.eqb (Level entry) "warn" || String.eqb (Level entry) "warning"); [done|].
  destruct (String.eqb (Level entry) "error"); done.
Qed.

(** The other levels: the entry is counted as received, logged, counted as
    processed and answered with a success, and the handler returns. *)
Lemma LogHandler_other_levels
    (json_LogEntry : string → string + LogEntry) o now elapsed data decoded w :
  builtin_wf (metrics w) →
  json_LogEntry data = inr decoded →
  Level decoded ≠ "fatal" → Level decoded ≠ "panic" →
  let r := LogHandler json_LogEntry o now elapsed (mkRequest "POST" (Some data)) w in
  fst r = Ret tt ∧
  (total (LogsReceived (metrics (snd r))) == total (LogsReceived (metrics w)) + 1)%Q ∧
  (total (LogsProcessed (metrics (snd r))) == total (LogsProcessed (metrics w)) + 1)%Q ∧
  written (snd r)
  = mkResponse 200 [("status", JStr "success");
                    ("message", JStr "Log entry processed successfully")]
    :: written w.
Proof.
  intros (Ht & Hd & Hr & Hp & He) Hdec Hf Hpn r. subst r.
  pose proof (ParseLogEntry_decoded json_LogEntry now data decoded Hdec) as Hparse.
  set (entry := if IsZero (Timestamp decoded) then set_Timestamp now decoded
                else decoded) in Hparse.
  assert (Level entry = Level decoded) as Hlvl.
  { subst entry. by destruct (IsZero (Timestamp decoded)). }
  unfold LogHandler. step_ret.
  unfold defer. cbn [Method Body String.eqb Ascii.eqb Bool.eqb negb].
  rewrite Hparse. cbv beta iota.
  step_ret.
  erewrite bind_Ret by (apply counter_Inc_ok; simpl; by rewrite Hr).
  erewrite bind_Ret by (apply LogFromService_returns; by rewrite Hlvl).
  cbv beta iota.
  assert (∀ w0 : World, label_names (LogsProcessed (metrics w0)) = ["service_name"; "level"] →
            label_names (LogsProcessed
              (metrics (if Enabled logger_level (getLogLevel (Level entry))
                        then add_line (mkLine (getLogLevel (Level entry)) (Message entry)
                                         (entry_fields o entry)) w0
                        else w0))) = ["service_name"; "level"]) as Hsame.
  { intros w0 H0. by destruct (Enabled _ _). }
  erewrite bind_Ret by (apply counter_Inc_ok; rewrite Hsame; [done|simpl; done]).
  step_ret.
  rewrite recordHTTPMetrics_ok; cycle 1.
  { destruct (Enabled _ _); repeat split; simpl; rewrite ?ensure_child_names; done. }
  destruct (Enabled _ _); simpl; rewrite !total_Inc; done.
Qed.

(** C3 fails on the code for the level [fatal].  A single-log submission
    of that level is written to the sink at [FatalLevel] and then ends the
    process: [LogHandler] stops in [os.Exit(1)] before the processed counter
    is incremented and before any response is written, where every other
    level is processed and answered ([LogHandler_other_levels]). *)
Theorem LogHandler_fatal_entry_exits
    (json_LogEntry : string → string + LogEntry) (o : GoMap.order) (now : Time)
    (elapsed : Q) (data : string) (decoded : LogEntry) (w : World) :
  builtin_wf (metrics w) →
  json_LogEntry data = inr decoded →
  Level decoded = "fatal" →
  ∃ entry w',
    ParseLogEntry json_LogEntry now data = (Some entry, None) ∧
    LogFromService o entry w
    = (Exit 1, add_line (mkLine FatalLevel (Message entry) (entry_fields o entry)) w) ∧
    LogHandler json_LogEntry o now elapsed (mkRequest "POST" (Some data)) w
    = (Exit 1, w') ∧
    sink w' = mkLine FatalLevel (Message entry) (entry_fields o entry) :: sink w ∧
    LogsProcessed (metrics w') = LogsProcessed (metrics w) ∧
    written w' = written w.
Proof.
  intros (_ & _ & Hr & _) Hd Hl.
  pose proof (ParseLogEntry_decoded json_LogEntry now data decoded Hd) as Hp.
  set (entry := if IsZero (Timestamp decoded) then set_Timestamp now decoded
                else decoded) in Hp.
  assert (Level entry = "fatal") as Hlvl.
  { subst entry. by destruct (IsZero (Timestamp decoded)). }
  eexists entry, _. split; [done|]. split; [by apply LogFromService_fatal|].
  split.
  - unfold LogHandler. step_ret.
    unfold defer. simpl. rewrite Hp.
    step_ret.
    erewrite bind_Ret by (apply counter_Inc_ok; simpl; by rewrite Hr).
    erewrite bind_Exit by (by apply LogFromService_fatal).
    reflexivity.
  - by repeat split.
Qed.

Lemma LogHandler_fatal_entry_exits_witness :
  ∃ entry w',
    ParseLogEntry sample_json_LogEntry sample_now
      fatal_body = (Some entry, None) ∧
    LogFromService [] entry init_world
    = (Exit 1, add_line (mkLine FatalLevel (Message entry) (entry_fields [] entry))
                 init_world) ∧
    LogHandler sample_json_LogEntry [] sample_now (1 # 100)
      (mkRequest "POST" (Some fatal_body)) init_world
    = (Exit 1, w') ∧
    sink w' = mkLine FatalLevel (Message entry) (entry_fields [] entry) :: sink init_world ∧
    LogsProcessed (metrics w') = LogsProcessed (metrics init_world) ∧
    written w' = written init_world.
Proof.
  apply (LogHandler_fatal_entry_exits sample_json_LogEntry [] sample_now (1 # 100)
           fatal_body fatal_LogEntry init_world).
  - apply builtin_wf_InitMetrics.
  - reflexivity.
  - reflexivity.
Defined.

(** ** The metric handler and unknown kinds *)

Lemma RecordMetric_unknown_kind o1 o2 entry w :
  MetricType entry ∉ ["counter"; "gauge"; "histogram"] →
  RecordMetric o1 o2 entry w = (Ret tt, w).
Proof.
  intros Hk. unfold RecordMetric.
  destruct (String.eqb_spec (MetricType entry) "counter") as [Ht|_].
  { exfalso. apply Hk. rewrite Ht. set_solver. }
  destruct (String.eqb_spec (MetricType entry) "gauge") as [Ht|_].
  { exfalso. apply Hk. rewrite Ht. set_solver. }
  destruct (String.eqb_spec (MetricType entry) "histogram") as [Ht|_].
  { exfalso. apply Hk. rewrite Ht. set_solver. }
  reflexivity.
Qed.

(** C7 as stated fails: a submission whose [metric_type] is the empty
    string (the body [{}]) is answered with status 200 and
    ["status": "success"], not with an error. *)
Lemma MetricsHandler_unknown_kind_counterexample :
  (MetricType zero_MetricEntry ∉ ["counter"; "gauge"; "histogram"]) ∧
  sample_json_MetricEntry "{}" = inr zero_MetricEntry ∧
  fst (MetricsHandler sample_json_MetricEntry [] [] (1 # 100)
         (mkRequest "POST" (Some "{}")) init_world) = Ret tt ∧
  written (snd (MetricsHandler sample_json_MetricEntry [] [] (1 # 100)
                  (mkRequest "POST" (Some "{}")) init_world))
  = [mkResponse 200 [("status", JStr "success");
                     ("message", JStr "Metric recorded successfully")]].
Proof.
  split; [|split; [reflexivity|split; vm_compute; reflexivity]].
  intros Hin.
  repeat (apply elem_of_cons in Hin as [Hin|Hin]; [discriminate Hin|]).
  by apply elem_of_nil in Hin.
Qed.

(** C7 (amended). A metric submission whose [metric_type] is not counter,
    gauge or histogram is ignored: [RecordMetric] returns without touching
    the state, and [MetricsHandler] answers 200 with ["status": "success"];
    no custom family and no registration changes, only the handler's own
    HTTP metrics are recorded. *)
Theorem MetricsHandler_unknown_kind_ignored
    (json_MetricEntry : string → string + MetricEntry) (o1 o2 : GoMap.order)
    (elapsed : Q) (data : string) (entry : MetricEntry) (w : World) :
  builtin_wf (metrics w) →
  json_MetricEntry data = inr entry →
  MetricType entry ∉ ["counter"; "gauge"; "histogram"] →
  RecordMetric o1 o2 entry w = (Ret tt, w) ∧
  let w' :=
    InFlight_Dec
      (http_recorded "POST" "/api/v1/metrics" 200 elapsed
         (add_response
            (mkResponse 200 [("status", JStr "success");
                             ("message", JStr "Metric recorded successfully")])
            (InFlight_Inc w))) in
  MetricsHandler json_MetricEntry o1 o2 elapsed (mkRequest "POST" (Some data)) w
  = (Ret tt, w') ∧
  CustomCounters (metrics w') = CustomCounters (metrics w) ∧
  CustomGauges (metrics w') = CustomGauges (metrics w) ∧
  CustomHistograms (metrics w') = CustomHistograms (metrics w) ∧
  reg w' = reg w.
Proof.
  intros Hwf Hd Hk. split; [by apply RecordMetric_unknown_kind|].
  split; [|done].
  unfold MetricsHandler. step_ret.
  unfold defer, Decode_MetricEntry. simpl. rewrite Hd.
  erewrite bind_Ret by (by apply RecordMetric_unknown_kind).
  step_ret.
  rewrite recordHTTPMetrics_ok by done.
  reflexivity.
Qed.

Lemma MetricsHandler_unknown_kind_ignored_witness :
  RecordMetric [] [] zero_MetricEntry init_world = (Ret tt, init_world) ∧
  let w' :=
    InFlight_Dec
      (http_recorded "POST" "/api/v1/metrics" 200 (1 # 100)
         (add_response
            (mkResponse 200 [("status", JStr "success");
                             ("message", JStr "Metric recorded successfully")])
            (InFlight_Inc init_world))) in
  MetricsHandler sample_json_MetricEntry [] [] (1 # 100) (mkRequest "POST" (Some "{}"))
    init_world = (Ret tt, w') ∧
  CustomCounters (metrics w') = CustomCounters (metrics init_world) ∧
  CustomGauges (metrics w') = CustomGauges (metrics init_world) ∧
  CustomHistograms (metrics w') = CustomHistograms (metrics init_world) ∧
  reg w' = reg init_world.
Proof.
  apply (MetricsHandler_unknown_kind_ignored sample_json_MetricEntry [] [] (1 # 100)
           "{}" zero_MetricEntry init_world).
  - apply builtin_wf_InitMetrics.
  - reflexivity.
  - intros Hin.
    repeat (apply elem_of_cons in Hin as [Hin|Hin]; [discriminate Hin|]).
    by apply elem_of_nil in Hin.
Defined.

(** ** The counter recorder, case by case *)

Lemma RecordCustomCounter_existing o1 o2 name labels value w c :
  CustomCounters (metrics w) !! name = Some c →
  RecordCustomCounter o1 o2 name labels value w
  = match WithLabelValues 0%Q (labelValues o2 labels) c with
    | inl msg => (Panic msg, w)
    | inr c1 =>
        match Add value (labelValues o2 labels) c1 with
        | inl msg => (Panic msg, with_counter name c1 w)
        | inr c2 => (Ret tt, with_counter name c2 (with_counter name c1 w))
        end
    end.
Proof.
  intros Hc. unfold RecordCustomCounter.
  step_ret. simpl. rewrite Hc.
  step_ret.
  destruct (WithLabelValues _ _ c) as [msg|c1]; [done|].
  step_ret.
  step_ret.
  destruct (Add value _ c1) as [msg|c2]; done.
Qed.

Lemma RecordCustomCounter_absent o1 o2 name labels value w :
  CustomCounters (metrics w) !! name = None →
  RecordCustomCounter o1 o2 name labels value w
  = match NewVec (reg w) ("custom_" +:+ name) (labelNames o1 labels) with
    | inl msg => (Panic msg, w)
    | inr (c, r) =>
        RecordCustomCounter o1 o2 name labels value (with_counter name c (set_reg r w))
    end.
Proof.
  intros Hc. unfold RecordCustomCounter at 1.
  step_ret. simpl. rewrite Hc.
  unfold promauto_NewVec at 1.
  destruct (NewVec (reg w) _ _) as [msg|[c r]] eqn:Hn.
  { unfold bind. by rewrite Hn. }
  erewrite (bind_Ret (bind _ _)); cycle 1.
  { unfold bind at 1. rewrite Hn. unfold store_counter, bind, modify, ret. reflexivity. }
  symmetry. erewrite RecordCustomCounter_existing by apply lookup_insert_eq.
  destruct (WithLabelValues _ _ c) as [msg|c1]; [done|].
  step_ret.
  step_ret.
  destruct (Add value _ c1) as [msg|c2]; done.
Qed.

(** ** Later submissions to an existing family *)

(** C1 as stated fails: after [x] was created with the label key [a], a
    submission for [x] with the label key [b] instead is not rejected; it
    returns normally and is added to the sample recorded under [a = 1],
    which goes from 5 to 7. *)
Lemma RecordCustomCounter_schema_mismatch_counterexample :
  let w1 := snd (RecordCustomCounter [] [] "x" {["a" := "1"]} 5 init_world) in
  let r := RecordCustomCounter [] [] "x" {["b" := "1"]} 2 w1 in
  (label_names <$> CustomCounters (metrics w1) !! "x") = Some ["service_name"; "a"] ∧
  snapshot_counter w1 "x" [""; "1"] = Some (5 # 1) ∧
  dom ({["b" := "1"]} : gmap string string) ≠ dom ({["a" := "1"]} : gmap string string) ∧
  fst r = Ret tt ∧
  (label_names <$> CustomCounters (metrics (snd r)) !! "x") = Some ["service_name"; "a"] ∧
  snapshot_counter (snd r) "x" [""; "1"] = Some (7 # 1).
Proof.
  cbv zeta. split; [vm_compute; reflexivity|]. split; [vm_compute; reflexivity|].
  split.
  { rewrite !dom_singleton_L. intros H.
    assert ("b" ∈ ({["a"]} : gset string)) as Hb by (rewrite <- H; set_solver).
    apply elem_of_singleton in Hb. discriminate Hb. }
  split; [vm_compute; reflexivity|]. split; vm_compute; reflexivity.
Qed.

(** C1 (amended). For a family that exists, a later submission under the
    same name never changes the stored label names; when the number of
    label values it supplies differs from the number of stored label names
    the call panics and leaves the whole state, hence every recorded value,
    unchanged; when the numbers agree and the value is not negative the
    call returns normally, whatever the label keys are, and adds the value
    to the sample at the supplied values. *)
Theorem RecordCustomCounter_existing_family
    (o1 o2 : GoMap.order) (name : string) (labels : gmap string string)
    (value : Q) (w : World) (c : CounterVec) :
  CustomCounters (metrics w) !! name = Some c →
  let lvs := labelValues o2 labels in
  let r := RecordCustomCounter o1 o2 name labels value w in
  (∃ c', CustomCounters (metrics (snd r)) !! name = Some c' ∧
         label_names c' = label_names c) ∧
  (length lvs ≠ length (label_names c) →
   r = (Panic "inconsistent label cardinality", w)) ∧
  (length lvs = length (label_names c) → (0 <= value)%Q →
   fst r = Ret tt ∧
   snapshot_counter (snd r) name lvs = Some (default 0 (sample c lvs) + value)%Q).
Proof.
  intros Hc lvs r. subst r. rewrite (RecordCustomCounter_existing _ _ _ _ _ _ c Hc).
  fold lvs. unfold WithLabelValues.
  destruct (decide (length lvs = length (label_names c))) as [Hlen|Hlen].
  - split; [|split; [done|]].
    + destruct (Add value lvs _) as [msg|c2] eqn:Ha; simpl.
      * rewrite lookup_insert_eq. eexists; split; [done|]. apply ensure_child_names.
      * rewrite lookup_insert_eq. eexists; split; [done|].
        unfold Add in Ha. destruct (Qle_bool 0 value); simplify_eq. simpl.
        apply ensure_child_names.
    + intros _ Hv. rewrite Add_ok by done. simpl. split; [done|].
      rewrite snapshot_with_counter, decide_True by done.
      unfold sample, update. simpl. rewrite lookup_alter_eq.
      fold (sample (ensure_child 0%Q lvs c) lvs). by rewrite sample_ensure_child_eq.
  - split; [|split; [done|intros; done]]. simpl. by exists c.
Qed.

Lemma RecordCustomCounter_existing_family_witness :
  let w1 := snd (RecordCustomCounter [] [] "x" {["a" := "1"]} 5 init_world) in
  let c := mkVec ["service_name"; "a"] {[ [""; "1"] := (5 # 1)%Q ]} in
  let lvs := labelValues [] {["a" := "1"; "b" := "2"]} in
  let r := RecordCustomCounter [] [] "x" {["a" := "1"; "b" := "2"]} 2 w1 in
  (∃ c', CustomCounters (metrics (snd r)) !! "x" = Some c' ∧
         label_names c' = label_names c) ∧
  (length lvs ≠ length (label_names c) →
   r = (Panic "inconsistent label cardinality", w1)) ∧
  (length lvs = length (label_names c) → (0 <= 2)%Q →
   fst r = Ret tt ∧
   snapshot_counter (snd r) "x" lvs = Some (default 0 (sample c lvs) + 2)%Q).
Proof.
  apply (RecordCustomCounter_existing_family [] [] "x" {["a" := "1"; "b" := "2"]} 2
           (snd (RecordCustomCounter [] [] "x" {["a" := "1"]} 5 init_world))
           (mkVec ["service_name"; "a"] {[ [""; "1"] := (5 # 1)%Q ]})).
  vm_compute. reflexivity.
Defined.

(** ** What one call of the counter recorder can change *)


Lemma NewVec_names {V} (r r' : Registry) fqName names (c : Vec V) :
  NewVec r fqName names = inr (c, r') → c = mkVec names ∅.
Proof.
  unfold NewVec. destruct (decide (NoDup names)); [|done].
  destruct (decide (fqName ∈ r)); [done|]. by intros [= <- <-].
Qed.

Lemma extends_ensure_child kept lvs (c : CounterVec) :
  extends kept lvs c (ensure_child 0%Q lvs c).
Proof. split; [apply ensure_child_names|]. intros. by apply sample_ensure_child. Qed.

Lemma extends_update f lvs (c : CounterVec) :
  extends False lvs c (update f lvs (ensure_child 0%Q lvs c)).
Proof.
  split; [apply ensure_child_names|]. intros lvs' x Hx [Hne|[]].
  unfold sample, update. simpl. rewrite lookup_alter_ne by done.
  by apply sample_ensure_child.
Qed.

Lemma RecordCustomCounter_effect o1 o2 name labels value w :
  let r := RecordCustomCounter o1 o2 name labels value w in
  let kept := ∃ msg, fst r = Panic msg in
  (* everything but the counter families and the registry is untouched *)
  (CustomGauges (metrics (snd r)) = CustomGauges (metrics w) ∧
   CustomHistograms (metrics (snd r)) = CustomHistograms (metrics w) ∧
   HTTPRequestsTotal (metrics (snd r)) = HTTPRequestsTotal (metrics w) ∧
   HTTPRequestDuration (metrics (snd r)) = HTTPRequestDuration (metrics w) ∧
   HTTPRequestsInFlight (metrics (snd r)) = HTTPRequestsInFlight (metrics w) ∧
   LogsReceived (metrics (snd r)) = LogsReceived (metrics w) ∧
   LogsProcessed (metrics (snd r)) = LogsProcessed (metrics w) ∧
   LogsErrors (metrics (snd r)) = LogsErrors (metrics w) ∧
   LogBatchSize (metrics (snd r)) = LogBatchSize (metrics w) ∧
   sink (snd r) = sink w ∧ written (snd r) = written w) ∧
  (* the counter families: nothing changes, or the family of [name] is
     replaced by an extension of the one the call works on *)
  (CustomCounters (metrics (snd r)) = CustomCounters (metrics w) ∨
   ∃ c', CustomCounters (metrics (snd r))
         = <[name := c']> (CustomCounters (metrics w)) ∧
         extends kept (labelValues o2 labels) (base_family o1 name labels w) c').
Proof.
  intros r kept. subst r kept. unfold base_family.
  destruct (CustomCounters (metrics w) !! name) as [c|] eqn:Hc.
  - rewrite (RecordCustomCounter_existing _ _ _ _ _ _ c Hc). simpl.
    unfold WithLabelValues. case_decide; [|by split; [|left]].
    destruct (Add value _ _) as [msg|c2] eqn:Ha; simpl.
    + split; [done|]. right. eexists. split; [done|]. apply extends_ensure_child.
    + split; [done|]. right. eexists. split; [by rewrite insert_insert_eq|].
      unfold Add in Ha. destruct (Qle_bool 0 value); simplify_eq.
      destruct (extends_update (fun y => (y + value)%Q) (labelValues o2 labels) c)
        as [Hn Hs].
      split; [done|]. intros lvs' x Hx [Hne|[msg Hmsg]]; [by apply Hs; [|left]|done].
  - rewrite (RecordCustomCounter_absent _ _ _ _ _ _ Hc). simpl.
    destruct (NewVec (reg w) _ _) as [msg|[c0 r0]] eqn:Hn; [by split; [|left]|].
    apply NewVec_names in Hn as ->.
    erewrite RecordCustomCounter_existing by apply lookup_insert_eq.
    unfold WithLabelValues. case_decide; simpl.
    2:{ split; [done|]. right. eexists. split; [done|]. split; [done|].
        intros lvs' x Hx. unfold sample in Hx. simpl in Hx.
        by rewrite lookup_empty in Hx. }
    destruct (Add value _ _) as [msg|c2] eqn:Ha; simpl.
    + split; [done|]. right. eexists. split; [by rewrite insert_insert_eq|].
      apply extends_ensure_child.
    + split; [done|]. right. eexists. split; [by rewrite !insert_insert_eq|].
      unfold Add in Ha. destruct (Qle_bool 0 value); simplify_eq.
      destruct (extends_update (fun y => (y + value)%Q) (labelValues o2 labels)
                  (mkVec (labelNames o1 labels) ∅)) as [Hn Hs].
      split; [done|]. intros lvs' x Hx [Hne|[msg Hmsg]]; [by apply Hs; [|left]|done].
Qed.

(** The label names of a stored family survive every later call, whatever
    its name, labels and value. *)
Lemma RecordCustomCounter_keeps_names o1 o2 name' labels value w name c :
  CustomCounters (metrics w) !! name = Some c →
  ∃ c', CustomCounters (metrics (snd (RecordCustomCounter o1 o2 name' labels value w)))
        !! name = Some c' ∧
        label_names c' = label_names c.
Proof.
  intros Hc.
  destruct (RecordCustomCounter_effect o1 o2 name' labels value w)
    as [_ [Heq|(c' & Heq & Hn & _)]]; rewrite Heq.
  - by exists c.
  - destruct (decide (name' = name)) as [->|Hne].
    + exists c'. rewrite lookup_insert_eq. split; [done|].
      unfold base_family in Hn. by rewrite Hc in Hn.
    + exists c. by rewrite lookup_insert_ne.
Qed.


(** ** The first submission of a name *)

Lemma labelValues_no_service_name o labels :
  labels !! "service_name" = None →
  labelValues o labels = "" :: (GoMap.range o labels).*2.
Proof. intros H. unfold labelValues. by rewrite H, delete_id. Qed.


(** The two loops need not agree: with the labels [a = 1] and [b = 2], a
    first call whose second loop visits [b] before [a] stores the schema
    [service_name; a; b] and the sample for the values ["", "2", "1"]. *)
Lemma RecordCustomCounter_values_may_misalign :
  fst (RecordCustomCounter [] [1%nat] "x" {["a" := "1"; "b" := "2"]} 5 init_world)
  = Ret tt ∧
  (label_names <$>
     CustomCounters
       (metrics (snd (RecordCustomCounter [] [1%nat] "x" {["a" := "1"; "b" := "2"]} 5
                        init_world))) !! "x")
  = Some ["service_name"; "a"; "b"] ∧
  snapshot_counter
    (snd (RecordCustomCounter [] [1%nat] "x" {["a" := "1"; "b" := "2"]} 5 init_world))
    "x" [""; "2"; "1"] = Some 5%Q.
Proof. repeat split; vm_compute; reflexivity. Qed.




(** ** Negative counter values *)

Lemma RecordCustomCounter_negative_panics o1 o2 name labels value w :
  (value < 0)%Q →
  ∃ msg, fst (RecordCustomCounter o1 o2 name labels value w) = Panic msg.
Proof.
  intros Hv.
  assert (∀ w' c, CustomCounters (metrics w') !! name = Some c →
            ∃ msg, fst (RecordCustomCounter o1 o2 name labels value w') = Panic msg)
    as Hex.
  { intros w' c Hc. rewrite (RecordCustomCounter_existing _ _ _ _ _ _ c Hc).
    destruct (WithLabelValues _ _ c) as [msg|c1]; [by exists msg|].
    rewrite Add_negative by done. by eexists. }
  destruct (CustomCounters (metrics w) !! name) as [c|] eqn:Hc; [by eapply Hex|].
  rewrite (RecordCustomCounter_absent _ _ _ _ _ _ Hc).
  destruct (NewVec (reg w) _ _) as [msg|[c0 r0]]; [by exists msg|].
  eapply Hex. apply lookup_insert_eq.
Qed.

(** With a negative value the only possible change to the counter
    families is that the family of [name] is stored with a child for the
    submitted label values. *)
Lemma RecordCustomCounter_negative_effect o1 o2 name labels value w :
  (value < 0)%Q →
  CustomCounters (metrics (snd (RecordCustomCounter o1 o2 name labels value w)))
  = CustomCounters (metrics w) ∨
  CustomCounters (metrics (snd (RecordCustomCounter o1 o2 name labels value w)))
  = <[name := ensure_child 0%Q (labelValues o2 labels) (base_family o1 name labels w)]>
      (CustomCounters (metrics w)).
Proof.
  intros Hv. unfold base_family.
  destruct (CustomCounters (metrics w) !! name) as [c|] eqn:Hc.
  - rewrite (RecordCustomCounter_existing _ _ _ _ _ _ c Hc). simpl.
    unfold WithLabelValues. case_decide; [|by left].
    rewrite Add_negative by done. by right.
  - rewrite (RecordCustomCounter_absent _ _ _ _ _ _ Hc). simpl.
    unfold NewVec. destruct (decide (NoDup (labelNames o1 labels))) as [Hnd|]; [|by left].
    destruct (decide (_ ∈ reg w)); [by left|].
    erewrite RecordCustomCounter_existing by apply lookup_insert_eq.
    apply labelNames_NoDup in Hnd.
    rewrite WithLabelValues_ok; cycle 1.
    { cbn [label_names]. rewrite labelNames_length, labelValues_length.
      by rewrite delete_id. }
    rewrite Add_negative by done. right. simpl. by rewrite insert_insert_eq.
Qed.

(** C6 as stated fails: a negative value for a new label tuple of the
    existing family [x] ends in a panic of the Prometheus client, not in an
    error value, and the family has changed: it now holds a sample of
    value 0 for that tuple.  The same happens for an unseen name: the
    family is created. *)
Lemma RecordCustomCounter_negative_value_counterexample :
  fst (RecordCustomCounter [] [] "x" {["a" := "2"]} (-1)
         (snd (RecordCustomCounter [] [] "x" {["a" := "1"]} 5 init_world)))
  = Panic "counter cannot decrease in value" ∧
  snapshot_counter
    (snd (RecordCustomCounter [] [] "x" {["a" := "1"]} 5 init_world)) "x" [""; "2"]
  = None ∧
  snapshot_counter
    (snd (RecordCustomCounter [] [] "x" {["a" := "2"]} (-1)
            (snd (RecordCustomCounter [] [] "x" {["a" := "1"]} 5 init_world))))
    "x" [""; "2"]
  = Some 0%Q ∧
  fst (RecordCustomCounter [] [] "y" ∅ (-1) init_world)
  = Panic "counter cannot decrease in value" ∧
  CustomCounters (metrics init_world) !! "y" = None ∧
  snapshot_counter (snd (RecordCustomCounter [] [] "y" ∅ (-1) init_world)) "y" [""]
  = Some 0%Q.
Proof. repeat split; vm_compute; reflexivity. Qed.

(** C6 (amended). A counter submission with a negative value is never
    added to a running sum: the call panics, every sample recorded before
    keeps its value, every family keeps its label names, the only sample
    that can appear is one of value 0 for the submitted label values in the
    targeted family, and everything outside the counter families is
    untouched.  (No error value is produced.) *)
Theorem RecordCustomCounter_negative_value
    (o1 o2 : GoMap.order) (name : string) (labels : gmap string string)
    (value : Q) (w : World) :
  (value < 0)%Q →
  let r := RecordCustomCounter o1 o2 name labels value w in
  (∃ msg, fst r = Panic msg) ∧
  (∀ n lvs x, snapshot_counter w n lvs = Some x →
              snapshot_counter (snd r) n lvs = Some x) ∧
  (∀ n lvs x, snapshot_counter (snd r) n lvs = Some x →
              snapshot_counter w n lvs = Some x ∨
              (n = name ∧ lvs = labelValues o2 labels ∧ x = 0%Q)) ∧
  (∀ n c, CustomCounters (metrics w) !! n = Some c →
          ∃ c', CustomCounters (metrics (snd r)) !! n = Some c' ∧
                label_names c' = label_names c) ∧
  CustomGauges (metrics (snd r)) = CustomGauges (metrics w) ∧
  CustomHistograms (metrics (snd r)) = CustomHistograms (metrics w) ∧
  LogsReceived (metrics (snd r)) = LogsReceived (metrics w) ∧
  LogsProcessed (metrics (snd r)) = LogsProcessed (metrics w) ∧
  LogsErrors (metrics (snd r)) = LogsErrors (metrics w).
Proof.
  intros Hv r.
  pose proof (RecordCustomCounter_negative_panics o1 o2 name labels value w Hv) as Hp.
  destruct (RecordCustomCounter_effect o1 o2 name labels value w)
    as [(Hg & Hh & _ & _ & _ & Hr & Hpr & He & _) Hcs].
  pose proof (RecordCustomCounter_negative_effect o1 o2 name labels value w Hv) as Hneg.
  fold r in Hp, Hg, Hh, Hr, Hpr, He, Hcs, Hneg.
  split; [done|]. split; [|split; [|split; [|done]]].
  - intros n lvs x. unfold snapshot_counter.
    destruct Hcs as [->|(c' & -> & _ & Hs)]; [done|].
    destruct (decide (name = n)) as [<-|Hne]; [|by rewrite lookup_insert_ne].
    rewrite lookup_insert_eq. unfold base_family in Hs.
    destruct (CustomCounters (metrics w) !! name) as [c|]; [|done].
    intros Hx. apply Hs; [done|by right].
  - intros n lvs x. unfold snapshot_counter.
    destruct Hneg as [->| ->]; [by left|].
    destruct (decide (name = n)) as [<-|Hne]; [|rewrite lookup_insert_ne by done; by left].
    rewrite lookup_insert_eq. unfold base_family, sample, ensure_child.
    destruct (CustomCounters (metrics w) !! name) as [c|]; simpl.
    + destruct (children c !! labelValues o2 labels) eqn:Hl; [by left|]. simpl.
      destruct (decide (labelValues o2 labels = lvs)) as [<-|Hne].
      * rewrite lookup_insert_eq. intros [= <-]. by right.
      * rewrite lookup_insert_ne by done. by left.
    + rewrite lookup_empty. simpl.
      destruct (decide (labelValues o2 labels = lvs)) as [<-|Hne].
      * rewrite lookup_insert_eq. intros [= <-]. by right.
      * rewrite lookup_insert_ne, lookup_empty by done. done.
  - intros n c Hc. by apply RecordCustomCounter_keeps_names.
Qed.

Lemma RecordCustomCounter_negative_value_witness :
  let w := snd (RecordCustomCounter [] [] "x" {["a" := "1"]} 5 init_world) in
  let r := RecordCustomCounter [] [] "x" {["a" := "1"]} (-3) w in
  (∃ msg, fst r = Panic msg) ∧
  (∀ n lvs x, snapshot_counter w n lvs = Some x →
              snapshot_counter (snd r) n lvs = Some x) ∧
  (∀ n lvs x, snapshot_counter (snd r) n lvs = Some x →
              snapshot_counter w n lvs = Some x ∨
              (n = "x" ∧ lvs = labelValues [] {["a" := "1"]} ∧ x = 0%Q)) ∧
  (∀ n c, CustomCounters (metrics w) !! n = Some c →
          ∃ c', CustomCounters (metrics (snd r)) !! n = Some c' ∧
                label_names c' = label_names c) ∧
  CustomGauges (metrics (snd r)) = CustomGauges (metrics w) ∧
  CustomHistograms (metrics (snd r)) = CustomHistograms (metrics w) ∧
  LogsReceived (metrics (snd r)) = LogsReceived (metrics w) ∧
  LogsProcessed (metrics (snd r)) = LogsProcessed (metrics w) ∧
  LogsErrors (metrics (snd r)) = LogsErrors (metrics w).
Proof.
  apply (RecordCustomCounter_negative_value [] [] "x" {["a" := "1"]} (-3)
           (snd (RecordCustomCounter [] [] "x" {["a" := "1"]} 5 init_world))).
  reflexivity.
Defined.

(** ** The batch handler *)










(** ** Concurrent callers: every execution is a serial one *)

(** The statements of [RecordCustomCounter_task], run without
    interruption, are [RecordCustomCounter]. *)
Lemma RecordCustomCounter_task_refines o1 o2 name labels value w :
  run_task (RecordCustomCounter_task o1 o2 name labels value) w
  = RecordCustomCounter o1 o2 name labels value w.
Proof.
  destruct (CustomCounters (metrics w) !! name) as [c|] eqn:Hc.
  - rewrite (RecordCustomCounter_existing _ _ _ _ _ _ c Hc).
    unfold RecordCustomCounter_task, stmt, run_task, gets, ret, bind. rewrite Hc.
    destruct (WithLabelValues _ _ c) as [msg|c1]; simpl; [done|].
    destruct (Add value _ c1) as [msg|c2]; simpl; done.
  - rewrite (RecordCustomCounter_absent _ _ _ _ _ _ Hc).
    unfold RecordCustomCounter_task, stmt, run_task, gets, ret, bind. rewrite Hc.
    unfold promauto_NewVec.
    destruct (NewVec (reg w) _ _) as [msg|[c0 r0]]; simpl; [done|].
    erewrite RecordCustomCounter_existing by apply lookup_insert_eq.
    destruct (WithLabelValues _ _ c0) as [msg|c1]; simpl; [done|].
    destruct (Add value _ c1) as [msg|c2]; simpl; done.
Qed.

Lemma serial_snoc tasks order i w :
  serial tasks (order ++ [i]) w
  = match tasks !! i with
    | Some t => snd (run_task t (serial tasks order w))
    | None => serial tasks order w
    end.
Proof. unfold serial. by rewrite foldl_snoc. Qed.

Lemma results_of_ended (tasks : list task) (w0 : World) (order : list nat)
    (ths : list thread) (i : nat) :
  results_of tasks w0 order ths → i ∈ order → ∃ r, ths !! i = Some (Ended r).
Proof.
  intros Hres [k Hk]%list_elem_of_lookup_1.
  destruct (Hres k i Hk) as (t & _ & Hi). by eexists.
Qed.

Lemma results_of_insert (tasks : list task) (w0 : World) (order : list nat)
    (ths : list thread) (i : nat) (x : thread) :
  results_of tasks w0 order ths → i ∉ order →
  results_of tasks w0 order (<[i := x]> ths).
Proof.
  intros Hres Hni k j Hk. destruct (Hres k j Hk) as (t & Ht & Hj).
  exists t. split; [done|]. rewrite list_lookup_insert_ne; [done|].
  intros ->. apply Hni. by eapply list_elem_of_lookup_2.
Qed.

Lemma results_of_snoc (tasks : list task) (w0 : World) (order : list nat)
    (ths : list thread) (i : nat) (th : task) :
  results_of tasks w0 order ths → i ∉ order → (i < length ths)%nat →
  tasks !! i = Some th →
  results_of tasks w0 (order ++ [i])
    (<[i := Ended (fst (run_task th (serial tasks order w0)))]> ths).
Proof.
  intros Hres Hni Hlt Hth k j Hk.
  destruct (decide (k < length order)%nat) as [Hlk|Hlk].
  - rewrite lookup_app_l in Hk by done.
    destruct (Hres k j Hk) as (t & Ht & Hj). exists t. split; [done|].
    rewrite take_app_le by lia.
    rewrite list_lookup_insert_ne; [done|].
    intros ->. apply Hni. by eapply list_elem_of_lookup_2.
  - rewrite lookup_app_r in Hk by lia.
    destruct (k - length order)%nat as [|n] eqn:Hn; [|by destruct n].
    injection Hk as <-. exists th. split; [done|].
    assert (k = length order) as -> by lia.
    rewrite take_app_length. by rewrite list_lookup_insert_eq.
Qed.

Lemma serial_inv_spawn tasks w0 : serial_inv tasks w0 (spawn tasks w0).
Proof.
  intros _. exists []. simpl. split; [constructor|].
  split; [by rewrite length_fmap|]. split; [by intros k i ?|].
  split; [|done]. intros i t Ht _ _. by rewrite list_lookup_fmap, Ht.
Qed.

(** The holder of the mutex is the only goroutine that is neither waiting
    nor ended. *)
Lemma serial_inv_holder (tasks : list task) (w0 : World) (s : system)
    (order : list nat) (i : nat) :
  length (threads s) = length tasks →
  results_of tasks w0 order (threads s) →
  (∀ i t, tasks !! i = Some t → i ∉ order → mu s ≠ Some i →
          threads s !! i = Some (Waiting t)) →
  (∃ t, threads s !! i = Some (Running t)) ∨ (∃ msg, threads s !! i = Some (Unwinding msg)) →
  mu s = Some i.
Proof.
  intros Hlen Hres Hwait Hi.
  assert (is_Some (tasks !! i)) as [t Ht].
  { apply lookup_lt_is_Some. rewrite <- Hlen. apply lookup_lt_is_Some.
    destruct Hi as [[? ->]|[? ->]]; by eexists. }
  destruct (decide (mu s = Some i)) as [|Hmu]; [done|].
  assert (i ∉ order) as Hni.
  { intros [r Hr]%(results_of_ended _ _ _ _ _ Hres).
    destruct Hi as [[? Hi]|[? Hi]]; congruence. }
  specialize (Hwait i t Ht Hni Hmu). destruct Hi as [[? Hi]|[? Hi]]; congruence.
Qed.

(** The deferred unlock: the goroutine ends with the result of its body and
    joins the serial order. *)
Lemma serial_inv_release (tasks : list task) (w0 : World) (s : system)
    (order : list nat) (i : nat) (th : task) (r : outcome unit) :
  NoDup order →
  length (threads s) = length tasks →
  results_of tasks w0 order (threads s) →
  (∀ i t, tasks !! i = Some t → i ∉ order → mu s ≠ Some i →
          threads s !! i = Some (Waiting t)) →
  mu s = Some i → i ∉ order → tasks !! i = Some th →
  run_task th (serial tasks order w0) = (r, world s) →
  serial_inv tasks w0 (mkSystem (world s) None (<[i := Ended r]> (threads s)) false).
Proof.
  intros Hnd Hlen Hres Hwait Hmu Hni Hth Hw _. exists (order ++ [i]). simpl.
  assert (i < length (threads s))%nat as Hi.
  { rewrite Hlen. by apply lookup_lt_is_Some. }
  split.
  { apply NoDup_app. split; [done|]. split; [|apply NoDup_singleton].
    intros j Hj ->%list_elem_of_singleton. done. }
  split; [by rewrite length_insert|]. split.
  { replace r with (fst (run_task th (serial tasks order w0))) by (by rewrite Hw).
    by apply results_of_snoc. }
  split.
  { intros j t Ht Hnj _.
    assert (j ≠ i) as Hne by (intros ->; apply Hnj, elem_of_app; right; by left).
    rewrite list_lookup_insert_ne by done.
    apply Hwait; [done| |congruence].
    intros Hj. apply Hnj, elem_of_app. by left. }
  by rewrite serial_snoc, Hth, Hw.
Qed.

Lemma serial_inv_step tasks w0 s i :
  serial_inv tasks w0 s → serial_inv tasks w0 (step i s).
Proof.
  intros Hinv. unfold step.
  destruct (exited s) eqn:Hex; [done|].
  destruct (Hinv Hex) as (order & Hnd & Hlen & Hres & Hwait & Hmu).
  destruct (threads s !! i) as [[t|[|f]|msg|r]|] eqn:Hi; try done.
  - (* Lock *)
    destruct (mu s) as [h|] eqn:Hh; [done|].
    assert (i < length (threads s))%nat as Hlt by (by apply lookup_lt_is_Some).
    assert (is_Some (tasks !! i)) as [th Hth].
    { apply lookup_lt_is_Some. by rewrite <- Hlen. }
    assert (i ∉ order) as Hni.
    { intros [r Hr]%(results_of_ended _ _ _ _ _ Hres). congruence. }
    assert (t = th) as ->.
    { specialize (Hwait i th Hth Hni). rewrite Hi in Hwait.
      by injection (Hwait ltac:(done)). }
    intros _. exists order. simpl.
    split; [done|]. split; [by rewrite length_insert|].
    split; [by apply results_of_insert|].
    split.
    { intros j t Ht Hnj Hne. rewrite list_lookup_insert_ne by congruence.
      by apply Hwait. }
    split; [done|]. exists th. split; [done|]. left. exists th.
    rewrite list_lookup_insert_eq by done. split; [done|]. by rewrite Hmu.
  - (* the body has returned: the deferred unlock *)
    assert (mu s = Some i) as Hh.
    { eapply serial_inv_holder; eauto. }
    rewrite Hh in Hmu. destruct Hmu as (Hni & th & Hth & [(t & Ht & Hrun)|(msg & Ht & _)]);
      [|congruence].
    rewrite Hi in Ht. injection Ht as <-. simpl in Hrun.
    eapply serial_inv_release; eauto.
  - (* a statement of the body *)
    assert (mu s = Some i) as Hh.
    { eapply serial_inv_holder; eauto. }
    rewrite Hh in Hmu. destruct Hmu as (Hni & th & Hth & [(t & Ht & Hrun)|(msg & Ht & _)]);
      [|congruence].
    rewrite Hi in Ht. injection Ht as <-. simpl in Hrun.
    assert (i < length (threads s))%nat as Hlt by (by apply lookup_lt_is_Some).
    destruct (f (world s)) as [[t'|msg|c] w'] eqn:Hf; [| |done].
    + intros _. exists order. simpl.
      split; [done|]. split; [by rewrite length_insert|].
      split; [by apply results_of_insert|].
      split.
      { intros j t Ht Hnj Hne. rewrite Hh in Hne.
        rewrite list_lookup_insert_ne by congruence. apply Hwait; [done..|congruence]. }
      rewrite Hh. split; [done|]. exists th. split; [done|]. left. exists t'.
      by rewrite list_lookup_insert_eq.
    + intros _. exists order. simpl.
      split; [done|]. split; [by rewrite length_insert|].
      split; [by apply results_of_insert|].
      split.
      { intros j t Ht Hnj Hne. rewrite Hh in Hne.
        rewrite list_lookup_insert_ne by congruence. apply Hwait; [done..|congruence]. }
      rewrite Hh. split; [done|]. exists th. split; [done|]. right. exists msg.
      by rewrite list_lookup_insert_eq.
  - (* unwinding after a panic: the deferred unlock *)
    assert (mu s = Some i) as Hh.
    { eapply serial_inv_holder; eauto. }
    rewrite Hh in Hmu. destruct Hmu as (Hni & th & Hth & [(t & Ht & _)|(msg' & Ht & Hrun)]);
      [congruence|].
    assert (msg' = msg) as -> by congruence.
    eapply serial_inv_release; eauto.
Qed.

Lemma serial_inv_run tasks w0 schedule s :
  serial_inv tasks w0 s → serial_inv tasks w0 (run schedule s).
Proof.
  revert s. induction schedule as [|i schedule IH]; intros s Hs; [done|].
  simpl. apply IH. by apply serial_inv_step.
Qed.

(** Serialisability: when every goroutine has ended, the state is the one
    the bodies leave when run one after the other in some order, and each
    goroutine has the result its body gives at its place in that order. *)
Lemma run_serialisable tasks w0 schedule :
  all_ended (run schedule (spawn tasks w0)) = true →
  ∃ order, order ≡ₚ seq 0 (length tasks) ∧
           world (run schedule (spawn tasks w0)) = serial tasks order w0 ∧
           length (threads (run schedule (spawn tasks w0))) = length tasks ∧
           results_of tasks w0 order (threads (run schedule (spawn tasks w0))).
Proof.
  intros Hend. apply andb_prop in Hend as [Hex Hall].
  apply negb_true_iff in Hex.
  destruct (serial_inv_run tasks w0 schedule _ (serial_inv_spawn tasks w0) Hex)
    as (order & Hnd & Hlen & Hres & Hwait & Hmu).
  set (s := run schedule (spawn tasks w0)) in *.
  assert (∀ i t, threads s !! i = Some t → ∃ r, t = Ended r) as Hended.
  { intros i t Hi. apply list_elem_of_lookup_2 in Hi.
    rewrite forallb_forall in Hall. apply list_elem_of_In, Hall in Hi.
    destruct t; try done. by eexists. }
  assert (mu s = None) as Hnone.
  { destruct (mu s) as [h|]; [|done].
    destruct Hmu as (_ & th & _ & [(t & Ht & _)|(msg & Ht & _)]);
      by destruct (Hended _ _ Ht). }
  rewrite Hnone in Hmu. exists order. split; [|done].
  apply NoDup_Permutation; [done|apply NoDup_seq|].
  intros i. rewrite elem_of_seq. split.
  - intros [r Hi]%(results_of_ended _ _ _ _ _ Hres). apply lookup_lt_Some in Hi. lia.
  - intros [_ Hi]. destruct (decide (i ∈ order)) as [|Hni]; [done|].
    assert (is_Some (tasks !! i)) as [t Ht] by (apply lookup_lt_is_Some; lia).
    assert (threads s !! i = Some (Waiting t)) as Hw.
    { apply Hwait; [done..|]. by rewrite Hnone. }
    by destruct (Hended _ _ Hw).
Qed.

(** With at most one label the iteration orders do not matter. *)
Lemma RecordCustomCounter_small_labels o1 o2 name (labels : gmap string string) value :
  (size labels ≤ 1)%nat →
  RecordCustomCounter o1 o2 name labels value
  = RecordCustomCounter [] [] name labels value.
Proof.
  intros Hs. unfold RecordCustomCounter.
  assert (labelNames o1 labels = labelNames [] labels) as ->.
  { unfold labelNames. by rewrite !range_small. }
  assert (labelValues o2 labels = labelValues [] labels) as ->; [|done].
  assert (size (delete "service_name" labels) ≤ 1)%nat as Hd.
  { rewrite map_size_delete. destruct (labels !! "service_name"); simpl; lia. }
  unfold labelValues. by rewrite !range_small.
Qed.

(** C4. Two concurrent [RecordCustomCounter("x", {a: "1"}, 5)] calls on a
    fresh registry, under every schedule of their statements in which both
    run to their end, leave exactly 10 at the sample of family [x] for
    [a = 1] (the service name being empty), and both calls return normally:
    no update is lost. *)
Theorem concurrent_RecordCustomCounter_no_lost_update
    (schedule : list nat) (o1 o2 o1' o2' : GoMap.order) :
  let call1 := RecordCustomCounter_task o1 o2 "x" {["a" := "1"]} 5 in
  let call2 := RecordCustomCounter_task o1' o2' "x" {["a" := "1"]} 5 in
  let s := run schedule (spawn [call1; call2] init_world) in
  all_ended s = true →
  snapshot_counter (world s) "x" [""; "1"] = Some 10%Q ∧
  threads s = [Ended (Ret tt); Ended (Ret tt)].
Proof.
  intros call1 call2 s Hend. subst s.
  destruct (run_serialisable _ _ _ Hend) as (order & Hperm & -> & Hlen & Hres).
  assert (∀ oa ob w,
            run_task (RecordCustomCounter_task oa ob "x" {["a" := "1"]} 5) w
            = RecordCustomCounter [] [] "x" {["a" := "1"]} 5 w) as Hrun.
  { intros. rewrite RecordCustomCounter_task_refines.
    by rewrite RecordCustomCounter_small_labels by (by rewrite map_size_singleton). }
  assert (fst (RecordCustomCounter [] [] "x" {["a" := "1"]} 5 init_world) = Ret tt)
    as F1 by (vm_compute; reflexivity).
  assert (fst (RecordCustomCounter [] [] "x" {["a" := "1"]} 5
                 (snd (RecordCustomCounter [] [] "x" {["a" := "1"]} 5 init_world)))
          = Ret tt) as F2 by (vm_compute; reflexivity).
  assert (snapshot_counter
            (snd (RecordCustomCounter [] [] "x" {["a" := "1"]} 5
                    (snd (RecordCustomCounter [] [] "x" {["a" := "1"]} 5 init_world))))
            "x" [""; "1"] = Some 10%Q) as F3 by (vm_compute; reflexivity).
  assert (∀ a b : thread,
            threads (run schedule (spawn [call1; call2] init_world)) !! 0%nat = Some a →
            threads (run schedule (spawn [call1; call2] init_world)) !! 1%nat = Some b →
            threads (run schedule (spawn [call1; call2] init_world)) = [a; b]) as Hths.
  { intros a b Ha Hb.
    destruct (threads _) as [|a' [|b' [|c l]]]; simpl in Hlen, Ha, Hb;
      try discriminate. congruence. }
  symmetry in Hperm. apply Permutation_length_2_inv in Hperm as [-> | ->].
  - destruct (Hres 0%nat 0%nat eq_refl) as (t0 & Ht0 & Hth0).
    destruct (Hres 1%nat 1%nat eq_refl) as (t1 & Ht1 & Hth1).
    injection Ht0 as <-. injection Ht1 as <-.
    change (serial [call1; call2] (take 0 [0; 1]%nat) init_world)
      with init_world in Hth0.
    change (serial [call1; call2] (take 1 [0; 1]%nat) init_world)
      with (snd (run_task call1 init_world)) in Hth1.
    change (serial [call1; call2] [0; 1]%nat init_world)
      with (snd (run_task call2 (snd (run_task call1 init_world)))).
    unfold call1, call2 in Hth0, Hth1 |- *.
    repeat rewrite Hrun in Hth0. repeat rewrite Hrun in Hth1. repeat rewrite Hrun.
    rewrite F1 in Hth0. rewrite F2 in Hth1. split; [exact F3|by apply Hths].
  - destruct (Hres 0%nat 1%nat eq_refl) as (t1 & Ht1 & Hth1).
    destruct (Hres 1%nat 0%nat eq_refl) as (t0 & Ht0 & Hth0).
    injection Ht0 as <-. injection Ht1 as <-.
    change (serial [call1; call2] (take 0 [1; 0]%nat) init_world)
      with init_world in Hth1.
    change (serial [call1; call2] (take 1 [1; 0]%nat) init_world)
      with (snd (run_task call2 init_world)) in Hth0.
    change (serial [call1; call2] [1; 0]%nat init_world)
      with (snd (run_task call1 (snd (run_task call2 init_world)))).
    unfold call1, call2 in Hth0, Hth1 |- *.
    repeat rewrite Hrun in Hth0. repeat rewrite Hrun in Hth1. repeat rewrite Hrun.
    rewrite F1 in Hth1. rewrite F2 in Hth0. split; [exact F3|by apply Hths].
Qed.

Lemma concurrent_RecordCustomCounter_no_lost_update_witness :
  let call := RecordCustomCounter_task [] [] "x" {["a" := "1"]} 5 in
  let s := run [0; 1; 0; 1; 0; 0; 1; 0; 0; 0; 1; 1; 1; 1; 1; 1; 1]%nat
             (spawn [call; call] init_world) in
  all_ended s = true ∧
  snapshot_counter (world s) "x" [""; "1"] = Some 10%Q ∧
  threads s = [Ended (Ret tt); Ended (Ret tt)].
Proof.
  assert (all_ended
            (run [0; 1; 0; 1; 0; 0; 1; 0; 0; 0; 1; 1; 1; 1; 1; 1; 1]%nat
               (spawn [RecordCustomCounter_task [] [] "x" {["a" := "1"]} 5;
                       RecordCustomCounter_task [] [] "x" {["a" := "1"]} 5]
                  init_world)) = true) as Hend by (vm_compute; reflexivity).
  split; [exact Hend|].
  exact (concurrent_RecordCustomCounter_no_lost_update
           [0; 1; 0; 1; 0; 0; 1; 0; 0; 0; 1; 1; 1; 1; 1; 1; 1]%nat [] [] [] [] Hend).
Defined.

(** * Further properties of the handlers, the recorders and the logger *)

(** ** Observations kept by a computation *)

Lemma keeps_ret {S A X} (f : S → X) (a : A) : keeps f (ret a).
Proof. done. Qed.

Lemma keeps_panic {S A X} (f : S → X) msg : keeps f (panic (A:=A) msg).
Proof. done. Qed.

Lemma keeps_exit {S A X} (f : S → X) c : keeps f (os_Exit (A:=A) c).
Proof. done. Qed.

Lemma keeps_gets {S A X} (f : S → X) (g : S → A) : keeps f (gets g).
Proof. done. Qed.

Lemma keeps_must {S A X} (f : S → X) (r : string + A) : keeps f (must r).
Proof. by destruct r. Qed.

Lemma keeps_modify {S X} (f : S → X) (g : S → S) :
  (∀ s, f (g s) = f s) → keeps f (modify g).
Proof. intros Hg s. apply Hg. Qed.

(** A continuation only runs on the values its first part returns. *)
Lemma keeps_bind_ret {S A B X} (f : S → X) (m : M S A) (k : A → M S B) :
  keeps f m → (∀ a, (∃ s, fst (m s) = Ret a) → keeps f (k a)) → keeps f (bind m k).
Proof.
  intros Hm Hk s. unfold bind. specialize (Hm s).
  destruct (m s) as [[a|msg|c] s'] eqn:Hms; simpl in *; [|done..].
  rewrite <- Hm. apply Hk. exists s. by rewrite Hms.
Qed.

Lemma keeps_bind {S A B X} (f : S → X) (m : M S A) (k : A → M S B) :
  keeps f m → (∀ a, keeps f (k a)) → keeps f (bind m k).
Proof. intros Hm Hk. apply keeps_bind_ret; auto. Qed.

Lemma keeps_defer {S A X} (f : S → X) (d : S → S) (body : M S A) :
  (∀ s, f (d s) = f s) → keeps f body → keeps f (defer d body).
Proof.
  intros Hd Hb s. unfold defer. specialize (Hb s).
  destruct (body s) as [[a|msg|c] s']; simpl in *; by rewrite ?Hd.
Qed.

(** The building blocks of the handlers, opened up to their branches. *)
Ltac open_blocks :=
  unfold respondError, respondSuccess, recordHTTPMetrics, counter_Inc, deref,
    LogFromService, zap_Log, zap_Fatal, zap_Panic, zap_write,
    RecordMetric, RecordCustomCounter, RecordCustomGauge, RecordCustomHistogram,
    promauto_NewVec, store_counter, store_gauge, store_histogram,
    must, WithLabelValues, Add, NewVec, bind, gets, modify, ret, panic, os_Exit.

(** [keeps f m] for a block [m] without recursion, by cases on its branches. *)
Ltac keeps_block :=
  let w := fresh "w" in
  intros w; open_blocks;
  repeat first [case_decide | case_match]; simplify_eq/=; try done;
  unfold Inc, Observe, Set_, update, ensure_child; simpl;
  repeat case_match; simplify_eq/=; done.

(** [LogBatch] and the counting loop keep what their steps keep. *)
Lemma keeps_LogBatch {X} (f : World → X) os entries :
  (∀ o e, keeps f (LogFromService o e)) → keeps f (LogBatch os entries).
Proof.
  intros Hf. revert os. induction entries as [|e entries IH]; intros os; [done|].
  simpl. apply keeps_bind; [apply Hf|]. intros [err|]; [done|apply IH].
Qed.

Lemma keeps_count_entries {X} (f : World → X) entries :
  (∀ lvs, keeps f (counter_Inc LogsReceived set_LogsReceived lvs)) →
  (∀ lvs, keeps f (counter_Inc LogsProcessed set_LogsProcessed lvs)) →
  keeps f (count_entries entries).
Proof.
  intros Hr Hp. induction entries as [|e entries IH]; [done|].
  simpl. apply keeps_bind; [apply Hr|]. intros _.
  apply keeps_bind; [apply Hp|]. intros _. apply IH.
Qed.

(** [LogFromService] has no path that returns an error, and so neither has
    [LogBatch]. *)
Lemma LogFromService_no_error o e w err : fst (LogFromService o e w) ≠ Ret (Some err).
Proof. open_blocks. repeat case_match; simplify_eq/=; done. Qed.

Lemma LogBatch_no_error os entries w err : fst (LogBatch os entries w) ≠ Ret (Some err).
Proof.
  revert os w. induction entries as [|e entries IH]; intros os w; [done|].
  simpl. unfold bind at 1.
  pose proof (LogFromService_no_error (hd [] os) e w) as Hne.
  destruct (LogFromService (hd [] os) e w) as [[[err'|]|msg|c] w']; simpl in *;
    [by destruct (Hne err')|apply IH|done..].
Qed.

(** A branch that runs after a call which cannot have returned the value it
    is taken on. *)
Ltac dead_branch :=
  exfalso;
  match goal with
  | H : ∃ _, fst (deref None _) = Ret _ |- _ =>
      let s := fresh in let E := fresh in destruct H as [s E]; discriminate E
  | H : ∃ _, fst (LogFromService _ _ _) = Ret (Some _) |- _ =>
      let s := fresh in let E := fresh in
      destruct H as [s E]; exact (LogFromService_no_error _ _ _ _ E)
  | H : ∃ _, fst (LogBatch _ _ _) = Ret (Some _) |- _ =>
      let s := fresh in let E := fresh in
      destruct H as [s E]; exact (LogBatch_no_error _ _ _ _ E)
  end.

(** Facts on what single blocks keep, for [keeps_go]. *)
Create HintDb keeps discriminated.

(** [keeps f m] for a handler body [m], block by block. *)
Ltac keeps_go :=
  repeat first
    [ solve [dead_branch]
    | solve [auto with keeps nocore]
    | apply keeps_ret
    | apply keeps_LogBatch; intros ? ?
    | apply keeps_count_entries; intros ?
    | match goal with
      | |- keeps _ (bind _ _) => apply keeps_bind_ret; [|intros ? ?]
      | |- keeps _ (defer _ _) => apply keeps_defer; [done|]
      | |- keeps _ (match (match ?x with _ => _ end) with _ => _ end) => destruct x
      | |- keeps _ (match ?x with _ => _ end) => destruct x
      | |- keeps _ (if ?b then _ else _) => destruct b
      end
    | solve [keeps_block] ].

(** ** The in-flight gauge *)

Lemma in_flight_around (body : M World unit) w :
  keeps in_flight body →
  in_flight_settled w ((modify InFlight_Inc ;; defer InFlight_Dec body) w).
Proof.
  intros Hb. unfold in_flight_settled, bind, modify, defer. simpl.
  specialize (Hb (InFlight_Inc w)).
  destruct (body (InFlight_Inc w)) as [[a|msg|c] w']; simpl in *;
    unfold in_flight in *; simpl in *; rewrite Hb; ring.
Qed.

(** X1. Every handler leaves the in-flight gauge where it found it, also
    when it panics: [HTTPRequestsInFlight.Inc()] at entry is undone by the
    deferred [Dec()].  Only when the process exits under it does the gauge
    stay one above. *)
Theorem handlers_settle_in_flight
    (json_LogEntry : string → string + LogEntry)
    (json_elements : string → string + list string)
    (json_MetricEntry : string → string + MetricEntry)
    (o o1 o2 : GoMap.order) (os : list GoMap.order) (now : Time) (elapsed : Q)
    (r : Request) (w : World) :
  in_flight_settled w (LogHandler json_LogEntry o now elapsed r w) ∧
  in_flight_settled w (LogBatchHandler json_LogEntry json_elements os elapsed r w) ∧
  in_flight_settled w (MetricsHandler json_MetricEntry o1 o2 elapsed r w).
Proof.
  split; [|split]; apply in_flight_around.
  - unfold ParseLogEntry. keeps_go.
  - keeps_go.
  - keeps_go.
Qed.

(** ** The error counter *)

(** X2. No handler ever changes [telemetry_logs_errors_total]: the
    [parse_error] increment of [LogHandler] comes after the dereference of
    the nil entry, and the [processing_error] increment is on the error
    path of [LogFromService], which has none. *)
Theorem handlers_never_count_errors
    (json_LogEntry : string → string + LogEntry)
    (json_elements : string → string + list string)
    (json_MetricEntry : string → string + MetricEntry)
    (o o1 o2 : GoMap.order) (os : list GoMap.order) (now : Time) (elapsed : Q)
    (r : Request) (w : World) :
  LogsErrors (metrics (snd (LogHandler json_LogEntry o now elapsed r w)))
  = LogsErrors (metrics w) ∧
  LogsErrors (metrics (snd (LogBatchHandler json_LogEntry json_elements os elapsed r w)))
  = LogsErrors (metrics w) ∧
  LogsErrors (metrics (snd (MetricsHandler json_MetricEntry o1 o2 elapsed r w)))
  = LogsErrors (metrics w).
Proof.
  split; [|split].
  - apply (keeps_bind (fun w => LogsErrors (metrics w))); [keeps_block|]. intros _.
    apply keeps_defer; [done|]. unfold ParseLogEntry. keeps_go.
  - apply (keeps_bind (fun w => LogsErrors (metrics w))); [keeps_block|]. intros _.
    apply keeps_defer; [done|]. keeps_go.
  - apply (keeps_bind (fun w => LogsErrors (metrics w))); [keeps_block|]. intros _.
    apply keeps_defer; [done|]. keeps_go.
Qed.

(** ** Responses *)

Lemma responds_respondError codes message status (rest : M World unit) :
  status ∈ codes → keeps written rest →
  responds codes (respondError message status ;; rest).
Proof.
  intros Hin Hrest w. left. unfold respondError, bind, modify.
  rewrite Hrest. simpl. eauto.
Qed.

Lemma responds_respondSuccess codes data (rest : M World unit) :
  200%Z ∈ codes → keeps written rest →
  responds codes (respondSuccess data ;; rest).
Proof.
  intros Hin Hrest w. left. unfold respondSuccess, bind, modify.
  rewrite Hrest. simpl. eauto.
Qed.

Lemma responds_bind {A} codes (pre : M World A) (k : A → M World unit) :
  keeps written pre →
  (∀ a, (∃ s, fst (pre s) = Ret a) → responds codes (k a)) →
  responds codes (bind pre k).
Proof.
  intros Hpre Hk w. unfold bind. specialize (Hpre w).
  destruct (pre w) as [[a|msg|c] w1] eqn:Hw; simpl in *.
  - unfold responded. rewrite <- Hpre. apply Hk. exists w. by rewrite Hw.
  - by right.
  - by right.
Qed.

Lemma responds_defer codes (d : World → World) (body : M World unit) :
  (∀ s, written (d s) = written s) → responds codes body →
  responds codes (defer d body).
Proof.
  intros Hd Hb w. specialize (Hb w). unfold defer, responded in *.
  destruct (body w) as [[a|msg|c] w1]; simpl in *; by rewrite ?Hd.
Qed.

Ltac in_list := solve [repeat first [apply list_elem_of_here | apply list_elem_of_further]].

(** [responds codes m] for a handler body [m], branch by branch. *)
Ltac responds_go :=
  repeat first
    [ solve [dead_branch]
    | match goal with
      | |- responds _ (bind (respondError _ _) _) =>
          apply responds_respondError; [in_list|solve [keeps_go]]
      | |- responds _ (bind (respondSuccess _) _) =>
          apply responds_respondSuccess; [in_list|solve [keeps_go]]
      | |- responds _ (defer _ _) => apply responds_defer; [done|]
      | |- responds _ (bind _ _) => apply responds_bind; [solve [keeps_go]|intros ? ?]
      | |- responds _ (match (match ?x with _ => _ end) with _ => _ end) => destruct x
      | |- responds _ (match ?x with _ => _ end) => destruct x
      | |- responds _ (if ?b then _ else _) => destruct b
      end ].

(** X3. A handler writes at most one response per request, and when it
    returns it has written exactly one.  Its status is 200, 400 or 405:
    the branches that answer 500 are on the error path of [LogFromService]
    and [LogBatch], which never return an error. *)
Theorem handlers_respond_once
    (json_LogEntry : string → string + LogEntry)
    (json_elements : string → string + list string)
    (json_MetricEntry : string → string + MetricEntry)
    (o o1 o2 : GoMap.order) (os : list GoMap.order) (now : Time) (elapsed : Q)
    (r : Request) (w : World) :
  responded [200; 400; 405]%Z w (LogHandler json_LogEntry o now elapsed r w) ∧
  responded [200; 400; 405]%Z w
    (LogBatchHandler json_LogEntry json_elements os elapsed r w) ∧
  responded [200; 400; 405]%Z w (MetricsHandler json_MetricEntry o1 o2 elapsed r w).
Proof.
  split; [|split].
  - revert w. change (responds [200; 400; 405]%Z (LogHandler json_LogEntry o now elapsed r)).
    unfold LogHandler, ParseLogEntry. responds_go.
  - revert w.
    change (responds [200; 400; 405]%Z
              (LogBatchHandler json_LogEntry json_elements os elapsed r)).
    unfold LogBatchHandler. responds_go.
  - revert w.
    change (responds [200; 400; 405]%Z
              (MetricsHandler json_MetricEntry o1 o2 elapsed r)).
    unfold MetricsHandler. responds_go.
Qed.

(** ** The routes of [main] *)

(** A request only reaches one of the three ingestion handlers as a POST to
    its path. *)
Lemma Match_ingestion method path h :
  Match method path routes false = Matched h →
  h ∈ [LogHandler_handler; LogBatchHandler_handler; MetricsHandler_handler] →
  method = "POST".
Proof.
  unfold routes. simpl. intros HM Hh.
  repeat case_match; simplify_eq/=.
  all: rewrite ?orb_false_r in *.
  all: try (by apply String.eqb_eq).
  all: exfalso; repeat (apply elem_of_cons in Hh as [Hh|Hh]; [discriminate Hh|]);
    by apply elem_of_nil in Hh.
Qed.

(** [recordHTTPMetrics] leaves every other series of the request counter
    alone. *)
Lemma recordHTTPMetrics_keeps_other method endpoint status d lvs :
  lvs ≠ [method; endpoint; StatusText status] →
  keeps (fun w => sample (HTTPRequestsTotal (metrics w)) lvs)
    (recordHTTPMetrics method endpoint status d).
Proof.
  intros Hne w. open_blocks. unfold Inc, update, ensure_child, sample.
  repeat first [case_decide | case_match]; simplify_eq/=; try done;
    by rewrite ?lookup_alter_ne, ?lookup_insert_ne.
Qed.

#[local] Hint Extern 1 (keeps _ (recordHTTPMetrics _ _ _ _)) =>
  apply recordHTTPMetrics_keeps_other;
  let E := fresh in intros E; injection E as _ _ E; cbv in E; discriminate E : keeps.

Lemma POST_keeps_method_not_allowed
    (json_LogEntry : string → string + LogEntry)
    (json_elements : string → string + list string)
    (json_MetricEntry : string → string + MetricEntry)
    o o1 o2 os now elapsed body m e :
  let f := fun w => sample (HTTPRequestsTotal (metrics w)) [m; e; "Method Not Allowed"] in
  keeps f (LogHandler json_LogEntry o now elapsed (mkRequest "POST" body)) ∧
  keeps f (LogBatchHandler json_LogEntry json_elements os elapsed (mkRequest "POST" body)) ∧
  keeps f (MetricsHandler json_MetricEntry o1 o2 elapsed (mkRequest "POST" body)).
Proof.
  intros f. split; [|split].
  - unfold LogHandler, ParseLogEntry. cbn [Method Body negb].
    change ("POST" =? "POST")%string with true. cbn [negb]. keeps_go.
  - unfold LogBatchHandler, Decode_LogEntries. cbn [Method Body negb].
    change ("POST" =? "POST")%string with true. cbn [negb]. keeps_go.
  - unfold MetricsHandler, Decode_MetricEntry. cbn [Method Body negb].
    change ("POST" =? "POST")%string with true. cbn [negb]. keeps_go.
Qed.

Lemma POST_responds
    (json_LogEntry : string → string + LogEntry)
    (json_elements : string → string + list string)
    (json_MetricEntry : string → string + MetricEntry)
    o o1 o2 os now elapsed body :
  responds [200; 400]%Z (LogHandler json_LogEntry o now elapsed (mkRequest "POST" body)) ∧
  responds [200; 400]%Z
    (LogBatchHandler json_LogEntry json_elements os elapsed (mkRequest "POST" body)) ∧
  responds [200; 400]%Z
    (MetricsHandler json_MetricEntry o1 o2 elapsed (mkRequest "POST" body)).
Proof.
  split; [|split].
  - unfold LogHandler, ParseLogEntry. cbn [Method Body negb].
    change ("POST" =? "POST")%string with true. cbn [negb]. responds_go.
  - unfold LogBatchHandler, Decode_LogEntries. cbn [Method Body negb].
    change ("POST" =? "POST")%string with true. cbn [negb]. responds_go.
  - unfold MetricsHandler, Decode_MetricEntry. cbn [Method Body negb].
    change ("POST" =? "POST")%string with true. cbn [negb]. responds_go.
Qed.

Lemma snd_bind_ret {S A B} (m : M S A) (b : B) s :
  snd (bind m (fun _ => ret b) s) = snd (m s).
Proof. unfold bind, ret. by destruct (m s) as [[?|?|?] ?]. Qed.

(** X4. Served through the router of [main], the ingestion handlers only
    ever see POST requests: their own method checks never fire.  No request
    adds to a [Method Not Allowed] series of the request counter, and the
    responses the handlers write are 200 or 400; a request with another
    method is answered by the router. *)
Theorem ServeHTTP_guards_methods
    (json_LogEntry : string → string + LogEntry)
    (json_elements : string → string + list string)
    (json_MetricEntry : string → string + MetricEntry)
    (format_Time : Time → string) (env : Env) (req : Incoming) (w : World) :
  let res := ServeHTTP json_LogEntry json_elements json_MetricEntry format_Time
               env req w in
  (∀ h, Match (in_Method req) (in_Path req) routes false = Matched h →
        h ∈ [LogHandler_handler; LogBatchHandler_handler; MetricsHandler_handler] →
        in_Method req = "POST") ∧
  (∀ m e, sample (HTTPRequestsTotal (metrics (snd res))) [m; e; "Method Not Allowed"]
          = sample (HTTPRequestsTotal (metrics w)) [m; e; "Method Not Allowed"]) ∧
  (written (snd res) = written w ∨
   ∃ resp, written (snd res) = resp :: written w ∧ statusCode resp ∈ [200; 400]%Z).
Proof.
  intros res. split; [apply Match_ingestion|].
  assert (∀ res' : outcome unit * World, responded [200; 400]%Z w res' →
            written (snd res') = written w ∨
            ∃ resp, written (snd res') = resp :: written w ∧
                    statusCode resp ∈ [200; 400]%Z) as Hw.
  { intros res' [H|[H _]]; auto. }
  pose proof (fun m e =>
    POST_keeps_method_not_allowed json_LogEntry json_elements json_MetricEntry
      (env_order1 env) (env_order1 env) (env_order2 env) (env_orders env)
      (env_now env) (env_elapsed env) (in_Body req) m e) as Hk.
  destruct (POST_responds json_LogEntry json_elements json_MetricEntry
      (env_order1 env) (env_order1 env) (env_order2 env) (env_orders env)
      (env_now env) (env_elapsed env) (in_Body req)) as (Hr1 & Hr2 & Hr3).
  subst res. unfold ServeHTTP.
  destruct (Match _ _ routes false) as [h| |] eqn:HM; [|by auto..].
  destruct h.
  - split; [done|]. right. eexists. split; [reflexivity|in_list].
  - assert (in_Method req = "POST") as -> by (eapply Match_ingestion; [done|in_list]).
    rewrite snd_bind_ret. split; [|apply Hw, Hr1].
    intros m e. apply (Hk m e).
  - assert (in_Method req = "POST") as -> by (eapply Match_ingestion; [done|in_list]).
    rewrite snd_bind_ret. split; [|apply Hw, Hr2].
    intros m e. apply (Hk m e).
  - assert (in_Method req = "POST") as -> by (eapply Match_ingestion; [done|in_list]).
    rewrite snd_bind_ret. split; [|apply Hw, Hr3].
    intros m e. apply (Hk m e).
  - auto.
Qed.

(** ** The log normaliser *)

(** X5. [LogFromService] writes an entry at the level [getLogLevel] gives
    its level string (the two switches agree), at most one line and only
    when the logger's level enables it; it touches nothing else.  It ends
    the process on [fatal], panics on [panic] and otherwise returns nil:
    it has no error path. *)
Theorem LogFromService_level (o : GoMap.order) (entry : LogEntry) (w : World) :
  let res := LogFromService o entry w in
  snd res = mkWorld (metrics w) (reg w) (line_of o entry ++ sink w) (written w) ∧
  fst res = (if String.eqb (Level entry) "fatal" then Exit 1
             else if String.eqb (Level entry) "panic" then Panic (Message entry)
             else Ret None).
Proof.
  destruct w as [m rg sk wr]. unfold line_of.
  destruct (String.eqb_spec (Level entry) "fatal") as [Hf|Hf].
  { rewrite LogFromService_fatal by done. rewrite Hf. done. }
  destruct (String.eqb_spec (Level entry) "panic") as [Hp|Hp].
  { rewrite LogFromService_panic by done. rewrite Hp. done. }
  rewrite LogFromService_returns by done.
  by destruct (Enabled _ _).
Qed.

Lemma sample_Inc_ensure lvs (v : CounterVec) : incremented lvs v (Inc lvs (ensure_child 0%Q lvs v)).
Proof.
  unfold incremented, Inc, update, ensure_child, sample.
  destruct (children v !! lvs) as [x|] eqn:Hx; simpl; (split; [done|split]).
  - by rewrite lookup_alter_eq, Hx.
  - intros lvs' Hne. by rewrite lookup_alter_ne.
  - by rewrite lookup_alter_eq, lookup_insert_eq.
  - intros lvs' Hne. by rewrite lookup_alter_ne, lookup_insert_ne.
Qed.

Lemma LogFromService_returns_line o entry w :
  Level entry ≠ "fatal" → Level entry ≠ "panic" →
  LogFromService o entry w
  = (Ret None, mkWorld (metrics w) (reg w) (line_of o entry ++ sink w) (written w)).
Proof.
  intros Hf Hp. rewrite LogFromService_returns by done.
  unfold line_of. destruct w. by destruct (Enabled _ _).
Qed.

(** The state [LogHandler] leaves for an entry it accepts. *)
Lemma LogHandler_accepts_state
    (json_LogEntry : string → string + LogEntry) o now elapsed data decoded w :
  builtin_wf (metrics w) →
  json_LogEntry data = inr decoded →
  Level decoded ≠ "fatal" → Level decoded ≠ "panic" →
  let lvs := [ServiceName decoded; Level decoded] in
  LogHandler json_LogEntry o now elapsed (mkRequest "POST" (Some data)) w
  = (Ret tt,
     InFlight_Dec
       (http_recorded "POST" "/api/v1/logs" 200 elapsed
          (add_response
             (mkResponse 200 [("status", JStr "success");
                              ("message", JStr "Log entry processed successfully")])
             (set_metrics
                (fun m => set_LogsProcessed
                            (Inc lvs (ensure_child 0%Q lvs (LogsProcessed m))) m)
                (mkWorld
                   (set_LogsReceived
                      (Inc lvs (ensure_child 0%Q lvs (LogsReceived (metrics w))))
                      (metrics (InFlight_Inc w)))
                   (reg w) (line_of o decoded ++ sink w) (written w)))))).
Proof.
  intros (Ht & Hd & Hr & Hp & He) Hdec Hf Hpn lvs.
  pose proof (ParseLogEntry_decoded json_LogEntry now data decoded Hdec) as Hparse.
  set (entry := if IsZero (Timestamp decoded) then set_Timestamp now decoded
                else decoded) in Hparse.
  assert (LogFromService o entry = LogFromService o decoded) as HL.
  { subst entry. by destruct (IsZero (Timestamp decoded)). }
  assert (ServiceName entry = ServiceName decoded ∧ Level entry = Level decoded)
    as [Hsvc Hlvl].
  { subst entry. by destruct (IsZero (Timestamp decoded)). }
  unfold LogHandler. step_ret.
  unfold defer. cbn [Method Body String.eqb Ascii.eqb Bool.eqb negb].
  rewrite Hparse. cbv beta iota.
  step_ret. rewrite Hsvc, Hlvl, HL. fold lvs.
  erewrite bind_Ret by (apply counter_Inc_ok; simpl; by rewrite Hr).
  erewrite bind_Ret by (by apply LogFromService_returns_line). cbv beta iota.
  erewrite bind_Ret by (apply counter_Inc_ok; simpl; by rewrite Hp).
  step_ret.
  rewrite recordHTTPMetrics_ok; [done|].
  repeat split; simpl; rewrite ?ensure_child_names; done.
Qed.

(** X6. A single log entry whose level is neither [fatal] nor [panic] is
    accepted: the handler returns, answers 200 once, writes the entry's
    line (when the logger's level enables it), and raises by one the
    series of the received and of the processed counter labelled with the
    entry's service name and its level string as sent, and the request
    counter's series for the route with status [OK]. *)
Theorem LogHandler_accepts
    (json_LogEntry : string → string + LogEntry) (o : GoMap.order) (now : Time)
    (elapsed : Q) (data : string) (decoded : LogEntry) (w : World) :
  builtin_wf (metrics w) →
  json_LogEntry data = inr decoded →
  Level decoded ≠ "fatal" → Level decoded ≠ "panic" →
  let r := LogHandler json_LogEntry o now elapsed (mkRequest "POST" (Some data)) w in
  fst r = Ret tt ∧
  written (snd r)
  = mkResponse 200 [("status", JStr "success");
                    ("message", JStr "Log entry processed successfully")]
    :: written w ∧
  sink (snd r) = line_of o decoded ++ sink w ∧
  incremented (series_of decoded) (LogsReceived (metrics w))
    (LogsReceived (metrics (snd r))) ∧
  incremented (series_of decoded) (LogsProcessed (metrics w))
    (LogsProcessed (metrics (snd r))) ∧
  incremented ["POST"; "/api/v1/logs"; "OK"] (HTTPRequestsTotal (metrics w))
    (HTTPRequestsTotal (metrics (snd r))).
Proof.
  intros Hwf Hdec Hf Hp r. subst r.
  rewrite (LogHandler_accepts_state _ _ _ _ _ decoded) by done.
  cbn [fst snd]. split; [done|]. split; [done|]. split; [done|].
  repeat split; try apply sample_Inc_ensure.
Qed.

Lemma LogHandler_accepts_witness :
  let decoded := mkLogEntry "svc" "info" "started" 0%Z ∅ "" "" in
  let r := LogHandler sample_json_LogEntry' [] sample_now (1 # 100)
             (mkRequest "POST" (Some (entry_body "svc" "info" "started"))) init_world in
  fst r = Ret tt ∧
  written (snd r)
  = mkResponse 200 [("status", JStr "success");
                    ("message", JStr "Log entry processed successfully")]
    :: written init_world ∧
  sink (snd r) = line_of [] decoded ++ sink init_world ∧
  incremented (series_of decoded) (LogsReceived (metrics init_world))
    (LogsReceived (metrics (snd r))) ∧
  incremented (series_of decoded) (LogsProcessed (metrics init_world))
    (LogsProcessed (metrics (snd r))) ∧
  incremented ["POST"; "/api/v1/logs"; "OK"] (HTTPRequestsTotal (metrics init_world))
    (HTTPRequestsTotal (metrics (snd r))).
Proof.
  apply (LogHandler_accepts sample_json_LogEntry' [] sample_now (1 # 100)
           (entry_body "svc" "info" "started")
           (mkLogEntry "svc" "info" "started" 0%Z ∅ "" "") init_world).
  - apply builtin_wf_InitMetrics.
  - vm_compute. reflexivity.
  - discriminate.
  - discriminate.
Defined.

(** X7. An entry of level [debug] never reaches the log: the logger runs
    at level info.  The service still answers 200 and counts the entry as
    received and as processed. *)
Theorem LogHandler_debug_dropped
    (json_LogEntry : string → string + LogEntry) (o : GoMap.order) (now : Time)
    (elapsed : Q) (data : string) (decoded : LogEntry) (w : World) :
  builtin_wf (metrics w) →
  json_LogEntry data = inr decoded →
  Level decoded = "debug" →
  let r := LogHandler json_LogEntry o now elapsed (mkRequest "POST" (Some data)) w in
  fst r = Ret tt ∧
  sink (snd r) = sink w ∧
  written (snd r)
  = mkResponse 200 [("status", JStr "success");
                    ("message", JStr "Log entry processed successfully")]
    :: written w ∧
  incremented [ServiceName decoded; "debug"] (LogsReceived (metrics w))
    (LogsReceived (metrics (snd r))) ∧
  incremented [ServiceName decoded; "debug"] (LogsProcessed (metrics w))
    (LogsProcessed (metrics (snd r))).
Proof.
  intros Hwf Hdec Hl r. subst r.
  rewrite (LogHandler_accepts_state _ _ _ _ _ decoded) by (by rewrite ?Hl).
  cbn [fst snd]. unfold line_of. rewrite Hl.
  split; [done|]. split; [done|]. split; [done|].
  split; apply sample_Inc_ensure.
Qed.

Lemma LogHandler_debug_dropped_witness :
  let r := LogHandler sample_json_LogEntry' [] sample_now (1 # 100)
             (mkRequest "POST" (Some (entry_body "svc" "debug" "tick"))) init_world in
  fst r = Ret tt ∧
  sink (snd r) = sink init_world ∧
  written (snd r)
  = mkResponse 200 [("status", JStr "success");
                    ("message", JStr "Log entry processed successfully")]
    :: written init_world ∧
  incremented ["svc"; "debug"] (LogsReceived (metrics init_world))
    (LogsReceived (metrics (snd r))) ∧
  incremented ["svc"; "debug"] (LogsProcessed (metrics init_world))
    (LogsProcessed (metrics (snd r))).
Proof.
  apply (LogHandler_debug_dropped sample_json_LogEntry' [] sample_now (1 # 100)
           (entry_body "svc" "debug" "tick")
           (mkLogEntry "svc" "debug" "tick" 0%Z ∅ "" "") init_world).
  - apply builtin_wf_InitMetrics.
  - vm_compute. reflexivity.
  - reflexivity.
Defined.

(** X8. Level names are matched exactly.  An entry whose level is none of
    [debug], [info], [warn], [warning], [error], [fatal], [panic] (an
    upper-case [ERROR], a misspelling, the empty string) is logged at info,
    while the log counters keep the string as it was sent. *)
Theorem LogHandler_unknown_level_is_info
    (json_LogEntry : string → string + LogEntry) (o : GoMap.order) (now : Time)
    (elapsed : Q) (data : string) (decoded : LogEntry) (w : World) :
  builtin_wf (metrics w) →
  json_LogEntry data = inr decoded →
  Level decoded ∉ ["debug"; "info"; "warn"; "warning"; "error"; "fatal"; "panic"] →
  let r := LogHandler json_LogEntry o now elapsed (mkRequest "POST" (Some data)) w in
  getLogLevel (Level decoded) = InfoLevel ∧
  fst r = Ret tt ∧
  sink (snd r)
  = mkLine InfoLevel (Message decoded) (entry_fields o decoded) :: sink w ∧
  incremented [ServiceName decoded; Level decoded] (LogsReceived (metrics w))
    (LogsReceived (metrics (snd r))).
Proof.
  intros Hwf Hdec Hl r. subst r.
  assert (Level decoded ≠ "fatal" ∧ Level decoded ≠ "panic") as [Hf Hp].
  { split; intros E; apply Hl; rewrite E; in_list. }
  assert (getLogLevel (Level decoded) = InfoLevel) as Hinfo.
  { unfold getLogLevel.
    repeat match goal with
    | |- context [String.eqb (Level decoded) ?s] =>
        destruct (String.eqb_spec (Level decoded) s) as [E|_];
        [exfalso; apply Hl; rewrite E; in_list|]
    end. done. }
  rewrite (LogHandler_accepts_state _ _ _ _ _ decoded) by done.
  cbn [fst snd]. unfold line_of. rewrite Hinfo.
  split; [done|]. split; [done|]. split; [done|]. apply sample_Inc_ensure.
Qed.

Lemma LogHandler_unknown_level_is_info_witness :
  let decoded := mkLogEntry "svc" "ERROR" "disk full" 0%Z ∅ "" "" in
  let r := LogHandler sample_json_LogEntry' [] sample_now (1 # 100)
             (mkRequest "POST" (Some (entry_body "svc" "ERROR" "disk full")))
             init_world in
  getLogLevel (Level decoded) = InfoLevel ∧
  fst r = Ret tt ∧
  sink (snd r)
  = mkLine InfoLevel (Message decoded) (entry_fields [] decoded) :: sink init_world ∧
  incremented [ServiceName decoded; Level decoded] (LogsReceived (metrics init_world))
    (LogsReceived (metrics (snd r))).
Proof.
  apply (LogHandler_unknown_level_is_info sample_json_LogEntry' [] sample_now (1 # 100)
           (entry_body "svc" "ERROR" "disk full")
           (mkLogEntry "svc" "ERROR" "disk full" 0%Z ∅ "" "") init_world).
  - apply builtin_wf_InitMetrics.
  - vm_compute. reflexivity.
  - cbn [Level]. intros H.
    repeat (apply elem_of_cons in H as [H|H]; [discriminate H|]).
    by apply elem_of_nil in H.
Defined.

(** ** Batches *)

(** [LogBatch] runs over the entries it returns from, writing their lines,
    and goes on with the rest. *)
Lemma LogBatch_app os pre rest w :
  Forall returns pre →
  LogBatch os (pre ++ rest) w
  = LogBatch (drop (length pre) os) rest
      (mkWorld (metrics w) (reg w) (batch_lines os pre ++ sink w) (written w)).
Proof.
  intros Hall. revert os w. induction Hall as [|e pre [Hf Hp] _ IH]; intros os w.
  - simpl. rewrite drop_0. by destruct w.
  - cbn [app LogBatch length batch_lines].
    erewrite bind_Ret by (by apply LogFromService_returns_line). cbv beta iota.
    rewrite IH. cbn [metrics reg sink written].
    rewrite <- (assoc_L (++)). destruct os; simpl; by rewrite ?drop_nil.
Qed.

Lemma LogBatch_stops_panic os pre e post w :
  Forall returns pre → Level e = "panic" →
  LogBatch os (pre ++ e :: post) w
  = (Panic (Message e),
     mkWorld (metrics w) (reg w)
       (mkLine PanicLevel (Message e) (entry_fields (hd [] (drop (length pre) os)) e)
        :: batch_lines os pre ++ sink w) (written w)).
Proof.
  intros Hall Hl. rewrite LogBatch_app by done. cbn [LogBatch].
  erewrite bind_Panic by (by apply LogFromService_panic). done.
Qed.

Lemma LogBatch_stops_fatal os pre e post w :
  Forall returns pre → Level e = "fatal" →
  LogBatch os (pre ++ e :: post) w
  = (Exit 1,
     mkWorld (metrics w) (reg w)
       (mkLine FatalLevel (Message e) (entry_fields (hd [] (drop (length pre) os)) e)
        :: batch_lines os pre ++ sink w) (written w)).
Proof.
  intros Hall Hl. rewrite LogBatch_app by done. cbn [LogBatch].
  erewrite bind_Exit by (by apply LogFromService_fatal). done.
Qed.

Lemma LogBatch_returns_lines os entries w :
  Forall returns entries →
  LogBatch os entries w
  = (Ret None,
     mkWorld (metrics w) (reg w) (batch_lines os entries ++ sink w) (written w)).
Proof.
  intros Hall. rewrite <- (app_nil_r entries) at 1. by rewrite LogBatch_app.
Qed.

(** X9. [LogBatch] writes the entries in the order of the batch, one line
    for each entry whose level the logger enables, and returns nil when no
    entry is [fatal] or [panic].  It stops at the first entry that is: the
    entries before it have been written, the entries after it never are. *)
Theorem LogBatch_in_order (os : list GoMap.order) (pre post : list LogEntry)
    (e : LogEntry) (w : World) :
  Forall returns pre →
  LogBatch os pre w
  = (Ret None, mkWorld (metrics w) (reg w) (batch_lines os pre ++ sink w) (written w)) ∧
  (length (batch_lines os pre) ≤ length pre)%nat ∧
  let o := hd [] (drop (length pre) os) in
  let stopped :=
    mkWorld (metrics w) (reg w)
      (mkLine (getLogLevel (Level e)) (Message e) (entry_fields o e)
       :: batch_lines os pre ++ sink w) (written w) in
  (Level e = "panic" → LogBatch os (pre ++ e :: post) w = (Panic (Message e), stopped)) ∧
  (Level e = "fatal" → LogBatch os (pre ++ e :: post) w = (Exit 1, stopped)).
Proof.
  intros Hall. split; [|split; [|split]].
  - by apply LogBatch_returns_lines.
  - clear Hall. revert os. induction pre as [|x pre IH]; intros os; [done|].
    cbn [batch_lines length]. rewrite length_app. specialize (IH (tl os)).
    unfold line_of. destruct (Enabled _ _); simpl; lia.
  - intros Hl. rewrite LogBatch_stops_panic by done. by rewrite Hl.
  - intros Hl. rewrite LogBatch_stops_fatal by done. by rewrite Hl.
Qed.

Lemma LogBatch_in_order_witness :
  let pre := [mkLogEntry "svc" "info" "started" 0%Z ∅ "" "";
              mkLogEntry "svc" "debug" "tick" 0%Z ∅ "" ""] in
  let e := mkLogEntry "svc" "panic" "boom" 0%Z ∅ "" "" in
  let post := [mkLogEntry "svc" "info" "never written" 0%Z ∅ "" ""] in
  let w := init_world in
  LogBatch [] pre w
  = (Ret None, mkWorld (metrics w) (reg w) (batch_lines [] pre ++ sink w) (written w)) ∧
  (length (batch_lines [] pre) ≤ length pre)%nat ∧
  let o := hd [] (drop (length pre) []) in
  let stopped :=
    mkWorld (metrics w) (reg w)
      (mkLine (getLogLevel (Level e)) (Message e) (entry_fields o e)
       :: batch_lines [] pre ++ sink w) (written w) in
  (Level e = "panic" → LogBatch [] (pre ++ e :: post) w = (Panic (Message e), stopped)) ∧
  (Level e = "fatal" → LogBatch [] (pre ++ e :: post) w = (Exit 1, stopped)).
Proof.
  apply (LogBatch_in_order []
           [mkLogEntry "svc" "info" "started" 0%Z ∅ "" "";
            mkLogEntry "svc" "debug" "tick" 0%Z ∅ "" ""]
           [mkLogEntry "svc" "info" "never written" 0%Z ∅ "" ""]
           (mkLogEntry "svc" "panic" "boom" 0%Z ∅ "" "") init_world).
  repeat constructor; discriminate.
Defined.

Lemma counted_names entries (v : CounterVec) : label_names (counted entries v) = label_names v.
Proof.
  revert v. induction entries as [|e entries IH]; intros v; [done|].
  unfold counted in *. simpl. rewrite IH. simpl. apply ensure_child_names.
Qed.

(** The loop of [LogBatchHandler] counts every entry in both counters. *)
Lemma count_entries_counted entries w :
  builtin_wf (metrics w) →
  count_entries entries w
  = (Ret tt,
     set_metrics (fun m => set_LogsProcessed (counted entries (LogsProcessed m))
                             (set_LogsReceived (counted entries (LogsReceived m)) m)) w).
Proof.
  revert w. induction entries as [|e entries IH]; intros w Hwf.
  - by destruct w as [[] ? ? ?].
  - destruct Hwf as (Ht & Hd & Hr & Hp & He).
    cbn [count_entries].
    erewrite bind_Ret by (apply counter_Inc_ok; by rewrite Hr).
    erewrite bind_Ret by (apply counter_Inc_ok; simpl; by rewrite Hp).
    rewrite IH.
    + by destruct w as [[] ? ? ?].
    + repeat split; simpl; try done; by rewrite ensure_child_names.
Qed.

Lemma value_at_counted entries (v : CounterVec) lvs :
  (value_at (counted entries v) lvs
   == value_at v lvs + inject_Z (Z.of_nat (occurrences lvs entries)))%Q.
Proof.
  revert v. induction entries as [|e entries IH]; intros v.
  - unfold occurrences. simpl. unfold inject_Z. ring.
  - change (counted (e :: entries) v)
      with (counted entries (Inc (series_of e) (ensure_child 0%Q (series_of e) v))).
    rewrite IH. unfold occurrences. rewrite filter_cons.
    destruct (sample_Inc_ensure (series_of e) v) as (_ & Heq & Hne).
    unfold value_at. case_decide as Hs.
    + subst lvs. rewrite Heq. cbn [length default]. unfold id.
      rewrite Nat2Z.inj_succ. unfold Z.succ. rewrite inject_Z_plus. ring.
    + rewrite Hne by done. reflexivity.
Qed.

(** The state [LogBatchHandler] leaves for a batch it accepts. *)
Lemma LogBatchHandler_accepts_state
    (json_LogEntry : string → string + LogEntry)
    (json_elements : string → string + list string)
    os elapsed data elems entries w :
  builtin_wf (metrics w) →
  json_elements data = inr elems →
  decode_elements json_LogEntry elems = inr entries →
  Forall returns entries →
  LogBatchHandler json_LogEntry json_elements os elapsed (mkRequest "POST" (Some data)) w
  = (Ret tt,
     InFlight_Dec
       (http_recorded "POST" "/api/v1/logs/batch" 200 elapsed
          (add_response
             (mkResponse 200
                [("status", JStr "success");
                 ("message", JStr "Log batch processed successfully");
                 ("count", JNum (inject_Z (Z.of_nat (length entries))))])
             (set_metrics
                (fun m => set_LogsProcessed (counted entries (LogsProcessed m))
                            (set_LogsReceived (counted entries (LogsReceived m)) m))
                (mkWorld
                   (set_LogBatchSize
                      (inject_Z (Z.of_nat (length entries)) :: LogBatchSize (metrics w))
                      (metrics (InFlight_Inc w)))
                   (reg w) (batch_lines os entries ++ sink w) (written w)))))).
Proof.
  intros Hwf Hel Hdec Hall.
  unfold LogBatchHandler. step_ret.
  unfold defer, Decode_LogEntries. cbn [Method Body String.eqb Ascii.eqb Bool.eqb negb].
  rewrite Hel, Hdec.
  step_ret.
  erewrite bind_Ret by (by apply LogBatch_returns_lines). cbv beta iota.
  erewrite bind_Ret by (apply count_entries_counted; by destruct Hwf as (? & ? & ? & ? & ?)).
  step_ret.
  rewrite recordHTTPMetrics_ok; [done|].
  destruct Hwf as (? & ? & ? & ? & ?).
  repeat split; simpl; rewrite ?counted_names; done.
Qed.

(** X10. A batch that decodes and holds no [fatal] or [panic] entry is
    counted entry by entry: for every pair of service name and level, the
    received and the processed counter rise by the number of entries of the
    batch with that pair.  The batch size is observed once, and the
    entries' lines are written in order. *)
Theorem LogBatchHandler_counts_per_series
    (json_LogEntry : string → string + LogEntry)
    (json_elements : string → string + list string)
    (os : list GoMap.order) (elapsed : Q) (data : string) (elems : list string)
    (entries : list LogEntry) (w : World) :
  builtin_wf (metrics w) →
  json_elements data = inr elems →
  decode_elements json_LogEntry elems = inr entries →
  Forall returns entries →
  let r := LogBatchHandler json_LogEntry json_elements os elapsed
             (mkRequest "POST" (Some data)) w in
  fst r = Ret tt ∧
  (∀ lvs,
     (value_at (LogsReceived (metrics (snd r))) lvs
      == value_at (LogsReceived (metrics w)) lvs
         + inject_Z (Z.of_nat (occurrences lvs entries)))%Q ∧
     (value_at (LogsProcessed (metrics (snd r))) lvs
      == value_at (LogsProcessed (metrics w)) lvs
         + inject_Z (Z.of_nat (occurrences lvs entries)))%Q) ∧
  LogBatchSize (metrics (snd r))
  = inject_Z (Z.of_nat (length entries)) :: LogBatchSize (metrics w) ∧
  sink (snd r) = batch_lines os entries ++ sink w.
Proof.
  intros Hwf Hel Hdec Hall r. subst r.
  rewrite (LogBatchHandler_accepts_state _ _ _ _ _ elems entries) by done.
  cbn [fst snd]. split; [done|]. split; [|done].
  intros lvs. split; apply value_at_counted.
Qed.

Lemma LogBatchHandler_counts_per_series_witness :
  let entries := [zero_LogEntry; zero_LogEntry] in
  let w := init_world in
  let r := LogBatchHandler sample_json_LogEntry sample_json_elements [] (1 # 100)
             (mkRequest "POST" (Some "[{},{}]")) w in
  fst r = Ret tt ∧
  (∀ lvs,
     (value_at (LogsReceived (metrics (snd r))) lvs
      == value_at (LogsReceived (metrics w)) lvs
         + inject_Z (Z.of_nat (occurrences lvs entries)))%Q ∧
     (value_at (LogsProcessed (metrics (snd r))) lvs
      == value_at (LogsProcessed (metrics w)) lvs
         + inject_Z (Z.of_nat (occurrences lvs entries)))%Q) ∧
  LogBatchSize (metrics (snd r))
  = inject_Z (Z.of_nat (length entries)) :: LogBatchSize (metrics w) ∧
  sink (snd r) = batch_lines [] entries ++ sink w.
Proof.
  apply (LogBatchHandler_counts_per_series sample_json_LogEntry sample_json_elements
           [] (1 # 100) "[{},{}]" ["{}"; "{}"] [zero_LogEntry; zero_LogEntry] init_world).
  - apply builtin_wf_InitMetrics.
  - reflexivity.
  - reflexivity.
  - repeat constructor; discriminate.
Defined.

(** X11. A batch is not all-or-nothing.  When its first [panic] entry is
    reached the handler panics: the entries before it are in the log and the
    batch size has been observed, but no entry has been counted as received
    or processed, the request is not counted and no response is written. *)
Theorem LogBatchHandler_stops_at_panic
    (json_LogEntry : string → string + LogEntry)
    (json_elements : string → string + list string)
    (os : list GoMap.order) (elapsed : Q) (data : string) (elems : list string)
    (pre post : list LogEntry) (e : LogEntry) (w : World) :
  json_elements data = inr elems →
  decode_elements json_LogEntry elems = inr (pre ++ e :: post) →
  Forall returns pre →
  Level e = "panic" →
  let r := LogBatchHandler json_LogEntry json_elements os elapsed
             (mkRequest "POST" (Some data)) w in
  fst r = Panic (Message e) ∧
  sink (snd r)
  = mkLine PanicLevel (Message e) (entry_fields (hd [] (drop (length pre) os)) e)
    :: batch_lines os pre ++ sink w ∧
  LogBatchSize (metrics (snd r))
  = inject_Z (Z.of_nat (length (pre ++ e :: post))) :: LogBatchSize (metrics w) ∧
  LogsReceived (metrics (snd r)) = LogsReceived (metrics w) ∧
  LogsProcessed (metrics (snd r)) = LogsProcessed (metrics w) ∧
  HTTPRequestsTotal (metrics (snd r)) = HTTPRequestsTotal (metrics w) ∧
  written (snd r) = written w.
Proof.
  intros Hel Hdec Hall Hl r. subst r.
  unfold LogBatchHandler. step_ret.
  unfold defer, Decode_LogEntries. cbn [Method Body String.eqb Ascii.eqb Bool.eqb negb].
  rewrite Hel, Hdec.
  step_ret.
  erewrite bind_Panic by (by apply LogBatch_stops_panic).
  done.
Qed.

Lemma LogBatchHandler_stops_at_panic_witness :
  let pre := [mkLogEntry "svc" "info" "started" 0%Z ∅ "" ""] in
  let e := mkLogEntry "svc" "panic" "boom" 0%Z ∅ "" "" in
  let post := [mkLogEntry "svc" "debug" "tick" 0%Z ∅ "" ""] in
  let w := init_world in
  let r := LogBatchHandler sample_json_LogEntry' sample_json_elements' [] (1 # 100)
             (mkRequest "POST" (Some sample_batch_body)) w in
  fst r = Panic (Message e) ∧
  sink (snd r)
  = mkLine PanicLevel (Message e) (entry_fields (hd [] (drop (length pre) [])) e)
    :: batch_lines [] pre ++ sink w ∧
  LogBatchSize (metrics (snd r))
  = inject_Z (Z.of_nat (length (pre ++ e :: post))) :: LogBatchSize (metrics w) ∧
  LogsReceived (metrics (snd r)) = LogsReceived (metrics w) ∧
  LogsProcessed (metrics (snd r)) = LogsProcessed (metrics w) ∧
  HTTPRequestsTotal (metrics (snd r)) = HTTPRequestsTotal (metrics w) ∧
  written (snd r) = written w.
Proof.
  apply (LogBatchHandler_stops_at_panic sample_json_LogEntry' sample_json_elements'
           [] (1 # 100) sample_batch_body
           [entry_body "svc" "info" "started"; entry_body "svc" "panic" "boom";
            entry_body "svc" "debug" "tick"]
           [mkLogEntry "svc" "info" "started" 0%Z ∅ "" ""]
           [mkLogEntry "svc" "debug" "tick" 0%Z ∅ "" ""]
           (mkLogEntry "svc" "panic" "boom" 0%Z ∅ "" "") init_world).
  - vm_compute. reflexivity.
  - vm_compute. reflexivity.
  - repeat constructor; discriminate.
  - reflexivity.
Defined.

(** ** Timestamps *)

(** X12. The timestamp of an entry is never read: [LogFromService] does
    the same whatever it is, so the time [ParseLogEntry] fills in for a
    missing timestamp changes nothing [LogHandler] does. *)
Theorem LogHandler_ignores_timestamps
    (json_LogEntry : string → string + LogEntry) (o : GoMap.order)
    (now now' : Time) (elapsed : Q) (r : Request) (entry : LogEntry) (w : World) :
  LogFromService o (set_Timestamp now entry) w = LogFromService o entry w ∧
  LogHandler json_LogEntry o now elapsed r w
  = LogHandler json_LogEntry o now' elapsed r w.
Proof.
  split; [done|].
  unfold LogHandler, ParseLogEntry.
  destruct (negb _); [done|]. destruct (Body r) as [body|]; [|done].
  destruct (json_LogEntry body) as [err|e]; [done|].
  destruct (IsZero (Timestamp e)); done.
Qed.

(** ** The gauge and histogram recorders, case by case *)

Lemma RecordCustomGauge_existing o1 o2 name labels value w g :
  CustomGauges (metrics w) !! name = Some g →
  RecordCustomGauge o1 o2 name labels value w
  = match WithLabelValues 0%Q (labelValues o2 labels) g with
    | inl msg => (Panic msg, w)
    | inr g1 => (Ret tt, with_gauge name (Set_ value (labelValues o2 labels) g1) w)
    end.
Proof.
  intros Hg. unfold RecordCustomGauge.
  step_ret. simpl. rewrite Hg.
  step_ret.
  destruct (WithLabelValues _ _ g) as [msg|g1]; done.
Qed.

Lemma RecordCustomGauge_absent o1 o2 name labels value w :
  CustomGauges (metrics w) !! name = None →
  RecordCustomGauge o1 o2 name labels value w
  = match NewVec (reg w) ("custom_" +:+ name) (labelNames o1 labels) with
    | inl msg => (Panic msg, w)
    | inr (g, r) =>
        RecordCustomGauge o1 o2 name labels value (with_gauge name g (set_reg r w))
    end.
Proof.
  intros Hg. unfold RecordCustomGauge at 1.
  step_ret. simpl. rewrite Hg.
  unfold promauto_NewVec at 1.
  destruct (NewVec (reg w) _ _) as [msg|[g r]] eqn:Hn.
  { unfold bind. by rewrite Hn. }
  erewrite (bind_Ret (bind _ _)); cycle 1.
  { unfold bind at 1. rewrite Hn. unfold store_gauge, bind, modify, ret. reflexivity. }
  symmetry. erewrite RecordCustomGauge_existing by apply lookup_insert_eq.
  destruct (WithLabelValues _ _ g) as [msg|g1]; [done|].
  step_ret. by destruct w as [[] ? ? ?].
Qed.

Lemma RecordCustomHistogram_existing o1 o2 name labels value w h :
  CustomHistograms (metrics w) !! name = Some h →
  RecordCustomHistogram o1 o2 name labels value w
  = match WithLabelValues [] (labelValues o2 labels) h with
    | inl msg => (Panic msg, w)
    | inr h1 => (Ret tt, with_histogram name (Observe value (labelValues o2 labels) h1) w)
    end.
Proof.
  intros Hh. unfold RecordCustomHistogram.
  step_ret. simpl. rewrite Hh.
  step_ret.
  destruct (WithLabelValues _ _ h) as [msg|h1]; done.
Qed.

Lemma RecordCustomHistogram_absent o1 o2 name labels value w :
  CustomHistograms (metrics w) !! name = None →
  RecordCustomHistogram o1 o2 name labels value w
  = match NewVec (reg w) ("custom_" +:+ name) (labelNames o1 labels) with
    | inl msg => (Panic msg, w)
    | inr (h, r) =>
        RecordCustomHistogram o1 o2 name labels value
          (with_histogram name h (set_reg r w))
    end.
Proof.
  intros Hh. unfold RecordCustomHistogram at 1.
  step_ret. simpl. rewrite Hh.
  unfold promauto_NewVec at 1.
  destruct (NewVec (reg w) _ _) as [msg|[h r]] eqn:Hn.
  { unfold bind. by rewrite Hn. }
  erewrite (bind_Ret (bind _ _)); cycle 1.
  { unfold bind at 1. rewrite Hn. unfold store_histogram, bind, modify, ret. reflexivity. }
  symmetry. erewrite RecordCustomHistogram_existing by apply lookup_insert_eq.
  destruct (WithLabelValues _ _ h) as [msg|h1]; [done|].
  step_ret. by destruct w as [[] ? ? ?].
Qed.

Lemma sample_update_eq {V} (f : V → V) lvs (v : Vec V) x :
  sample v lvs = Some x → sample (update f lvs v) lvs = Some (f x).
Proof. unfold sample, update. simpl. intros H. by rewrite lookup_alter_eq, H. Qed.

Lemma sample_update_ne {V} (f : V → V) lvs lvs' (v : Vec V) :
  lvs' ≠ lvs → sample (update f lvs v) lvs' = sample v lvs'.
Proof. unfold sample, update. simpl. intros H. by rewrite lookup_alter_ne. Qed.

Lemma sample_ensure_child_ne {V} (zero : V) lvs lvs' (v : Vec V) :
  lvs' ≠ lvs → sample (ensure_child zero lvs v) lvs' = sample v lvs'.
Proof.
  unfold sample, ensure_child. intros H.
  destruct (children v !! lvs); simpl; [done|]. by rewrite lookup_insert_ne.
Qed.

(** X13. A gauge submission to an existing family whose number of label
    values fits the family's schema sets the sample for these values to
    the submitted value, whatever it was before and whatever the sign of
    the value; the other samples and the other families stay as they are.
    When the number does not fit, the call panics and changes nothing. *)
Theorem RecordCustomGauge_sets
    (o1 o2 : GoMap.order) (name : string) (labels : gmap string string)
    (value : Q) (w : World) (g : GaugeVec) :
  CustomGauges (metrics w) !! name = Some g →
  let lvs := labelValues o2 labels in
  let r := RecordCustomGauge o1 o2 name labels value w in
  (length lvs ≠ length (label_names g) →
   r = (Panic "inconsistent label cardinality", w)) ∧
  (length lvs = length (label_names g) →
   fst r = Ret tt ∧
   snapshot_gauge (snd r) name lvs = Some value ∧
   (∀ lvs', lvs' ≠ lvs → snapshot_gauge (snd r) name lvs' = snapshot_gauge w name lvs') ∧
   (∀ n, n ≠ name → CustomGauges (metrics (snd r)) !! n = CustomGauges (metrics w) !! n) ∧
   (label_names <$> CustomGauges (metrics (snd r)) !! name) = Some (label_names g) ∧
   CustomCounters (metrics (snd r)) = CustomCounters (metrics w) ∧
   CustomHistograms (metrics (snd r)) = CustomHistograms (metrics w)).
Proof.
  intros Hg lvs r. subst r.
  rewrite (RecordCustomGauge_existing _ _ _ _ _ _ g Hg). fold lvs. split.
  - intros Hne. by rewrite WithLabelValues_cardinality.
  - intros Heq. rewrite WithLabelValues_ok by done. cbn [fst snd].
    unfold snapshot_gauge. simpl. rewrite lookup_insert_eq, Hg.
    split; [done|]. split; [|split; [|split; [|split; [|done]]]].
    + unfold Set_. erewrite sample_update_eq by apply sample_ensure_child_eq. done.
    + intros lvs' Hne. unfold Set_.
      by rewrite sample_update_ne, sample_ensure_child_ne.
    + intros n Hn. by rewrite lookup_insert_ne.
    + simpl. by rewrite ensure_child_names.
Qed.

Lemma RecordCustomGauge_sets_witness :
  let w := snd (RecordCustomGauge [] [] "temp" {["room" := "a"]} 21 init_world) in
  let g := mkVec ["service_name"; "room"] {[ [""; "a"] := 21%Q ]} in
  let lvs := labelValues [] {["room" := "a"]} in
  let r := RecordCustomGauge [] [] "temp" {["room" := "a"]} (-4) w in
  (length lvs ≠ length (label_names g) →
   r = (Panic "inconsistent label cardinality", w)) ∧
  (length lvs = length (label_names g) →
   fst r = Ret tt ∧
   snapshot_gauge (snd r) "temp" lvs = Some (-4)%Q ∧
   (∀ lvs', lvs' ≠ lvs → snapshot_gauge (snd r) "temp" lvs' = snapshot_gauge w "temp" lvs') ∧
   (∀ n, n ≠ "temp" → CustomGauges (metrics (snd r)) !! n = CustomGauges (metrics w) !! n) ∧
   (label_names <$> CustomGauges (metrics (snd r)) !! "temp") = Some (label_names g) ∧
   CustomCounters (metrics (snd r)) = CustomCounters (metrics w) ∧
   CustomHistograms (metrics (snd r)) = CustomHistograms (metrics w)).
Proof.
  apply (RecordCustomGauge_sets [] [] "temp" {["room" := "a"]} (-4)
           (snd (RecordCustomGauge [] [] "temp" {["room" := "a"]} 21 init_world))
           (mkVec ["service_name"; "room"] {[ [""; "a"] := 21%Q ]})).
  vm_compute. reflexivity.
Defined.



(** ** Metric names and kinds *)


(** What a recorder call does to the registry and to the names of the
    stored families: nothing, or it registers its name, until then free,
    and stores a family of its kind under it. *)
Lemma record_names k o1 o2 name labels value w :
  let w' := snd (record k o1 o2 name labels value w) in
  (reg w' = reg w ∧ ∀ k', family_names k' w' = family_names k' w) ∨
  (("custom_" +:+ name ∉ reg w) ∧
   reg w' = {["custom_" +:+ name]} ∪ reg w ∧
   family_names k w' = {[name]} ∪ family_names k w ∧
   ∀ k', k' ≠ k → family_names k' w' = family_names k' w).
Proof.
  assert (∀ (V : Type) (m : gmap string V) (x : V), is_Some (m !! name) →
            dom (<[name := x]> m) = dom m) as Hdom.
  { intros V m x Hs. rewrite dom_insert_L.
    by apply subseteq_union_1_L, singleton_subseteq_l, elem_of_dom. }
  destruct k; simpl.
  - assert (∀ w c, CustomCounters (metrics w) !! name = Some c →
              let w' := snd (RecordCustomCounter o1 o2 name labels value w) in
              reg w' = reg w ∧ ∀ k', family_names k' w' = family_names k' w) as Hex.
    { intros w0 c Hc. rewrite (RecordCustomCounter_existing _ _ _ _ _ _ c Hc).
      destruct (WithLabelValues _ _ c) as [msg|c1]; [done|].
      destruct (Add value _ c1) as [msg|c2]; simpl; (split; [done|]);
        intros []; simpl; rewrite ?Hdom; rewrite ?lookup_insert_eq; eauto. }
    destruct (CustomCounters (metrics w) !! name) as [c|] eqn:Hc; [left; by eapply Hex|].
    rewrite (RecordCustomCounter_absent _ _ _ _ _ _ Hc). unfold NewVec.
    case_decide; [|by left]. case_decide; [by left|]. right. cbv beta iota.
    edestruct (Hex (with_counter name (mkVec (labelNames o1 labels) ∅)
                      (set_reg ({["custom_" +:+ name]} ∪ reg w) w))) as [Hr Hf].
    { simpl. apply lookup_insert_eq. }
    split; [done|]. split; [by rewrite Hr|]. split.
    + pose proof (Hf Counter) as HfK. simpl in HfK. rewrite HfK. by rewrite dom_insert_L.
    + intros k' Hk. rewrite (Hf k'). by destruct k'.
  - assert (∀ w g, CustomGauges (metrics w) !! name = Some g →
              let w' := snd (RecordCustomGauge o1 o2 name labels value w) in
              reg w' = reg w ∧ ∀ k', family_names k' w' = family_names k' w) as Hex.
    { intros w0 g Hg. rewrite (RecordCustomGauge_existing _ _ _ _ _ _ g Hg).
      destruct (WithLabelValues _ _ g) as [msg|g1]; [done|]. simpl. split; [done|].
      intros []; simpl; rewrite ?Hdom; eauto. }
    destruct (CustomGauges (metrics w) !! name) as [g|] eqn:Hg; [left; by eapply Hex|].
    rewrite (RecordCustomGauge_absent _ _ _ _ _ _ Hg). unfold NewVec.
    case_decide; [|by left]. case_decide; [by left|]. right. cbv beta iota.
    edestruct (Hex (with_gauge name (mkVec (labelNames o1 labels) ∅)
                      (set_reg ({["custom_" +:+ name]} ∪ reg w) w))) as [Hr Hf].
    { simpl. apply lookup_insert_eq. }
    split; [done|]. split; [by rewrite Hr|]. split.
    + pose proof (Hf Gauge) as HfK. simpl in HfK. rewrite HfK. by rewrite dom_insert_L.
    + intros k' Hk. rewrite (Hf k'). by destruct k'.
  - assert (∀ w h, CustomHistograms (metrics w) !! name = Some h →
              let w' := snd (RecordCustomHistogram o1 o2 name labels value w) in
              reg w' = reg w ∧ ∀ k', family_names k' w' = family_names k' w) as Hex.
    { intros w0 h Hh. rewrite (RecordCustomHistogram_existing _ _ _ _ _ _ h Hh).
      destruct (WithLabelValues _ _ h) as [msg|h1]; [done|]. simpl. split; [done|].
      intros []; simpl; rewrite ?Hdom; eauto. }
    destruct (CustomHistograms (metrics w) !! name) as [h|] eqn:Hh; [left; by eapply Hex|].
    rewrite (RecordCustomHistogram_absent _ _ _ _ _ _ Hh). unfold NewVec.
    case_decide; [|by left]. case_decide; [by left|]. right. cbv beta iota.
    edestruct (Hex (with_histogram name (mkVec (labelNames o1 labels) ∅)
                      (set_reg ({["custom_" +:+ name]} ∪ reg w) w))) as [Hr Hf].
    { simpl. apply lookup_insert_eq. }
    split; [done|]. split; [by rewrite Hr|]. split.
    + pose proof (Hf Histogram) as HfK. simpl in HfK. rewrite HfK. by rewrite dom_insert_L.
    + intros k' Hk. rewrite (Hf k'). by destruct k'.
Qed.

Lemma kinds_invariant_init : families_registered init_world ∧ one_kind_per_name init_world.
Proof.
  assert (∀ k name, ¬ has_family k init_world name) as Hno.
  { intros [] name; unfold has_family; simpl; rewrite dom_empty_L; apply not_elem_of_empty. }
  split; [intros k name H|intros k k' name H]; by apply Hno in H.
Qed.

Lemma kinds_invariant_step c w :
  families_registered w ∧ one_kind_per_name w →
  families_registered (snd (run_call c w)) ∧ one_kind_per_name (snd (run_call c w)).
Proof.
  intros [Hreg Hone]. unfold run_call.
  destruct (record_names (rc_kind c) (rc_names_order c) (rc_values_order c) (rc_name c)
              (rc_labels c) (rc_value c) w) as [[Hr Hf]|(Hfree & Hr & Hk & Hf)].
  - split.
    + intros k name. unfold has_family. rewrite Hf, Hr. apply Hreg.
    + intros k k' name. unfold has_family. rewrite !Hf. apply Hone.
  - assert (∀ k name, has_family k (snd (record (rc_kind c) (rc_names_order c)
                        (rc_values_order c) (rc_name c) (rc_labels c) (rc_value c) w)) name →
              (k = rc_kind c ∧ name = rc_name c) ∨ has_family k w name) as Hcase.
    { intros k name. unfold has_family.
      destruct (decide (k = rc_kind c)) as [->|Hne].
      - rewrite Hk, elem_of_union, elem_of_singleton. intros [->|H]; auto.
      - rewrite (Hf k Hne). auto. }
    split.
    + intros k name [[-> ->]|H]%Hcase; rewrite Hr, elem_of_union, elem_of_singleton;
        [by left|right; by apply (Hreg k)].
    + intros k k' name [[-> ->]|H]%Hcase [[-> E]|H']%Hcase; try done.
      * by destruct Hfree; apply (Hreg k').
      * subst name. by destruct Hfree; apply (Hreg k).
      * by apply (Hone _ _ name).
Qed.

Lemma kinds_invariant cs :
  families_registered (after_recorder_calls init_world cs) ∧
  one_kind_per_name (after_recorder_calls init_world cs).
Proof.
  unfold after_recorder_calls.
  induction cs as [|c cs IH] using rev_ind; [apply kinds_invariant_init|].
  rewrite foldl_app. simpl. by apply kinds_invariant_step.
Qed.

(** A recorder call whose name is registered while no family of its kind
    is stored under it panics in the registration and changes nothing. *)
Lemma record_taken k o1 o2 name labels value w :
  "custom_" +:+ name ∈ reg w → name ∉ family_names k w →
  ∃ msg, record k o1 o2 name labels value w = (Panic msg, w).
Proof.
  intros Hin Hno. destruct k; simpl in *; apply not_elem_of_dom in Hno.
  - rewrite (RecordCustomCounter_absent _ _ _ _ _ _ Hno). unfold NewVec.
    case_decide; [|by eexists]. case_decide; [by eexists|done].
  - rewrite (RecordCustomGauge_absent _ _ _ _ _ _ Hno). unfold NewVec.
    case_decide; [|by eexists]. case_decide; [by eexists|done].
  - rewrite (RecordCustomHistogram_absent _ _ _ _ _ _ Hno). unfold NewVec.
    case_decide; [|by eexists]. case_decide; [by eexists|done].
Qed.

(** X15. A metric name belongs to the kind that used it first.  After any
    sequence of recorder calls on a fresh process every stored family is
    registered under [custom_] and its name, and no name has families of
    two kinds: the three kinds share one registry, so a call of another
    kind under a name that is taken panics in the registration and
    changes nothing, every time. *)
Theorem metric_name_has_one_kind (cs : list recorder_call) (c : recorder_call) :
  let w := after_recorder_calls init_world cs in
  families_registered w ∧
  one_kind_per_name w ∧
  (∀ k, has_family k w (rc_name c) → k ≠ rc_kind c →
        ∃ msg, run_call c w = (Panic msg, w)).
Proof.
  intros w. destruct (kinds_invariant cs) as [Hreg Hone]. fold w in Hreg, Hone.
  split; [done|]. split; [done|].
  intros k Hk Hne. apply record_taken; [by apply (Hreg k)|].
  intros Hc. apply Hne. by apply (Hone _ _ (rc_name c)).
Qed.




(** ** The metrics endpoint *)

Lemma maintains_bind {S A B} (P : S → Prop) (m : M S A) (k : A → M S B) :
  maintains P m → (∀ a, maintains P (k a)) → maintains P (bind m k).
Proof.
  intros Hm Hk s Hs. unfold bind. specialize (Hm s Hs).
  destruct (m s) as [[a|msg|c] s']; simpl in *; [by apply Hk|done..].
Qed.

Lemma maintains_defer {S A} (P : S → Prop) (d : S → S) (body : M S A) :
  (∀ s, P s → P (d s)) → maintains P body → maintains P (defer d body).
Proof.
  intros Hd Hb s Hs. unfold defer. specialize (Hb s Hs).
  destruct (body s) as [[a|msg|c] s']; simpl in *; auto.
Qed.

Lemma maintains_keeps {A} (m : M World A) :
  keeps custom_families m → maintains no_custom_family m.
Proof.
  intros Hk w (Hc & Hg & Hh). specialize (Hk w). unfold custom_families in Hk.
  injection Hk as H1 H2 H3. unfold no_custom_family. by rewrite H1, H2, H3.
Qed.

Lemma maintains_RecordMetric o1 o2 entry :
  maintains no_custom_family (RecordMetric o1 o2 entry).
Proof. intros w Hw. by rewrite (proj1 (RecordMetric_no_family o1 o2 entry w Hw)). Qed.

Lemma MetricsHandler_maintains
    (json_MetricEntry : string → string + MetricEntry) o1 o2 elapsed r :
  maintains no_custom_family (MetricsHandler json_MetricEntry o1 o2 elapsed r).
Proof.
  unfold MetricsHandler.
  apply maintains_bind; [apply maintains_keeps; keeps_block|]. intros _.
  apply maintains_defer; [by intros [[] ? ? ?]|].
  destruct (negb _); [apply maintains_keeps; keeps_go|].
  destruct (Decode_MetricEntry _ r) as [err|entry]; [apply maintains_keeps; keeps_go|].
  apply maintains_bind; [apply maintains_RecordMetric|]. intros _.
  apply maintains_keeps. keeps_go.
Qed.

(** X17. Through the HTTP API no custom metric is ever recorded.  Every
    request the server handles keeps the three maps of custom families
    empty and the registry as it is; and a well-formed submission of kind
    counter, gauge or histogram makes [MetricsHandler] panic in the
    registration of the family ([service_name] is a label name twice):
    nothing is answered and the request is not counted. *)
Theorem HTTP_never_records_a_metric
    (json_LogEntry : string → string + LogEntry)
    (json_elements : string → string + list string)
    (json_MetricEntry : string → string + MetricEntry)
    (format_Time : Time → string) (env : Env) (req : Incoming)
    (o1 o2 : GoMap.order) (elapsed : Q) (data : string) (entry : MetricEntry)
    (w : World) :
  no_custom_family w →
  no_custom_family
    (snd (ServeHTTP json_LogEntry json_elements json_MetricEntry format_Time env req w)) ∧
  (json_MetricEntry data = inr entry →
   MetricType entry ∈ ["counter"; "gauge"; "histogram"] →
   let r := MetricsHandler json_MetricEntry o1 o2 elapsed
              (mkRequest "POST" (Some data)) w in
   (∃ msg, fst r = Panic msg) ∧
   written (snd r) = written w ∧
   reg (snd r) = reg w ∧
   HTTPRequestsTotal (metrics (snd r)) = HTTPRequestsTotal (metrics w) ∧
   HTTPRequestDuration (metrics (snd r)) = HTTPRequestDuration (metrics w)).
Proof.
  intros Hw. split.
  - unfold ServeHTTP.
    destruct (Match _ _ routes false) as [[]| |]; try done; rewrite ?snd_bind_ret.
    + revert w Hw. apply maintains_keeps. unfold LogHandler, ParseLogEntry. keeps_go.
    + revert w Hw. apply maintains_keeps. unfold LogBatchHandler. keeps_go.
    + by apply MetricsHandler_maintains.
  - intros Hdec Hk r. subst r.
    unfold MetricsHandler. step_ret.
    unfold defer, Decode_MetricEntry.
    cbn [Method Body String.eqb Ascii.eqb Bool.eqb negb]. rewrite Hdec.
    assert (no_custom_family (InFlight_Inc w)) as Hw' by (by destruct w as [[] ? ? ?]).
    destruct (RecordMetric_no_family o1 o2 entry _ Hw') as [Hsnd Hfst].
    specialize (Hfst Hk).
    erewrite bind_Panic; cycle 1.
    { destruct (RecordMetric o1 o2 entry (InFlight_Inc w)) as [res w1].
      simpl in *. subst. reflexivity. }
    simpl. eauto 10.
Qed.

Lemma HTTP_never_records_a_metric_witness :
  let entry := mkMetricEntry "svc" "hits" "counter" 1 None in
  no_custom_family
    (snd (ServeHTTP sample_json_LogEntry sample_json_elements sample_json_MetricEntry'
            (fun _ => "2025-10-30T00:00:00Z") (mkEnv sample_now (1 # 100) [] [] [])
            (mkIncoming "POST" "/api/v1/metrics" (Some sample_metric_body)) init_world)) ∧
  (sample_json_MetricEntry' sample_metric_body = inr entry →
   MetricType entry ∈ ["counter"; "gauge"; "histogram"] →
   let r := MetricsHandler sample_json_MetricEntry' [] [] (1 # 100)
              (mkRequest "POST" (Some sample_metric_body)) init_world in
   (∃ msg, fst r = Panic msg) ∧
   written (snd r) = written init_world ∧
   reg (snd r) = reg init_world ∧
   HTTPRequestsTotal (metrics (snd r)) = HTTPRequestsTotal (metrics init_world) ∧
   HTTPRequestDuration (metrics (snd r)) = HTTPRequestDuration (metrics init_world)).
Proof.
  apply (HTTP_never_records_a_metric sample_json_LogEntry sample_json_elements
           sample_json_MetricEntry' (fun _ => "2025-10-30T00:00:00Z")
           (mkEnv sample_now (1 # 100) [] [] [])
           (mkIncoming "POST" "/api/v1/metrics" (Some sample_metric_body))
           [] [] (1 # 100) sample_metric_body
           (mkMetricEntry "svc" "hits" "counter" 1 None) init_world).
  repeat split.
Defined.

(** ** Concurrent callers of the gauge and histogram recorders *)


Lemma RecordCustomHistogram_task_refines o1 o2 name labels value w :
  run_task (RecordCustomHistogram_task o1 o2 name labels value) w
  = RecordCustomHistogram o1 o2 name labels value w.
Proof.
  destruct (CustomHistograms (metrics w) !! name) as [h|] eqn:Hh.
  - rewrite (RecordCustomHistogram_existing _ _ _ _ _ _ h Hh).
    unfold RecordCustomHistogram_task, stmt, run_task, gets, ret, bind. rewrite Hh.
    destruct (WithLabelValues _ _ h) as [msg|h1]; simpl; done.
  - rewrite (RecordCustomHistogram_absent _ _ _ _ _ _ Hh).
    unfold RecordCustomHistogram_task, stmt, run_task, gets, ret, bind. rewrite Hh.
    unfold promauto_NewVec.
    destruct (NewVec (reg w) _ _) as [msg|[h0 r0]]; simpl; [done|].
    erewrite RecordCustomHistogram_existing by apply lookup_insert_eq.
    destruct (WithLabelValues _ _ h0) as [msg|h1]; simpl; done.
Qed.







(** ** The mutex *)




(** ** Requests that are not ingestion *)

(** X20. Only the three ingestion routes touch the metrics.  A request
    the router hands to no handler (404, 405), a scrape of [/metrics] and
    a health check leave the metrics, the registry and the log as they are:
    they are not counted as requests, nor in flight.  A health check is a
    GET of [/] or [/api/v1/health], and answers 200 with the status
    healthy. *)
Theorem ServeHTTP_other_requests
    (json_LogEntry : string → string + LogEntry)
    (json_elements : string → string + list string)
    (json_MetricEntry : string → string + MetricEntry)
    (format_Time : Time → string) (env : Env) (req : Incoming) (w : World) :
  let res := ServeHTTP json_LogEntry json_elements json_MetricEntry format_Time
               env req w in
  let routed := Match (in_Method req) (in_Path req) routes false in
  (routed ∈ [Matched LogHandler_handler; Matched LogBatchHandler_handler;
             Matched MetricsHandler_handler]) ∨
  (fst res ∈ [Ret (ByHandler HealthCheck_handler);
              Ret (ByHandler PrometheusMetricsHandler_handler);
              Ret (ByRouter 404); Ret (ByRouter 405)] ∧
   metrics (snd res) = metrics w ∧ reg (snd res) = reg w ∧ sink (snd res) = sink w ∧
   (routed = Matched HealthCheck_handler ↔
    in_Method req = "GET" ∧ in_Path req ∈ ["/api/v1/health"; "/"]) ∧
   (routed = Matched HealthCheck_handler →
    written (snd res)
    = mkResponse 200 [("status", JStr "healthy");
                      ("timestamp", JStr (format_Time (env_now env)));
                      ("service", JStr "telemetry-service")] :: written w)).
Proof.
  intros res routed.
  assert (routed = Matched HealthCheck_handler ↔
          in_Method req = "GET" ∧ in_Path req ∈ ["/api/v1/health"; "/"]) as Hhealth.
  { subst routed. unfold routes. simpl. split.
    - intros H. repeat case_match; simplify_eq/=; rewrite ?orb_false_r in *;
        repeat match goal with
        | E : String.eqb _ _ = true |- _ => apply String.eqb_eq in E
        end; subst.
      all: split; [done|].
      all: match goal with E : in_Path _ = _ |- _ => rewrite E end; in_list.
    - intros [-> Hp].
      apply elem_of_cons in Hp as [->|Hp]; [done|].
      apply elem_of_cons in Hp as [->|Hp]; [done|]. by apply elem_of_nil in Hp. }
  subst res. unfold ServeHTTP. fold routed. fold routed in Hhealth.
  destruct routed as [[]| |]; first [left; in_list|right].
  all: split; [in_list|]; repeat split; try done; try apply Hhealth; try tauto.
Qed.

(** ** Request accounting *)

Lemma builtin_wf_names w w' :
  builtin_names w' = builtin_names w → builtin_wf (metrics w) → builtin_wf (metrics w').
Proof.
  unfold builtin_names, builtin_wf. intros [= H1 H2 H3 H4 H5] (? & ? & ? & ? & ?).
  repeat split; congruence.
Qed.

Lemma counts_bind {A} (pre : M World A) (k : A → M World unit) :
  keeps requests_counter pre → keeps builtin_names pre →
  (∀ a, (∃ s, fst (pre s) = Ret a) → counts_request (k a)) →
  counts_request (bind pre k).
Proof.
  intros Hc Hn Hk w Hwf. unfold bind. specialize (Hc w). specialize (Hn w).
  destruct (pre w) as [[a|msg|c] w1] eqn:Hw; simpl in *; [|done..].
  intros Hret. rewrite <- Hc. apply Hk; [|by eapply builtin_wf_names|done].
  exists w. by rewrite Hw.
Qed.

Lemma counts_defer (d : World → World) (body : M World unit) :
  (∀ s, requests_counter (d s) = requests_counter s) →
  counts_request body → counts_request (defer d body).
Proof.
  intros Hd Hb w Hwf. specialize (Hb w Hwf). unfold defer.
  destruct (body w) as [[a|msg|c] w1]; simpl in *; [|done..]. by rewrite Hd.
Qed.

Lemma counts_recordHTTPMetrics method endpoint status duration :
  counts_request (recordHTTPMetrics method endpoint status duration).
Proof.
  intros w Hwf _. rewrite recordHTTPMetrics_ok by done.
  unfold requests_counter. simpl. apply total_Inc.
Qed.

Lemma counts_never {A} (pre : M World A) (k : A → M World unit) :
  (∀ w a w', pre w = (Ret a, w') → fst (k a w') ≠ Ret tt) →
  counts_request (bind pre k).
Proof.
  intros Hk w _ Hret. exfalso. unfold bind in Hret.
  destruct (pre w) as [[a|msg|c] w1] eqn:Hw; simpl in *; [|done..].
  by eapply Hk.
Qed.

(** [counts_request m] for a handler body [m], branch by branch. *)
Ltac counts_go :=
  repeat first
    [ solve [dead_branch]
    | apply counts_recordHTTPMetrics
    | match goal with
      | |- counts_request (defer _ _) => apply counts_defer; [done|]
      | |- counts_request (bind (recordHTTPMetrics _ _ _ _) _) =>
          apply counts_never; intros ? ? ? _; done
      | |- counts_request (bind _ _) =>
          apply counts_bind; [solve [keeps_go]|solve [keeps_go]|intros ? ?]
      | |- counts_request (match (match ?x with _ => _ end) with _ => _ end) => destruct x
      | |- counts_request (match ?x with _ => _ end) => destruct x
      | |- counts_request (if ?b then _ else _) => destruct b
      end ].

(** X21. Every request a handler returns from is counted once: the sum
    of [telemetry_http_requests_total] over its series rises by exactly
    one, whichever branch answered. *)
Theorem handlers_count_requests
    (json_LogEntry : string → string + LogEntry)
    (json_elements : string → string + list string)
    (json_MetricEntry : string → string + MetricEntry)
    (o o1 o2 : GoMap.order) (os : list GoMap.order) (now : Time) (elapsed : Q)
    (r : Request) (w : World) :
  builtin_wf (metrics w) →
  let counted (res : outcome unit * World) :=
    fst res = Ret tt →
    (total (HTTPRequestsTotal (metrics (snd res)))
     == total (HTTPRequestsTotal (metrics w)) + 1)%Q in
  counted (LogHandler json_LogEntry o now elapsed r w) ∧
  counted (LogBatchHandler json_LogEntry json_elements os elapsed r w) ∧
  counted (MetricsHandler json_MetricEntry o1 o2 elapsed r w).
Proof.
  intros Hwf counted. subst counted. cbv beta.
  assert (counts_request (LogHandler json_LogEntry o now elapsed r)) as H1.
  { unfold LogHandler, ParseLogEntry. counts_go. }
  assert (counts_request (LogBatchHandler json_LogEntry json_elements os elapsed r)) as H2.
  { unfold LogBatchHandler. counts_go. }
  assert (counts_request (MetricsHandler json_MetricEntry o1 o2 elapsed r)) as H3.
  { unfold MetricsHandler. counts_go. }
  split; [|split]; [apply H1|apply H2|apply H3]; done.
Qed.

Lemma handlers_count_requests_witness :
  let w := init_world in
  let counted (res : outcome unit * World) :=
    fst res = Ret tt →
    (total (HTTPRequestsTotal (metrics (snd res)))
     == total (HTTPRequestsTotal (metrics w)) + 1)%Q in
  counted (LogHandler sample_json_LogEntry [] sample_now (1 # 100)
             (mkRequest "POST" (Some "{}")) w) ∧
  counted (LogBatchHandler sample_json_LogEntry sample_json_elements [] (1 # 100)
             (mkRequest "POST" (Some "{}")) w) ∧
  counted (MetricsHandler sample_json_MetricEntry [] [] (1 # 100)
             (mkRequest "POST" (Some "{}")) w).
Proof.
  apply (handlers_count_requests sample_json_LogEntry sample_json_elements
           sample_json_MetricEntry [] [] [] [] sample_now (1 # 100)
           (mkRequest "POST" (Some "{}")) init_world).
  apply builtin_wf_InitMetrics.
Defined.

(** ** Sums of counter submissions *)





(** ** Initialisation of the packages *)

(** X23. [InitLogger] takes effect once.  After a first call, no later
    call of [InitLogger], [GetLogger] or [Sync] changes the package:
    the logger keeps the level and the encoding of the first call, and
    when the first call failed there is no logger and there never will be,
    yet every later [InitLogger] returns nil, the error being a variable of
    the call that only the first run of the body sets.  [GetLogger] then
    returns nil. *)
Theorem InitLogger_takes_effect_once
    (env env' : LoggerEnv) (level encoding level' encoding' : string)
    (cs : list logger_call) :
  let first := InitLogger env level encoding logger_start in
  let pkg := logger_after (snd first) cs in
  pkg = snd first ∧
  InitLogger env' level' encoding' pkg = (None, pkg) ∧
  GetLogger env' pkg = (zapLogger pkg, pkg) ∧
  match fst first with
  | Some err => zapLogger pkg = None
  | None => zapLogger pkg = Some (mkZapLogger (getLogLevel level) encoding)
  end.
Proof.
  intros first pkg.
  assert (logger_once (snd first) = true) as Honce.
  { subst first. unfold InitLogger. simpl.
    destruct (MkdirAll_error env); [done|]. by destruct (zap_Build _ _ _). }
  assert (∀ p, logger_once p = true → ∀ c, logger_step p c = p) as Hstep.
  { intros p Hp [e l enc|e|s]; simpl; [|unfold GetLogger|done].
    - unfold InitLogger. by rewrite Hp.
    - destruct (zapLogger p); [done|]. unfold InitLogger. by rewrite Hp. }
  assert (pkg = snd first) as Hpkg.
  { subst pkg. unfold logger_after. induction cs as [|c cs IH] using rev_ind; [done|].
    rewrite foldl_app. simpl. rewrite IH. by apply Hstep. }
  rewrite Hpkg. split; [done|]. split; [|split].
  - unfold InitLogger at 1. by rewrite Honce.
  - unfold GetLogger. destruct (zapLogger (snd first)) eqn:Hz; [done|].
    assert (InitLogger env' "info" "json" (snd first) = (None, snd first)) as ->
      by (unfold InitLogger; by rewrite Honce).
    simpl. by rewrite Hz.
  - subst first. unfold InitLogger. simpl.
    destruct (MkdirAll_error env); [done|].
    unfold zap_Build. case_bool_decide; [|done]. by destruct (open_error env).
Qed.

Lemma register_builtin_ok : register_builtin ∅ = (Ret InitMetrics, init_reg).
Proof. vm_compute. reflexivity. Qed.

(** X24. The initialisation of package [metrics] cannot panic and takes
    effect once.  The seven built-in collectors register on the new
    registry (their names differ and none repeats a label name), giving
    the metrics and the registry the process starts with; whichever of
    [InitMetrics], [GetMetrics] and [GetRegistry] is called first does
    this, and no later call of any of them changes the package or resets
    what has been recorded. *)
Theorem metrics_initialise_once (c : metrics_call) (cs : list metrics_call)
    (m : Metrics) (r : Registry) :
  let ready := mkMetricsPkg (Some InitMetrics) (Some init_reg) true in
  register_builtin ∅ = (Ret InitMetrics, init_reg) ∧
  metrics_after metrics_start (c :: cs) = ready ∧
  InitMetrics_once metrics_start = (Ret (Some InitMetrics), ready) ∧
  GetMetrics metrics_start = (Ret (Some InitMetrics), ready) ∧
  GetRegistry metrics_start = (Ret (Some init_reg), ready) ∧
  let recorded := mkMetricsPkg (Some m) (Some r) true in
  InitMetrics_once recorded = (Ret (Some m), recorded) ∧
  GetMetrics recorded = (Ret (Some m), recorded) ∧
  GetRegistry recorded = (Ret (Some r), recorded).
Proof.
  intros ready.
  assert (InitMetrics_once metrics_start = (Ret (Some InitMetrics), ready)) as Hinit.
  { unfold InitMetrics_once. simpl. by rewrite register_builtin_ok. }
  assert (∀ c, metrics_step ready c = ready) as Hready by (by intros []).
  split; [apply register_builtin_ok|]. split; [|split; [done|split; [done|split]]].
  - unfold metrics_after. simpl.
    assert (metrics_step metrics_start c = ready) as ->.
    { destruct c; simpl; unfold GetMetrics, GetRegistry, bind; simpl; by rewrite Hinit. }
    induction cs as [|c' cs IH] using rev_ind; [done|].
    rewrite foldl_app. simpl. by rewrite IH.
  - unfold GetRegistry, bind. simpl. by rewrite Hinit.
  - intros recorded. unfold InitMetrics_once, GetMetrics, GetRegistry.
    split; [|split]; reflexivity.
Qed.

(** ** An entry of level panic *)

(** X25. A single log entry of level [panic] makes [LogHandler] panic
    with the entry's message, after the line has been written at panic
    level and the entry has been counted as received.  It is not counted
    as processed, the request is not counted and no response is written;
    the deferred decrement brings the in-flight gauge back, and the
    process goes on. *)
Theorem LogHandler_panic_entry
    (json_LogEntry : string → string + LogEntry) (o : GoMap.order) (now : Time)
    (elapsed : Q) (data : string) (decoded : LogEntry) (w : World) :
  builtin_wf (metrics w) →
  json_LogEntry data = inr decoded →
  Level decoded = "panic" →
  let r := LogHandler json_LogEntry o now elapsed (mkRequest "POST" (Some data)) w in
  fst r = Panic (Message decoded) ∧
  sink (snd r) = mkLine PanicLevel (Message decoded) (entry_fields o decoded) :: sink w ∧
  incremented [ServiceName decoded; "panic"] (LogsReceived (metrics w))
    (LogsReceived (metrics (snd r))) ∧
  LogsProcessed (metrics (snd r)) = LogsProcessed (metrics w) ∧
  HTTPRequestsTotal (metrics (snd r)) = HTTPRequestsTotal (metrics w) ∧
  written (snd r) = written w ∧
  (HTTPRequestsInFlight (metrics (snd r)) == HTTPRequestsInFlight (metrics w))%Q.
Proof.
  intros (Ht & Hd & Hr & Hp & He) Hdec Hl r. subst r.
  pose proof (ParseLogEntry_decoded json_LogEntry now data decoded Hdec) as Hparse.
  set (entry := if IsZero (Timestamp decoded) then set_Timestamp now decoded
                else decoded) in Hparse.
  assert (LogFromService o entry = LogFromService o decoded) as HL.
  { subst entry. by destruct (IsZero (Timestamp decoded)). }
  assert (ServiceName entry = ServiceName decoded ∧ Level entry = Level decoded)
    as [Hsvc Hlvl].
  { subst entry. by destruct (IsZero (Timestamp decoded)). }
  unfold LogHandler. step_ret.
  unfold defer. cbn [Method Body String.eqb Ascii.eqb Bool.eqb negb].
  rewrite Hparse. cbv beta iota.
  step_ret. rewrite Hsvc, Hlvl, HL, Hl.
  erewrite bind_Ret by (apply counter_Inc_ok; simpl; by rewrite Hr).
  erewrite bind_Panic by (by apply LogFromService_panic).
  cbn [fst snd]. split; [done|]. split; [done|]. split; [apply sample_Inc_ensure|].
  repeat split; try done. simpl. ring.
Qed.

Lemma LogHandler_panic_entry_witness :
  let decoded := mkLogEntry "svc" "panic" "boom" 0%Z ∅ "" "" in
  let w := init_world in
  let r := LogHandler sample_json_LogEntry' [] sample_now (1 # 100)
             (mkRequest "POST" (Some (entry_body "svc" "panic" "boom"))) w in
  fst r = Panic (Message decoded) ∧
  sink (snd r) = mkLine PanicLevel (Message decoded) (entry_fields [] decoded) :: sink w ∧
  incremented [ServiceName decoded; "panic"] (LogsReceived (metrics w))
    (LogsReceived (metrics (snd r))) ∧
  LogsProcessed (metrics (snd r)) = LogsProcessed (metrics w) ∧
  HTTPRequestsTotal (metrics (snd r)) = HTTPRequestsTotal (metrics w) ∧
  written (snd r) = written w ∧
  (HTTPRequestsInFlight (metrics (snd r)) == HTTPRequestsInFlight (metrics w))%Q.
Proof.
  apply (LogHandler_panic_entry sample_json_LogEntry' [] sample_now (1 # 100)
           (entry_body "svc" "panic" "boom")
           (mkLogEntry "svc" "panic" "boom" 0%Z ∅ "" "") init_world).
  - apply builtin_wf_InitMetrics.
  - vm_compute. reflexivity.
  - reflexivity.
Defined.

(** ** Label names and label values *)

(** X26. The recorders build the label names and the label values in two
    loops over the same map.  When both loops visit the map in the same
    order, each value stands at the position of its name; Go does not
    promise that, and for every label map that holds two different values
    there are orders of the two loops that put the value of one name at
    the position of another. *)
Theorem label_lists_align_only_in_one_order
    (o : GoMap.order) (labels : gmap string string) :
  labels !! "service_name" = None →
  zip (labelNames o labels) (labelValues o labels)
  = ("service_name", "") :: GoMap.range o labels ∧
  (∀ k1 k2 v1 v2,
     labels !! k1 = Some v1 → labels !! k2 = Some v2 → v1 ≠ v2 →
     ∃ o1 o2, (k1, v2) ∈ zip (labelNames o1 labels) (labelValues o2 labels) ∧
              labels !! k1 ≠ Some v2).
Proof.
  intros Hs. split.
  - rewrite labelValues_no_service_name by done. unfold labelNames. simpl.
    by rewrite zip_fst_snd.
  - intros k1 k2 v1 v2 H1 H2 Hne.
    assert (k1 ≠ k2) as Hk by (intros ->; congruence).
    set (rest := delete k1 (delete k2 labels)).
    assert (map_to_list labels ≡ₚ (k1, v1) :: (k2, v2) :: map_to_list rest) as Hperm.
    { rewrite <- (insert_id labels k1 v1 H1), <- insert_delete_eq.
      rewrite map_to_list_insert by apply lookup_delete_eq.
      apply Permutation_skip.
      rewrite <- (insert_id (delete k1 labels) k2 v2), <- insert_delete_eq
        by (by rewrite lookup_delete_ne).
      rewrite map_to_list_insert by apply lookup_delete_eq.
      subst rest. by rewrite delete_delete. }
    destruct (arrange_complete _ _ Hperm) as [o1 Ho1].
    destruct (arrange_complete (map_to_list labels)
                ((k2, v2) :: (k1, v1) :: map_to_list rest)) as [o2 Ho2].
    { rewrite Hperm. apply perm_swap. }
    exists o1, o2. split; [|congruence].
    rewrite labelValues_no_service_name by done. unfold labelNames, GoMap.range.
    rewrite Ho1, Ho2. simpl. apply list_elem_of_further, list_elem_of_here.
Qed.

Lemma label_lists_align_only_in_one_order_witness :
  let labels : gmap string string := {["a" := "1"; "b" := "2"]} in
  zip (labelNames [1%nat] labels) (labelValues [1%nat] labels)
  = ("service_name", "") :: GoMap.range [1%nat] labels ∧
  (∀ k1 k2 v1 v2,
     labels !! k1 = Some v1 → labels !! k2 = Some v2 → v1 ≠ v2 →
     ∃ o1 o2, (k1, v2) ∈ zip (labelNames o1 labels) (labelValues o2 labels) ∧
              labels !! k1 ≠ Some v2).
Proof.
  apply (label_lists_align_only_in_one_order [1%nat] {["a" := "1"; "b" := "2"]}).
  reflexivity.
Defined.

(** * The PHP client against the service *)

(** The state [LogHandler] leaves for a body that does not decode. *)
Lemma LogHandler_rejects_state
    (json_LogEntry : string → string + LogEntry) o now elapsed data err w :
  builtin_wf (metrics w) →
  json_LogEntry data = inl err →
  LogHandler json_LogEntry o now elapsed (mkRequest "POST" (Some data)) w
  = (Panic "runtime error: invalid memory address or nil pointer dereference",
     InFlight_Dec
       (http_recorded "POST" "/api/v1/logs" 400 elapsed
          (add_response
             (mkResponse 400
                [("status", JStr "error");
                 ("error", JStr ("Failed to parse log entry: "
                                 +:+ ("failed to parse log entry: " +:+ err)))])
             (InFlight_Inc w)))).
Proof.
  intros Hwf Hd.
  unfold LogHandler. step_ret.
  unfold defer, ParseLogEntry. simpl. rewrite Hd.
  step_ret.
  erewrite bind_Ret by (by apply recordHTTPMetrics_ok).
  reflexivity.
Qed.

(** The state [MetricsHandler] leaves for a body that does not decode. *)
Lemma MetricsHandler_rejects_state
    (json_MetricEntry : string → string + MetricEntry) o1 o2 elapsed data err w :
  builtin_wf (metrics w) →
  json_MetricEntry data = inl err →
  MetricsHandler json_MetricEntry o1 o2 elapsed (mkRequest "POST" (Some data)) w
  = (Ret tt,
     InFlight_Dec
       (http_recorded "POST" "/api/v1/metrics" 400 elapsed
          (add_response
             (mkResponse 400
                [("status", JStr "error");
                 ("error", JStr ("Failed to parse metric entry: " +:+ err))])
             (InFlight_Inc w)))).
Proof.
  intros Hwf Hd.
  unfold MetricsHandler. step_ret.
  unfold defer, Decode_MetricEntry. simpl. rewrite Hd.
  step_ret.
  rewrite recordHTTPMetrics_ok by done.
  reflexivity.
Qed.

(** Once a type error is saved, the members that follow keep it. *)
Lemma into_string_saved field j old err :
  snd (into_string field j old (Some err)) = Some err.
Proof. by destruct j. Qed.

Lemma LogEntry_member_saved parse_RFC3339 e err key j :
  (∃ err', LogEntry_member parse_RFC3339 (e, Some err) key j = inl err') ∨
  (∃ e', LogEntry_member parse_RFC3339 (e, Some err) key j = inr (e', Some err)).
Proof.
  unfold LogEntry_member.
  destruct (find_field LogEntry_tags key) as [[]|]; try (right; by eexists).
  all: try (right; destruct j; simpl; by eexists).
  destruct j; simpl; try (left; by eexists); try (right; by eexists).
  destruct (parse_RFC3339 s); [right|left]; by eexists.
Qed.

Lemma LogEntry_members_saved parse_RFC3339 members e err :
  (∃ err', LogEntry_members parse_RFC3339 (e, Some err) members = inl err') ∨
  (∃ e', LogEntry_members parse_RFC3339 (e, Some err) members = inr (e', Some err)).
Proof.
  revert e. induction members as [|[key j] members IH]; intros e;
    cbn [LogEntry_members].
  - right. by eexists.
  - destruct (LogEntry_member_saved parse_RFC3339 e err key j) as [[err' ->]|[e' ->]].
    + left. by eexists.
    + apply IH.
Qed.

(** The body [log] builds without fields does not decode. *)
Lemma log_entry_no_fields_rejected parse_RFC3339 date_c this level message traceId spanId :
  ∃ err, Unmarshal_LogEntry parse_RFC3339
           (php.json_encode
              (php.log_entry date_c this level message php.no_fields traceId spanId))
         = inl err.
Proof.
  unfold php.log_entry, php.no_fields. cbn [php.json_encode php.is_list_from app map].
  unfold Unmarshal_LogEntry. cbn [LogEntry_members].
  change (LogEntry_member parse_RFC3339 (zero_LogEntry, None) (php.key_text (php.KStr "service_name"))
            (JStr (php.serviceName this)))
    with (inr (mkLogEntry (php.serviceName this) "" "" 0%Z ∅ "" "", None)
          : string + LogEntry * option string).
  cbv beta iota.
  change (LogEntry_member parse_RFC3339 (mkLogEntry (php.serviceName this) "" "" 0%Z ∅ "" "", None)
            (php.key_text (php.KStr "level")) (JStr level))
    with (inr (mkLogEntry (php.serviceName this) level "" 0%Z ∅ "" "", None)
          : string + LogEntry * option string).
  cbv beta iota.
  change (LogEntry_member parse_RFC3339 (mkLogEntry (php.serviceName this) level "" 0%Z ∅ "" "", None)
            (php.key_text (php.KStr "message")) (JStr message))
    with (inr (mkLogEntry (php.serviceName this) level message 0%Z ∅ "" "", None)
          : string + LogEntry * option string).
  cbv beta iota.
  set (e3 := mkLogEntry (php.serviceName this) level message 0%Z ∅ "" "").
  assert (LogEntry_member parse_RFC3339 (e3, None) (php.key_text (php.KStr "timestamp"))
            (JStr date_c)
          = match parse_RFC3339 date_c with
            | Some t => inr (set_Timestamp t e3, None)
            | None => inl ("parsing time " +:+ quoted date_c +:+ " as RFC 3339")
            end) as -> by reflexivity.
  destruct (parse_RFC3339 date_c) as [t|]; [|by eexists].
  set (e4 := set_Timestamp t e3).
  assert (LogEntry_member parse_RFC3339 (e4, None) (php.key_text (php.KStr "fields")) (JArr [])
          = inr (e4, Some (UnmarshalTypeError (JArr []) "LogEntry.fields"
                             "map[string]interface {}"))) as -> by reflexivity.
  edestruct (LogEntry_members_saved parse_RFC3339) as [[err ->]|[e' ->]]; by eexists.
Qed.

(** X27. A log call of the PHP client that passes no fields is rejected
    by the service.  The client sends the default [$fields = []], which
    [json_encode] writes as a JSON array; [json.Unmarshal] has a type error
    for an array where [LogEntry] declares a map, so the body does not
    decode: [LogHandler] answers 400 and then panics on the nil entry.
    This holds for every level and message, with or without trace ids. *)
Theorem php_log_without_fields_is_rejected
    (parse_RFC3339 : string → option Time) (parse : string → option json)
    (date_c : string) (this : php.TelemetryClient) (level message : string)
    (traceId spanId : option string) (body : string)
    (o : GoMap.order) (now : Time) (elapsed : Q) (w : World) :
  builtin_wf (metrics w) →
  parse body
  = Some (php.json_encode
            (php.log_entry date_c this level message php.no_fields traceId spanId)) →
  let json_LogEntry := Go_json_LogEntry parse_RFC3339 parse in
  let r := LogHandler json_LogEntry o now elapsed (mkRequest "POST" (Some body)) w in
  php.json_encode php.no_fields = JArr [] ∧
  (∃ err, json_LogEntry body = inl err) ∧
  fst r = Panic "runtime error: invalid memory address or nil pointer dereference" ∧
  (∃ msg, written (snd r)
          = mkResponse 400 [("status", JStr "error"); ("error", JStr msg)] :: written w) ∧
  sink (snd r) = sink w.
Proof.
  intros Hwf Hparse json_LogEntry r. split; [done|].
  destruct (log_entry_no_fields_rejected parse_RFC3339 date_c this level message
              traceId spanId) as [err Herr].
  assert (json_LogEntry body = inl err) as Hd.
  { unfold json_LogEntry, Go_json_LogEntry. by rewrite Hparse. }
  split; [by eexists|]. subst r.
  rewrite (LogHandler_rejects_state _ _ _ _ _ err) by done.
  split; [done|]. split; [by eexists|done].
Qed.

Lemma php_log_without_fields_is_rejected_witness :
  let this := php.construct "shop" None None 5 in
  let sent := php.json_encode
                (php.log_entry "2025-10-30T00:00:00+00:00" this "info" "order placed"
                   php.no_fields None None) in
  let parse := fun s : string => if String.eqb s "body" then Some sent else None in
  let json_LogEntry := Go_json_LogEntry (fun _ => Some sample_now) parse in
  let r := LogHandler json_LogEntry [] sample_now (1 # 100)
             (mkRequest "POST" (Some "body")) init_world in
  php.json_encode php.no_fields = JArr [] ∧
  (∃ err, json_LogEntry "body" = inl err) ∧
  fst r = Panic "runtime error: invalid memory address or nil pointer dereference" ∧
  (∃ msg, written (snd r)
          = mkResponse 400 [("status", JStr "error"); ("error", JStr msg)]
            :: written init_world) ∧
  sink (snd r) = sink init_world.
Proof.
  apply (php_log_without_fields_is_rejected (fun _ => Some sample_now)
           (fun s : string =>
              if String.eqb s "body"
              then Some (php.json_encode
                           (php.log_entry "2025-10-30T00:00:00+00:00"
                              (php.construct "shop" None None 5) "info" "order placed"
                              php.no_fields None None))
              else None)
           "2025-10-30T00:00:00+00:00" (php.construct "shop" None None 5)
           "info" "order placed" None None "body" [] sample_now (1 # 100) init_world).
  - apply builtin_wf_InitMetrics.
  - reflexivity.
Defined.

(** What [Decode] makes of the body [recordMetric] builds without labels. *)
Lemma metric_entry_no_labels_rejected this metricName metricType value :
  Unmarshal_MetricEntry
    (php.json_encode (php.metric_entry this metricName metricType value php.no_fields))
  = inl "json: cannot unmarshal array into Go struct field MetricEntry.labels of type map[string]string".
Proof. reflexivity. Qed.

(** X28. A metric call of the PHP client that passes no labels is rejected
    by the service.  The client sends the default [$labels = []], which
    [json_encode] writes as a JSON array; the decoder has a type error for
    an array where [MetricEntry] declares a map, so [MetricsHandler] answers
    400 with that error, returns, and records nothing: the custom families
    and the registry are as before.  This holds for every metric name, type
    and value, so for [incrementCounter], [setGauge] and [recordHistogram]
    called without labels. *)
Theorem php_metric_without_labels_is_rejected
    (parse : string → option json) (this : php.TelemetryClient)
    (metricName metricType : string) (value : Q) (body : string)
    (o1 o2 : GoMap.order) (elapsed : Q) (w : World) :
  builtin_wf (metrics w) →
  parse body
  = Some (php.json_encode
            (php.metric_entry this metricName metricType value php.no_fields)) →
  let r := MetricsHandler (Go_json_MetricEntry parse) o1 o2 elapsed
             (mkRequest "POST" (Some body)) w in
  fst r = Ret tt ∧
  written (snd r)
  = mkResponse 400
      [("status", JStr "error");
       ("error", JStr "Failed to parse metric entry: json: cannot unmarshal array into Go struct field MetricEntry.labels of type map[string]string")]
    :: written w ∧
  custom_families (snd r) = custom_families w ∧
  reg (snd r) = reg w.
Proof.
  intros Hwf Hparse r. subst r.
  rewrite (MetricsHandler_rejects_state _ _ _ _ _
             "json: cannot unmarshal array into Go struct field MetricEntry.labels of type map[string]string");
    [done|done|].
  unfold Go_json_MetricEntry. rewrite Hparse.
  apply metric_entry_no_labels_rejected.
Qed.

Lemma php_metric_without_labels_is_rejected_witness :
  let this := php.construct "shop" None None 5 in
  let sent := php.json_encode (php.metric_entry this "orders" "counter" 1 php.no_fields) in
  let parse := fun s : string => if String.eqb s "body" then Some sent else None in
  let r := MetricsHandler (Go_json_MetricEntry parse) [] [] (1 # 100)
             (mkRequest "POST" (Some "body")) init_world in
  fst r = Ret tt ∧
  written (snd r)
  = mkResponse 400
      [("status", JStr "error");
       ("error", JStr "Failed to parse metric entry: json: cannot unmarshal array into Go struct field MetricEntry.labels of type map[string]string")]
    :: written init_world ∧
  custom_families (snd r) = custom_families init_world ∧
  reg (snd r) = reg init_world.
Proof.
  apply (php_metric_without_labels_is_rejected
           (fun s : string =>
              if String.eqb s "body"
              then Some (php.json_encode
                           (php.metric_entry (php.construct "shop" None None 5)
                              "orders" "counter" 1 php.no_fields))
              else None)
           (php.construct "shop" None None 5) "orders" "counter" 1 "body" [] []
           (1 # 100) init_world).
  - apply builtin_wf_InitMetrics.
  - reflexivity.
Defined.

(** [json_encode] on an array of labels that is not empty: a JSON object
    with the labels in their order. *)
Lemma json_encode_labels (labels : list (string * string)) :
  labels ≠ [] →
  php.json_encode (php.labels_array labels)
  = JObj (map (fun kv => (fst kv, JStr (snd kv))) labels).
Proof.
  destruct labels as [|[k v] labels]; [done|]. intros _.
  unfold php.labels_array. cbn [map fst snd php.json_encode php.is_list_from].
  f_equal. f_equal. rewrite map_map. by apply map_ext; intros [].
Qed.

(** Setting the keys of an array one after the other gives the map of the
    array. *)
Lemma foldl_insert_list_to_map {V : Type} (l : list (string * V)) (m : gmap string V) :
  NoDup l.*1 →
  foldl (fun m kv => <[fst kv := snd kv]> m) m l = list_to_map l ∪ m.
Proof.
  revert m. induction l as [|[k v] l IH]; intros m Hnd.
  - simpl. by rewrite (left_id_L ∅ (∪)).
  - rewrite fmap_cons in Hnd. apply NoDup_cons in Hnd as [Hk Hnd].
    cbn [foldl list_to_map foldr fst snd uncurry]. rewrite IH by done.
    change (foldr (fun kv : string * V => uncurry insert kv) ∅ l) with
      (list_to_map l : gmap string V).
    rewrite <- insert_union_l. symmetry. apply insert_union_r.
    by apply not_elem_of_list_to_map_1.
Qed.

Lemma foldl_label_member (labels : list (string * string)) (m : gmap string string) :
  foldl label_member (m, None) (map (fun kv => (fst kv, JStr (snd kv))) labels)
  = (foldl (fun m kv => <[fst kv := snd kv]> m) m labels, None).
Proof. revert m. induction labels as [|[k v] labels IH]; intros m; [done|apply IH]. Qed.

(** What [Decode] makes of the body [recordMetric] builds with labels. *)
Lemma metric_entry_labels_decoded this metricName metricType value labels :
  labels ≠ [] → NoDup labels.*1 →
  Unmarshal_MetricEntry
    (php.json_encode
       (php.metric_entry this metricName metricType value (php.labels_array labels)))
  = inr (mkMetricEntry (php.serviceName this) metricName metricType value
           (Some (list_to_map labels))).
Proof.
  intros Hne Hnd.
  assert (php.json_encode
            (php.metric_entry this metricName metricType value (php.labels_array labels))
          = JObj [("service_name", JStr (php.serviceName this));
                  ("metric_name", JStr metricName);
                  ("metric_type", JStr metricType);
                  ("value", JNum value);
                  ("labels", php.json_encode (php.labels_array labels))]) as ->
    by reflexivity.
  rewrite json_encode_labels by done.
  unfold Unmarshal_MetricEntry. cbn [foldl fst snd].
  set (members := map _ labels).
  assert (∀ e : MetricEntry,
            MetricEntry_member (e, None) "labels" (JObj members)
            = (mkMetricEntry (me_ServiceName e) (MetricName e) (MetricType e) (Value e)
                 (Some (list_to_map labels ∪ default ∅ (Labels e))), None)) as Hlabels.
  { intros e. unfold MetricEntry_member.
    change (find_field MetricEntry_tags "labels") with (Some G_labels).
    cbv beta iota. subst members. rewrite foldl_label_member.
    by rewrite foldl_insert_list_to_map. }
  change (MetricEntry_member
            (MetricEntry_member
               (MetricEntry_member
                  (MetricEntry_member (zero_MetricEntry, None) "service_name"
                     (JStr (php.serviceName this)))
                  "metric_name" (JStr metricName))
               "metric_type" (JStr metricType))
            "value" (JNum value))
    with (mkMetricEntry (php.serviceName this) metricName metricType value None,
          @None string).
  rewrite Hlabels. simpl. by rewrite (right_id_L ∅ (∪)).
Qed.

(** The state [MetricsHandler] leaves for an entry of a known kind when no
    custom family exists. *)
Lemma MetricsHandler_no_family_panics
    (json_MetricEntry : string → string + MetricEntry) o1 o2 elapsed data entry w :
  no_custom_family w →
  json_MetricEntry data = inr entry →
  MetricType entry ∈ ["counter"; "gauge"; "histogram"] →
  let r := MetricsHandler json_MetricEntry o1 o2 elapsed (mkRequest "POST" (Some data)) w in
  fst r = Panic "duplicate label names" ∧
  written (snd r) = written w ∧
  custom_families (snd r) = custom_families w ∧
  reg (snd r) = reg w.
Proof.
  intros Hw Hdec Hk r. subst r.
  unfold MetricsHandler. step_ret.
  unfold defer, Decode_MetricEntry.
  cbn [Method Body String.eqb Ascii.eqb Bool.eqb negb]. rewrite Hdec.
  assert (no_custom_family (InFlight_Inc w)) as Hw' by (by destruct w as [[] ? ? ?]).
  destruct (RecordMetric_no_family o1 o2 entry _ Hw') as [Hsnd Hfst].
  specialize (Hfst Hk).
  erewrite bind_Panic; cycle 1.
  { destruct (RecordMetric o1 o2 entry (InFlight_Inc w)) as [res w1].
    simpl in *. subst. reflexivity. }
  by destruct w as [[] ? ? ?].
Qed.

(** X29. A metric call of the PHP client with labels reaches the recorder
    as it was sent: the body decodes to the client's service name, the
    metric name, type and value of the call, and the labels of the array
    (round trip through [json_encode] and [Decode]), and [RecordMetric]
    adds the service name to these labels.  On a server without custom
    families a call of kind counter, gauge or histogram then makes
    [MetricsHandler] panic: nothing is answered and nothing is recorded. *)
Theorem php_metric_with_labels_round_trip
    (parse : string → option json) (this : php.TelemetryClient)
    (metricName metricType : string) (value : Q) (labels : list (string * string))
    (body : string) (o1 o2 : GoMap.order) (elapsed : Q) (w : World) :
  labels ≠ [] →
  NoDup labels.*1 →
  parse body
  = Some (php.json_encode
            (php.metric_entry this metricName metricType value
               (php.labels_array labels))) →
  no_custom_family w →
  metricType ∈ ["counter"; "gauge"; "histogram"] →
  let decoded := mkMetricEntry (php.serviceName this) metricName metricType value
                   (Some (list_to_map labels)) in
  let r := MetricsHandler (Go_json_MetricEntry parse) o1 o2 elapsed
             (mkRequest "POST" (Some body)) w in
  Go_json_MetricEntry parse body = inr decoded ∧
  folded_labels decoded
  = <["service_name" := php.serviceName this]> (list_to_map labels) ∧
  fst r = Panic "duplicate label names" ∧
  written (snd r) = written w ∧
  custom_families (snd r) = custom_families w.
Proof.
  intros Hne Hnd Hparse Hw Hk decoded r.
  assert (Go_json_MetricEntry parse body = inr decoded) as Hdec.
  { unfold Go_json_MetricEntry. rewrite Hparse.
    by apply metric_entry_labels_decoded. }
  split; [done|]. split; [done|].
  destruct (MetricsHandler_no_family_panics (Go_json_MetricEntry parse) o1 o2 elapsed
              body decoded w Hw Hdec Hk) as (H1 & H2 & H3 & _).
  done.
Qed.

Lemma php_metric_with_labels_round_trip_witness :
  let this := php.construct "shop" None None 5 in
  let labels := [("region", "eu"); ("tier", "gold")] in
  let sent := php.json_encode
                (php.metric_entry this "queue_depth" "gauge" 7 (php.labels_array labels)) in
  let parse := fun s : string => if String.eqb s "body" then Some sent else None in
  let decoded := mkMetricEntry "shop" "queue_depth" "gauge" 7
                   (Some (list_to_map labels)) in
  let r := MetricsHandler (Go_json_MetricEntry parse) [] [] (1 # 100)
             (mkRequest "POST" (Some "body")) init_world in
  Go_json_MetricEntry parse "body" = inr decoded ∧
  folded_labels decoded = <["service_name" := "shop"]> (list_to_map labels) ∧
  fst r = Panic "duplicate label names" ∧
  written (snd r) = written init_world ∧
  custom_families (snd r) = custom_families init_world.
Proof.
  apply (php_metric_with_labels_round_trip
           (fun s : string =>
              if String.eqb s "body"
              then Some (php.json_encode
                           (php.metric_entry (php.construct "shop" None None 5)
                              "queue_depth" "gauge" 7
                              (php.labels_array [("region", "eu"); ("tier", "gold")])))
              else None)
           (php.construct "shop" None None 5) "queue_depth" "gauge" 7
           [("region", "eu"); ("tier", "gold")] "body" [] [] (1 # 100) init_world).
  - done.
  - apply (bool_decide_unpack _). vm_compute. reflexivity.
  - reflexivity.
  - done.
  - in_list.
Defined.

(** What [json.Unmarshal] makes of the body [log] builds with fields that
    are not a list. *)
Lemma log_entry_fields_decoded parse_RFC3339 date_c this level message fields
    traceId spanId t :
  php.is_list_from 0 fields = false →
  NoDup (map (fun kv => php.key_text (fst kv)) fields) →
  parse_RFC3339 date_c = Some t →
  Unmarshal_LogEntry parse_RFC3339
    (php.json_encode
       (php.log_entry date_c this level message (php.Arr fields) traceId spanId))
  = inr (mkLogEntry (php.serviceName this) level message t
           (list_to_map
              (map (fun kv => (php.key_text (fst kv), php.json_encode (snd kv))) fields))
           (default "" traceId) (default "" spanId)).
Proof.
  intros Hl Hnd Ht.
  assert (map (fun kv : php.key * php.zval =>
                 let '(k, x) := kv in (php.key_text k, php.json_encode x)) fields
          = map (fun kv => (php.key_text (fst kv), php.json_encode (snd kv))) fields)
    as Hmembers by (by apply map_ext; intros []).
  set (members := map (fun kv => (php.key_text (fst kv), php.json_encode (snd kv))) fields)
    in *.
  assert (foldl (fun (m : gmap string json) kv => <[fst kv := snd kv]> m) ∅ members
          = list_to_map members) as Hmap.
  { rewrite foldl_insert_list_to_map; [by rewrite (right_id_L ∅ (∪))|].
    replace (members.*1) with (map (fun kv => php.key_text (fst kv)) fields); [done|].
    subst members. clear. induction fields as [|kv fields IH]; [done|].
    simpl. by rewrite IH. }
  unfold php.log_entry.
  destruct traceId as [tr|], spanId as [sp|];
    cbn [php.json_encode php.is_list_from app map]; rewrite Hl, Hmembers;
    unfold Unmarshal_LogEntry; cbn; rewrite Ht; cbn; by rewrite Hmap.
Qed.

(** X30. A log call of the PHP client with fields under string keys is
    logged as it was sent.  The body decodes to the client's service name,
    the level, the message and the time of the call, the fields of the
    array and the trace and span ids that were given (round trip through
    [json_encode] and [json.Unmarshal]); for a level other than fatal and
    panic [LogHandler] writes the line of that entry to the log and answers
    200. *)
Theorem php_log_with_fields_is_logged
    (parse_RFC3339 : string → option Time) (parse : string → option json)
    (date_c : string) (this : php.TelemetryClient) (level message : string)
    (fields : list (php.key * php.zval)) (traceId spanId : option string)
    (t : Time) (body : string) (o : GoMap.order) (now : Time) (elapsed : Q)
    (w : World) :
  builtin_wf (metrics w) →
  php.is_list_from 0 fields = false →
  NoDup (map (fun kv => php.key_text (fst kv)) fields) →
  parse_RFC3339 date_c = Some t →
  level ≠ "fatal" → level ≠ "panic" →
  parse body
  = Some (php.json_encode
            (php.log_entry date_c this level message (php.Arr fields) traceId spanId)) →
  let decoded :=
    mkLogEntry (php.serviceName this) level message t
      (list_to_map
         (map (fun kv => (php.key_text (fst kv), php.json_encode (snd kv))) fields))
      (default "" traceId) (default "" spanId) in
  let r := LogHandler (Go_json_LogEntry parse_RFC3339 parse) o now elapsed
             (mkRequest "POST" (Some body)) w in
  Go_json_LogEntry parse_RFC3339 parse body = inr decoded ∧
  fst r = Ret tt ∧
  written (snd r)
  = mkResponse 200 [("status", JStr "success");
                    ("message", JStr "Log entry processed successfully")]
    :: written w ∧
  sink (snd r) = line_of o decoded ++ sink w.
Proof.
  intros Hwf Hl Hnd Ht Hf Hp Hparse decoded r.
  assert (Go_json_LogEntry parse_RFC3339 parse body = inr decoded) as Hdec.
  { unfold Go_json_LogEntry. rewrite Hparse.
    by apply log_entry_fields_decoded. }
  split; [done|]. subst r.
  rewrite (LogHandler_accepts_state _ o now elapsed body decoded w Hwf Hdec Hf Hp).
  done.
Qed.

Lemma php_log_with_fields_is_logged_witness :
  let this := php.construct "shop" None None 5 in
  let fields := [(php.KStr "order", php.Int 42); (php.KStr "paid", php.Bool true)] in
  let sent := php.json_encode
                (php.log_entry "2025-10-30T00:00:00+00:00" this "warn" "stock low"
                   (php.Arr fields) (Some "t-1") None) in
  let parse := fun s : string => if String.eqb s "body" then Some sent else None in
  let decoded :=
    mkLogEntry "shop" "warn" "stock low" sample_now
      (list_to_map [("order", JNum 42); ("paid", JBool true)]) "t-1" "" in
  let json_LogEntry := Go_json_LogEntry (fun _ => Some sample_now) parse in
  let r := LogHandler json_LogEntry [] sample_now (1 # 100)
             (mkRequest "POST" (Some "body")) init_world in
  json_LogEntry "body" = inr decoded ∧
  fst r = Ret tt ∧
  written (snd r)
  = mkResponse 200 [("status", JStr "success");
                    ("message", JStr "Log entry processed successfully")]
    :: written init_world ∧
  sink (snd r) = line_of [] decoded ++ sink init_world.
Proof.
  apply (php_log_with_fields_is_logged (fun _ => Some sample_now)
           (fun s : string =>
              if String.eqb s "body"
              then Some (php.json_encode
                           (php.log_entry "2025-10-30T00:00:00+00:00"
                              (php.construct "shop" None None 5) "warn" "stock low"
                              (php.Arr [(php.KStr "order", php.Int 42);
                                        (php.KStr "paid", php.Bool true)])
                              (Some "t-1") None))
              else None)
           "2025-10-30T00:00:00+00:00" (php.construct "shop" None None 5)
           "warn" "stock low"
           [(php.KStr "order", php.Int 42); (php.KStr "paid", php.Bool true)]
           (Some "t-1") None sample_now "body" [] sample_now (1 # 100) init_world).
  - apply builtin_wf_InitMetrics.
  - reflexivity.
  - apply (bool_decide_unpack _). vm_compute. reflexivity.
  - reflexivity.
  - done.
  - done.
  - reflexivity.
Defined.
